(** * squeaky: the Obsidian setlist parser of [scrape_sf.py]

    A shallow embedding of the parsing pipeline of [src/scrape_sf.py]
    (wiki-link cleanup, frontmatter parsing, section segmentation, song
    tokenizing, show assembly, song index) and the properties checked
    against it.

    Python strings are sequences of Unicode code points; the regular
    expressions of the program are run by a small backtracking matcher
    with the priorities of Python's [re] (greedy and lazy repetition,
    ordered alternation, leftmost match). *)

From Stdlib Require Import NArith List Ascii String Bool Lia DecimalString.
From stdpp Require Import gmap.
Import ListNotations.

(** ** Python strings *)

Module Py.

(** A character is a Unicode code point, a [str] a list of them. *)
Definition char := N.
Definition str := list char.

Definition ch (a : ascii) : char := N_of_ascii a.
Arguments ch _%_char.

Fixpoint py (s : string) : str :=
  match s with
  | EmptyString => []
  | String a s' => ch a :: py s'
  end.
Arguments py _%_string.

Definition NL : char := 10%N.

Definition char_in (c : char) (cs : str) : bool := existsb (N.eqb c) cs.

Fixpoint str_eqb (a b : str) : bool :=
  match a, b with
  | [], [] => true
  | x :: a', y :: b' => N.eqb x y && str_eqb a' b'
  | _, _ => false
  end.

Definition in_range (lo hi c : char) : bool := (N.leb lo c && N.leb c hi)%bool.

(** [str.isspace] for one code point; [\s] of a [str] pattern is the same
    set (both are [Py_UNICODE_ISSPACE]). *)
Definition isspace (c : char) : bool :=
  (in_range 9 13 c || in_range 28 32 c || N.eqb c 133 || N.eqb c 160
   || N.eqb c 5760 || in_range 8192 8202 c || in_range 8232 8233 c
   || N.eqb c 8239 || N.eqb c 8287 || N.eqb c 12288)%N%bool.

(** The first code point of every run of decimal digits (category Nd,
    Unicode 14.0): each run is ten code points long, the mathematical
    digits at 120782 being five runs in a row. *)
Definition decimal_runs : list N :=
  [48; 1632; 1776; 1984; 2406; 2534; 2662; 2790; 2918; 3046; 3174; 3302;
   3430; 3558; 3664; 3792; 3872; 4160; 4240; 6112; 6160; 6470; 6608; 6784;
   6800; 6992; 7088; 7232; 7248; 42528; 43216; 43264; 43472; 43504; 43600;
   44016; 65296; 66720; 68912; 69734; 69872; 69942; 70096; 70384; 70736;
   70864; 71248; 71360; 71472; 71904; 72016; 72784; 73040; 73120; 92768;
   92864; 93008; 120782; 120792; 120802; 120812; 120822; 123200; 123632;
   125264; 130032]%N.

(** [\d] of a [str] pattern: any Unicode decimal digit. *)
Definition isdecimal (c : char) : bool :=
  existsb (fun lo => in_range lo (lo + 9)%N c) decimal_runs.

(** The line boundaries of [str.splitlines]. *)
Definition is_linebreak (c : char) : bool :=
  (in_range 10 13 c || in_range 28 30 c || N.eqb c 133
   || in_range 8232 8233 c)%N%bool.

(** [s.splitlines()]: [skip_lf] is set just after a carriage return, whose
    following line feed belongs to the same boundary. *)
Fixpoint lines_from (skip_lf : bool) (s : str) : list str :=
  match s with
  | [] => []
  | c :: s' =>
      if (skip_lf && N.eqb c 10%N)%bool then lines_from false s'
      else if is_linebreak c then [] :: lines_from (N.eqb c 13%N) s'
      else match lines_from false s' with
           | l :: ls => (c :: l) :: ls
           | [] => [[c]]
           end
  end.

Definition splitlines (s : str) : list str := lines_from false s.

Fixpoint lstrip_by (p : char -> bool) (s : str) : str :=
  match s with
  | c :: s' => if p c then lstrip_by p s' else s
  | [] => []
  end.

Definition rstrip_by (p : char -> bool) (s : str) : str :=
  rev (lstrip_by p (rev s)).

Definition strip_by (p : char -> bool) (s : str) : str :=
  rstrip_by p (lstrip_by p s).

(** [s.strip()], [s.strip(chars)] and [s.rstrip(chars)]. *)
Definition strip (s : str) : str := strip_by isspace s.
Definition strip_chars (cs : str) (s : str) : str :=
  strip_by (fun c => char_in c cs) s.
Definition rstrip_chars (cs : str) (s : str) : str :=
  rstrip_by (fun c => char_in c cs) s.

(** [sep.join(parts)]. *)
Fixpoint join (sep : str) (parts : list str) : str :=
  match parts with
  | [] => []
  | [p] => p
  | p :: ps => p ++ sep ++ join sep ps
  end.

Definition ascii_lower (c : char) : char :=
  if in_range 65%N 90%N c then (c + 32)%N else c.

(** [s.lower()] on the ASCII range.  The program compares the result with
    the literal ['date'] only, and no code point outside ASCII lowercases
    to one of its letters, so the other code points are left as they
    are. *)
Definition lower (s : str) : str := map ascii_lower s.

(** [needle in s] for strings. *)
Fixpoint starts_with (needle s : str) : bool :=
  match needle, s with
  | [], _ => true
  | x :: n', y :: s' => N.eqb x y && starts_with n' s'
  | _ :: _, [] => false
  end.

Fixpoint contains (needle s : str) : bool :=
  starts_with needle s
  || match s with
     | [] => false
     | _ :: s' => contains needle s'
     end.

(** [lines[a:b]] *)
Definition slice {A} (l : list A) (a b : nat) : list A :=
  firstn (b - a) (skipn a l).

(** A [dict] with string keys: Python keeps the keys in insertion order,
    and assigning to a key that is there keeps its place. *)
Definition dict (V : Type) := list (str * V).

Fixpoint dict_get {V} (d : dict V) (k : str) : option V :=
  match d with
  | [] => None
  | (k', v) :: d' => if str_eqb k' k then Some v else dict_get d' k
  end.

Fixpoint dict_set {V} (d : dict V) (k : str) (v : V) : dict V :=
  match d with
  | [] => [(k, v)]
  | (k', v') :: d' =>
      if str_eqb k' k then (k', v) :: d' else (k', v') :: dict_set d' k v
  end.

Definition dict_has {V} (d : dict V) (k : str) : bool :=
  match dict_get d k with Some _ => true | None => false end.

Definition dict_get_default {V} (d : dict V) (k : str) (dflt : V) : V :=
  match dict_get d k with Some v => v | None => dflt end.

End Py.
Export Py.

(** ** Regular expressions *)

Module Re.

(** The syntax covers what the patterns of the program use: every
    repetition in them is over a single character or character set. *)
Inductive regex : Type :=
| Eps
| Chr (p : char -> bool)
| Bol (multiline : bool)
| Eol (multiline : bool)
| Seq (r1 r2 : regex)
| Alt (r1 r2 : regex)
| Rep (greedy : bool) (lo : nat) (more : option nat) (p : char -> bool)
| Group (i : nat) (r : regex).

(** The matcher's position: the character just before it, if any, and the
    text from it on. *)
Record cursor := Cursor { prev : option char; rest : str }.

Definition groups := list (nat * str).

Fixpoint group_get (g : groups) (i : nat) : option str :=
  match g with
  | [] => None
  | (j, s) :: g' => if Nat.eqb j i then Some s else group_get g' i
  end.

Definition result := (cursor * groups)%type.
Definition cont := cursor -> groups -> option result.

Definition at_bol (multiline : bool) (c : cursor) : bool :=
  match prev c with
  | None => true
  | Some x => multiline && N.eqb x NL
  end.

(** [$]: the end of the text or just before its last newline; with
    MULTILINE before every newline. *)
Definition at_eol (multiline : bool) (c : cursor) : bool :=
  match rest c with
  | [] => true
  | x :: s' => N.eqb x NL && (multiline || match s' with [] => true | _ => false end)
  end.

Definition may_take (more : option nat) : bool :=
  match more with Some 0 => false | _ => true end.

Definition one_less (more : option nat) : option nat :=
  match more with Some n => Some (Nat.pred n) | None => None end.

(** The text between two cursors of one match. *)
Definition consumed (from to : cursor) : str :=
  firstn (length (rest from) - length (rest to)) (rest from).

(** [p{lo,lo+more}], greedy or lazy.  A greedy repetition first takes
    one more character and falls back to the continuation; a lazy one
    tries the continuation first. *)
Fixpoint m_rep (greedy : bool) (p : char -> bool) (lo : nat)
    (more : option nat) (k : cont) (g : groups) (pv : option char)
    (s : str) {struct s} : option result :=
  match lo with
  | S lo' =>
      match s with
      | c :: s' => if p c then m_rep greedy p lo' more k g (Some c) s' else None
      | [] => None
      end
  | O =>
      match s with
      | c :: s' =>
          if (p c && may_take more)%bool then
            if greedy then
              match m_rep greedy p 0 (one_less more) k g (Some c) s' with
              | Some r => Some r
              | None => k (Cursor pv s) g
              end
            else
              match k (Cursor pv s) g with
              | Some r => Some r
              | None => m_rep greedy p 0 (one_less more) k g (Some c) s'
              end
          else k (Cursor pv s) g
      | [] => k (Cursor pv s) g
      end
  end.

(** The backtracking matcher, in continuation-passing style: [k] is the
    rest of the pattern. *)
Fixpoint m (r : regex) (k : cont) (g : groups) (c : cursor) : option result :=
  match r with
  | Eps => k c g
  | Chr p =>
      match rest c with
      | x :: s' => if p x then k (Cursor (Some x) s') g else None
      | [] => None
      end
  | Bol ml => if at_bol ml c then k c g else None
  | Eol ml => if at_eol ml c then k c g else None
  | Seq r1 r2 => m r1 (fun c' g' => m r2 k g' c') g c
  | Alt r1 r2 =>
      match m r1 k g c with
      | Some x => Some x
      | None => m r2 k g c
      end
  | Rep greedy lo more p => m_rep greedy p lo more k g (prev c) (rest c)
  | Group i r1 => m r1 (fun c' g' => k c' ((i, consumed c c') :: g')) g c
  end.

(** A match object: the matched text, the groups, and where it ends. *)
Record rmatch := Match { m_text : str; m_groups : groups; m_end : cursor }.

Definition group (mt : rmatch) (i : nat) : str :=
  match group_get (m_groups mt) i with Some s => s | None => [] end.

(** The continuation at the end of the pattern. *)
Definition final : cont := fun c' g' => Some (c', g').

Definition m_at (r : regex) (c : cursor) : option rmatch :=
  match m r final [] c with
  | Some (c', g') => Some (Match (consumed c c') g' c')
  | None => None
  end.

(** [re.match(r, s)] *)
Definition re_match (r : regex) (s : str) : option rmatch :=
  m_at r (Cursor None s).

(** [re.search]: the leftmost position that matches. *)
Fixpoint search_from (r : regex) (pv : option char) (s : str) : option rmatch :=
  match m_at r (Cursor pv s) with
  | Some mt => Some mt
  | None =>
      match s with
      | c :: s' => search_from r (Some c) s'
      | [] => None
      end
  end.

Definition re_search (r : regex) (s : str) : option rmatch :=
  search_from r None s.

(** The scanner behind [re.sub], [re.split] and [re.finditer]: the
    successive non-overlapping matches, each with the text between it and
    the match before, and the text after the last one.  [skip] counts the
    characters of the current match still to pass. *)
Definition scanned := (list (str * rmatch) * str)%type.

Definition push (c : char) (sc : scanned) : scanned :=
  match sc with
  | ((gap, mt) :: ms, tl) => ((c :: gap, mt) :: ms, tl)
  | ([], tl) => ([], c :: tl)
  end.

Definition found (mt : rmatch) (sc : scanned) : scanned :=
  (([], mt) :: fst sc, snd sc).

Fixpoint scan_from (r : regex) (pv : option char) (s : str) (skip : nat)
    {struct s} : scanned :=
  match skip with
  | S n =>
      match s with
      | c :: s' => scan_from r (Some c) s' n
      | [] => ([], [])
      end
  | O =>
      match m_at r (Cursor pv s) with
      | Some mt =>
          match s with
          | c :: s' =>
              match length (m_text mt) with
              | S n => found mt (scan_from r (Some c) s' n)
              | O => found mt (push c (scan_from r (Some c) s' 0))
              end
          | [] => ([([], mt)], [])
          end
      | None =>
          match s with
          | c :: s' => push c (scan_from r (Some c) s' 0)
          | [] => ([], [])
          end
      end
  end.

Definition scan (r : regex) (s : str) : scanned := scan_from r None s 0.

(** A replacement template: literal text and group references. *)
Inductive piece := Text (s : str) | Ref (i : nat).

Definition expand (repl : list piece) (mt : rmatch) : str :=
  concat (map (fun p => match p with Text s => s | Ref i => group mt i end) repl).

(** The text [re.sub] builds from what the scanner found. *)
Definition render (repl : list piece) (sc : scanned) : str :=
  concat (map (fun gm => fst gm ++ expand repl (snd gm)) (fst sc)) ++ snd sc.

Definition sub_from (r : regex) (repl : list piece) (pv : option char)
    (s : str) : str :=
  render repl (scan_from r pv s 0).

(** [re.sub(r, repl, s)].  No pattern of the program matches the empty
    string, so that every match is followed by the text after it. *)
Definition re_sub (r : regex) (repl : list piece) (s : str) : str :=
  sub_from r repl None s.

(** [re.split(r, s)] for a pattern without groups. *)
Definition re_split (r : regex) (s : str) : list str :=
  let sc := scan r s in
  map fst (fst sc) ++ [snd sc].

(** [re.finditer(r, s)] *)
Definition re_finditer (r : regex) (s : str) : list rmatch :=
  map snd (fst (scan r s)).

(** *** Building patterns *)

Definition lit (c : char) : regex := Chr (N.eqb c).

(** IGNORECASE for a literal: the code points that fold to the same
    letter.  Besides the two cases of an ASCII letter these are the
    dotted and dotless I for [i], the long s for [s] and the Kelvin sign
    for [k]. *)
Definition fold_case (c : char) : char :=
  if (N.eqb c 304%N || N.eqb c 305%N)%bool then ch "i"
  else if N.eqb c 383%N then ch "s"
  else if N.eqb c 8490%N then ch "k"
  else ascii_lower c.

Definition lit_i (c : char) : regex :=
  Chr (fun x => N.eqb (fold_case x) (fold_case c)).

Fixpoint cat (rs : list regex) : regex :=
  match rs with
  | [] => Eps
  | [r] => r
  | r :: rs' => Seq r (cat rs')
  end.

(** A literal text, as [re.escape] makes it. *)
Definition lits (s : str) : regex := cat (map lit s).
Definition lits_i (s : str) : regex := cat (map lit_i s).

Definition star (p : char -> bool) : regex := Rep true 0 None p.
Definition plus (p : char -> bool) : regex := Rep true 1 None p.
Definition lazy_star (p : char -> bool) : regex := Rep false 0 None p.
Definition times (lo hi : nat) (p : char -> bool) : regex :=
  Rep true lo (Some (hi - lo)) p.

Definition any_char : char -> bool := fun _ => true.
Definition dot : char -> bool := fun c => negb (N.eqb c NL).
Definition none_of (cs : str) : char -> bool := fun c => negb (char_in c cs).
Definition one_of (cs : str) : char -> bool := fun c => char_in c cs.
Definition only (c : char) : char -> bool := N.eqb c.

End Re.
Export Re.

#[global] Typeclasses Transparent char str.

(** ** The program *)

Notation "# c" := (ch c%char) (at level 1, format "# c").

(** *** Helpers for Obsidian parsing *)

(** [\[\[([^\]|]+)\|([^\]]+)\]\]] and [\[\[([^\]]+)\]\]] *)
Definition wiki_piped_re : regex :=
  cat [lits (py "[["); Group 1 (plus (none_of (py "]|"))); lit #"|";
       Group 2 (plus (none_of (py "]"))); lits (py "]]")].

Definition wiki_plain_re : regex :=
  cat [lits (py "[["); Group 1 (plus (none_of (py "]"))); lits (py "]]")].

Definition clean_wiki_links (s : str) : str :=
  let s := re_sub wiki_piped_re [Ref 2] s in
  let s := re_sub wiki_plain_re [Ref 1] s in
  strip s.

(** [^---\s*\n(.*?)\n---\s*] with DOTALL and MULTILINE *)
Definition frontmatter_re : regex :=
  cat [Bol true; lits (py "---"); star isspace; lit NL;
       Group 1 (lazy_star any_char); lit NL; lits (py "---"); star isspace].

(** [^\s*([^:\n]+)\s*:\s*(.*?)\s*$] with MULTILINE *)
Definition keyvalue_re : regex :=
  cat [Bol true; star isspace; Group 1 (plus (none_of [ch ":"; NL]));
       star isspace; lit #":"; star isspace; Group 2 (lazy_star dot);
       star isspace; Eol true].

(** [(\d{4}-\d{2}-\d{2})] *)
Definition date_re : regex :=
  Group 1 (cat [times 4 4 isdecimal; lit #"-"; times 2 2 isdecimal;
                lit #"-"; times 2 2 isdecimal]).

Definition DQUOTE : char := 34%N.

(** The body of the loop over the [key: value] lines of the block. *)
Definition frontmatter_entry (metadata : dict str) (mt : rmatch) : dict str :=
  let key := strip (group mt 1) in
  let value := strip_chars (py "'") (strip_chars [DQUOTE] (strip (group mt 2))) in
  match value with
  | [] => metadata
  | _ :: _ =>
      let value :=
        if str_eqb (lower key) (py "date") then
          match re_search date_re value with
          | Some dm => group dm 1
          | None => value
          end
        else value in
      dict_set metadata key value
  end.

Definition parse_obsidian_frontmatter (content : str) : dict str :=
  match re_search frontmatter_re content with
  | None => []
  | Some fm =>
      let body := group fm 1 in
      fold_left frontmatter_entry (re_finditer keyvalue_re body) []
  end.

(** The indices of the lines that are [---] once stripped. *)
Fixpoint markers_from (i : nat) (lines : list str) : list nat :=
  match lines with
  | [] => []
  | line :: ls =>
      if str_eqb (strip line) (py "---") then i :: markers_from (S i) ls
      else markers_from (S i) ls
  end.

Definition markers (lines : list str) : list nat := markers_from 0 lines.

(** [\*\*MVP:\*\*\s*$] with MULTILINE *)
Definition mvp_re : regex :=
  cat [lits (py "**MVP:**"); star isspace; Eol true].

(** The lines of the review: [None] with fewer than three markers, where
    the function returns early. *)
Definition review_region (lines : list str) : option (list str) :=
  let mk := markers lines in
  if length mk <? 3 then None
  else
    let start_line := nth 2 mk 0 + 1 in
    Some (if 4 <=? length mk then slice lines start_line (nth 3 mk 0)
          else skipn start_line lines).

Definition extract_review_section (content : str) : str :=
  match review_region (splitlines content) with
  | None => []
  | Some review_lines =>
      let review_content := strip (join [NL] review_lines) in
      strip (re_sub mvp_re [] review_content)
  end.

(** [\*{2,3}([^*:]+)\s*:\*{2,3}\s*(.+)]; the IGNORECASE flag of the call
    changes nothing, the pattern having no letter. *)
Definition header_re : regex :=
  cat [times 2 3 (only #"*"); Group 1 (plus (none_of (py "*:")));
       star isspace; lit #":"; times 2 3 (only #"*"); star isspace;
       Group 2 (plus dot)].

(** The line range [range(frontmatter_end + 1, setlist_end)] of the
    setlist, when there are two markers at least. *)
Definition setlist_range (lines : list str) : option (nat * nat) :=
  let mk := markers lines in
  if length mk <? 2 then None
  else
    let frontmatter_end := nth 1 mk 0 in
    let setlist_end := if 3 <=? length mk then nth 2 mk 0 else length lines in
    Some (frontmatter_end + 1, setlist_end).

(** The body of the loop over the lines of the setlist. *)
Definition setlist_line (sets : dict str) (raw : str) : dict str :=
  match strip raw with
  | [] => sets
  | line =>
      match re_match header_re line with
      | Some mt =>
          let label := strip (group mt 1) in
          let content_text := clean_wiki_links (group mt 2) in
          dict_set sets label content_text
      | None => sets
      end
  end.

(** The lines the loop visits: [lines[idx]] for [idx] in
    [range(frontmatter_end + 1, setlist_end)]. *)
Definition setlist_region (lines : list str) : list str :=
  match setlist_range lines with
  | None => []
  | Some (first, setlist_end) =>
      map (fun idx => nth idx lines []) (seq first (setlist_end - first))
  end.

Definition parse_obsidian_setlist (content : str) : dict str :=
  fold_left setlist_line (setlist_region (splitlines content)) [].

(** *** The song tokenizer *)

Definition SONGS_WITH_COMMAS : list str :=
  [py "April 29, 1992 (Miami)";
   py "Smooth, Relax, Down";
   py "To Be Young (Is To Be Sad, Is To Be High)"].

Definition placeholder (idx : nat) : str :=
  py "___PROTECTED_SONG_" ++ py (NilEmpty.string_of_uint (Nat.to_uint idx))
  ++ py "___".

Definition digit_or_colon (c : char) : bool := isdecimal c || N.eqb c #":".

(** [\s*\(\d+[\d:]*\)] and [\s*\[\s*\d+[\d:]*\s*\]] *)
Definition paren_time_re : regex :=
  cat [star isspace; lit #"("; plus isdecimal; star digit_or_colon; lit #")"].

Definition bracket_time_re : regex :=
  cat [star isspace; lit #"["; star isspace; plus isdecimal;
       star digit_or_colon; star isspace; lit #"]"].

(** The three patterns tried for a protected title, under IGNORECASE. *)
Definition song_patterns (song : str) : list regex :=
  [Seq (lits_i song) paren_time_re;
   Seq (lits_i song) bracket_time_re;
   lits_i song].

(** The first pattern that [re.search] finds in the text. *)
Fixpoint first_found (patterns : list regex) (text : str) : option regex :=
  match patterns with
  | [] => None
  | pattern :: ps =>
      match re_search pattern text with
      | Some _ => Some pattern
      | None => first_found ps text
      end
  end.

(** One turn of the loop over [enumerate(SONGS_WITH_COMMAS)]; the state is
    [protected_content] and [replacements]. *)
Definition protect_song (st : str * dict str) (entry : nat * str)
    : str * dict str :=
  let ph := placeholder (fst entry) in
  match first_found (song_patterns (snd entry)) (fst st) with
  | Some pattern =>
      (re_sub pattern [Text ph] (fst st), dict_set (snd st) ph (snd entry))
  | None => st
  end.

Definition enumerate {A} (l : list A) : list (nat * A) :=
  combine (seq 0 (length l)) l.

Definition protect (set_content : str) : str * dict str :=
  fold_left protect_song (enumerate SONGS_WITH_COMMAS) (set_content, []).

(** [(?:->|>|→|–|—)] *)
Definition arrow_re : regex :=
  Alt (lits (py "->"))
      (Alt (lit #">") (Alt (lit 8594%N) (Alt (lit 8211%N) (lit 8212%N)))).

(** [\s*(?:,|;|\|)\s*] *)
Definition separator_re : regex :=
  cat [star isspace; Alt (lit #",") (Alt (lit #";") (lit #"|")); star isspace].

(** [\s+\d+$] and [\s+] *)
Definition count_re : regex := cat [plus isspace; plus isdecimal; Eol false].
Definition spaces_re : regex := plus isspace.

(** The fragments of the split step, stripped, the blank ones dropped. *)
Definition split_parts (content : str) : list str :=
  flat_map (fun s => match strip s with [] => [] | t => [t] end)
           (re_split separator_re content).

(** The cleanup of a fragment that is no placeholder. *)
Definition clean_song (part : str) : str :=
  let song_name := re_sub paren_time_re [] part in
  let song_name := re_sub bracket_time_re [] song_name in
  let song_name := re_sub count_re [] song_name in
  re_sub spaces_re [Text (py " ")] (strip (rstrip_chars (py "-") song_name)).

(** The body of the loop over [parts]: the songs it appends. *)
Definition song_of_part (replacements : dict str) (part : str) : list str :=
  match dict_get replacements part with
  | Some song => [song]
  | None =>
      match clean_song part with
      | [] => []
      | song_name => [song_name]
      end
  end.

Definition parse_songs_from_setlist (set_content : str) : list str :=
  match strip set_content with
  | [] => []
  | _ :: _ =>
      let pr := protect set_content in
      let content := re_sub arrow_re [Text (py ",")] (fst pr) in
      let parts := split_parts content in
      flat_map (song_of_part (snd pr)) parts
  end.

(** *** The vault scan *)

(** A markdown file of the vault: [content] is [None] when reading it
    raises. *)
Record md_file := MdFile {
  stem : str;
  name : str;
  path : str;
  content : option str
}.

Record show_data := ShowData {
  date : str;
  venue : str;
  city : str;
  state : str;
  tour : str;
  show_number : str;
  rating : str;
  sets : dict str;
  notes : list str;
  source : str;
  obsidian_file : str;
  url : str
}.

(** [^\d{4}-\d{2}-\d{2}$] *)
Definition stem_re : regex :=
  cat [Bol false; times 4 4 isdecimal; lit #"-"; times 2 2 isdecimal;
       lit #"-"; times 2 2 isdecimal; Eol false].

(** The filter on the file name: the files it refuses are passed over. *)
Definition is_show_file (f : md_file) : bool :=
  negb (char_in #"_" (stem f))
  && match re_match stem_re (stem f) with Some _ => true | None => false end.

(** The date of a show: the [date] of the frontmatter when it is there and
    not blank, otherwise the date found in the file name. *)
Definition resolve_date (metadata : dict str) (f : md_file) : option str :=
  let from_stem :=
    match re_search date_re (stem f) with
    | Some fn_match => Some (group fn_match 1)
    | None => None
    end in
  match dict_get metadata (py "date") with
  | Some d =>
      match strip d with
      | [] => from_stem
      | d' => Some d'
      end
  | None => from_stem
  end.

(** What the body of the loop does with one file: the date and the record
    it stores, or [None] where it runs into one of its [continue]s. *)
Definition show_of_file (f : md_file) : option (str * show_data) :=
  if negb (is_show_file f) then None
  else
    match content f with
    | None => None
    | Some text =>
        let metadata := parse_obsidian_frontmatter text in
        match resolve_date metadata f with
        | None | Some [] => None
        | Some day =>
            match parse_obsidian_setlist text with
            | [] => None
            | setlist =>
                let review := extract_review_section text in
                Some (day,
                  {| date := day;
                     venue := dict_get_default metadata (py "venue") (py "Unknown Venue");
                     city := dict_get_default metadata (py "city") [];
                     state := dict_get_default metadata (py "state") [];
                     tour := dict_get_default metadata (py "tour") [];
                     show_number := dict_get_default metadata (py "show_number") [];
                     rating := dict_get_default metadata (py "rating") [];
                     sets := setlist;
                     notes := match review with [] => [] | _ => [review] end;
                     source := py "obsidian";
                     obsidian_file := path f;
                     url := [] |})
            end
        end
    end.

(** The loop of [scan_obsidian_vault] over the files found. *)
Definition scan_obsidian_vault (md_files : list md_file) : dict show_data :=
  fold_left
    (fun obsidian_shows f =>
       match show_of_file f with
       | Some (day, show) => dict_set obsidian_shows day show
       | None => obsidian_shows
       end)
    md_files [].

(** *** The song database *)

Record appearance := Appearance {
  a_date : str;
  a_url : str;
  a_set : str
}.

(** [song_db[song].append(entry)], the list being made first when the song
    is new. *)
Definition add_appearance (song_db : gmap str (list appearance))
    (song : str) (entry : appearance) : gmap str (list appearance) :=
  <[song := default [] (song_db !! song) ++ [entry]]> song_db.

Definition add_set (show : show_data) (song_db : gmap str (list appearance))
    (item : str * str) : gmap str (list appearance) :=
  fold_left
    (fun db song =>
       add_appearance db song
         {| a_date := date show; a_url := url show; a_set := fst item |})
    (parse_songs_from_setlist (snd item)) song_db.

Definition add_show (song_db : gmap str (list appearance))
    (show : show_data) : gmap str (list appearance) :=
  fold_left (add_set show) (sets show) song_db.

Definition build_song_database (shows_db : dict show_data)
    : gmap str (list appearance) :=
  fold_left add_show (map snd shows_db) ∅.

#[global] Arguments isspace : simpl never.
#[global] Arguments consumed : simpl never.
#[global] Arguments N.eqb : simpl never.
#[global] Arguments ch : simpl never.
#[global] Arguments N_of_ascii : simpl never.
#[global] Arguments isdecimal : simpl never.

(** *** Main *)

(** The loop of [main] that stores the shows of the vault in the database
    it has loaded: [shows_db[date] = show_data] for every item of
    [obsidian_shows]. *)
Definition update_shows (shows_db obsidian_shows : dict show_data)
    : dict show_data :=
  fold_left (fun db item => dict_set db (fst item) (snd item))
            obsidian_shows shows_db.

(** What [main] saves: the show database, made of the database it loaded
    and the files of the vault, and the song database built from it. *)
Definition main_databases (loaded : dict show_data) (md_files : list md_file)
    : dict show_data * gmap str (list appearance) :=
  let shows_db := update_shows loaded (scan_obsidian_vault md_files) in
  (shows_db, build_song_database shows_db).

(** ** Notions used in the statements *)

(** The character before the cursor once [l] has been passed. *)
Fixpoint passed (pv : option char) (l : str) : option char :=
  match l with
  | [] => pv
  | c :: l' => passed (Some c) l'
  end.

(** Whether a pattern sets group [i]. *)
Fixpoint sets_group (i : nat) (r : regex) : bool :=
  match r with
  | Seq r1 r2 | Alt r1 r2 => sets_group i r1 || sets_group i r2
  | Group j r1 => Nat.eqb j i || sets_group i r1
  | _ => false
  end.

(** The first character of the text at the cursor fails [p], if any. *)
Definition stops (p : char -> bool) (s : str) : Prop :=
  match s with
  | [] => True
  | c :: _ => p c = false
  end.

(** What replacing every run of whitespace by one space gives; [in_run]
    is set inside a run. *)
Fixpoint collapse (in_run : bool) (s : str) : str :=
  match s with
  | [] => []
  | c :: s' =>
      if isspace c then
        if in_run then collapse true s' else ch " " :: collapse true s'
      else c :: collapse false s'
  end.

(** A text of the form [YYYY-MM-DD]. *)
Definition date_shaped (d : str) : bool :=
  match d with
  | [y1; y2; y3; y4; h1; m1; m2; h2; d1; d2] =>
      isdecimal y1 && isdecimal y2 && isdecimal y3 && isdecimal y4
      && N.eqb (ch "-") h1 && isdecimal m1 && isdecimal m2
      && N.eqb (ch "-") h2 && isdecimal d1 && isdecimal d2
  | _ => false
  end.

(** A character of a plain word: no whitespace, no digit, none of [(],
    [\[] and [-]. *)
Definition plain (c : char) : bool :=
  negb (isspace c) && negb (isdecimal c) && none_of (py "([-") c.

(** The characters the tokenizer takes for arrows, and the ones it splits
    at. *)
Definition arrow_char (c : char) : bool :=
  N.eqb c (ch ">") || N.eqb c 8594%N || N.eqb c 8211%N || N.eqb c 8212%N.

Definition delimiter_char (c : char) : bool := char_in c (py ",;|").

Definition separator_char (c : char) : bool :=
  arrow_char c || delimiter_char c.

(** What holds of every entry of the frontmatter: a value that is not
    empty and has no newline, a key without colon and newline and with no
    whitespace at its ends, and under a key that is [date] in lower case,
    a value that is a date or holds none. *)
Definition frontmatter_entry_ok (k v : str) : Prop :=
  v <> []
  /\ List.Forall (fun c => dot c = true) v
  /\ List.Forall (fun c => none_of [ch ":"; NL] c = true) k
  /\ stops isspace k /\ stops isspace (rev k)
  /\ (lower k = py "date" ->
      date_shaped v = true \/ re_search date_re v = None).

(** A character of a song name as it is written between separators: no
    digit, no separator, and no whitespace but the space. *)
Definition name_char (c : char) : bool :=
  negb (isdecimal c) && negb (separator_char c)
  && (negb (isspace c) || N.eqb c (ch " ")).

Definition ends_with_hyphen (s : str) : bool :=
  match rev s with
  | c :: _ => N.eqb c (ch "-")
  | [] => false
  end.

(** The eight marks that separate two songs: the three delimiters and
    the five arrows. *)
Definition separator_marks : list str :=
  [py ","; py ";"; py "|"; py ">"; py "->"; [8594%N]; [8211%N]; [8212%N]].

(** A separator as it is written: a mark, with any whitespace before and
    after it. *)
Definition is_separator (sep : str) : Prop :=
  exists lead mark trail,
    sep = lead ++ mark ++ trail
    /\ List.Forall (fun c => isspace c = true) lead
    /\ In mark separator_marks
    /\ List.Forall (fun c => isspace c = true) trail.

(** The pieces [re.split] gives from a position on, and a text put
    before the first of them. *)
Definition split_from (r : regex) (pv : option char) (s : str) : list str :=
  map fst (fst (scan_from r pv s 0)) ++ [snd (scan_from r pv s 0)].

Definition prepend (a : str) (pieces : list str) : list str :=
  match pieces with
  | p :: ps => (a ++ p) :: ps
  | [] => [a]
  end.

(** No two whitespace characters in a row. *)
Fixpoint single_spaced (s : str) : bool :=
  match s with
  | c1 :: s' =>
      match s' with
      | c2 :: _ => negb (isspace c1 && isspace c2) && single_spaced s'
      | [] => true
      end
  | [] => true
  end.

Definition starts_clean (s : str) : bool :=
  match s with
  | c :: _ => negb (isspace c)
  | [] => false
  end.

(** A song name as the tokenizer should give it: not empty, no whitespace
    at either end, no two whitespace characters in a row. *)
Definition tidy (s : str) : bool :=
  starts_clean s && starts_clean (rev s) && single_spaced s.

(** A set as it is written: a first name, then each further name after a
    separator. *)
Definition written (first : str) (more : list (str * str)) : str :=
  first ++ concat (map (fun p => fst p ++ snd p) more).

(** A song name as it is written in a setlist: tidy, made of name
    characters, not ending in a hyphen. *)
Definition song_name (s : str) : bool :=
  tidy s && forallb name_char s && negb (ends_with_hyphen s).

Definition str_eq_dec : forall a b : str, {a = b} + {a <> b} :=
  List.list_eq_dec N.eq_dec.

(** The appearances a show adds for a song: one per time the tokenizer
    emits it, set by set. *)
Definition show_appearances (show : show_data) (song : str) : list appearance :=
  flat_map
    (fun item =>
       repeat {| a_date := date show; a_url := url show; a_set := fst item |}
              (count_occ str_eq_dec (parse_songs_from_setlist (snd item)) song))
    (sets show).

(** The value of a match of the [key: value] pattern as the parser takes
    it: stripped and without the quotes around it. *)
Definition line_value (mt : rmatch) : str :=
  strip_chars (py "'") (strip_chars [DQUOTE] (strip (group mt 2))).

(** *** The cleanup of a fragment, said without patterns *)

(** What follows says in plain terms what is removed from a fragment: a
    time in parentheses, a time in brackets, a bare integer at the end.
    No pattern and no matcher is used; [cleaned] is compared with
    [clean_song], which is the code, in the last part of the file. *)

(** The longest run of characters of a class at the head of a text
    ([lstrip_by] gives what follows it). *)
Fixpoint run (p : char -> bool) (s : str) : str :=
  match s with
  | c :: s' => if p c then c :: run p s' else []
  | [] => []
  end.

(** The length of the time in parentheses a text starts with, if it
    starts with one: any whitespace, [(], a digit, then digits and colons,
    and [)]. *)
Definition paren_time_at (s : str) : option nat :=
  match lstrip_by isspace s with
  | c :: s1 =>
      if N.eqb c (ch "(") then
        match run digit_or_colon s1, lstrip_by digit_or_colon s1 with
        | d0 :: d, c' :: _ =>
            if isdecimal d0 && N.eqb c' (ch ")")
            then Some (length (run isspace s) + 1 + length (d0 :: d) + 1)
            else None
        | _, _ => None
        end
      else None
  | [] => None
  end.

(** The same in brackets, where whitespace may stand on either side of
    the time. *)
Definition bracket_time_at (s : str) : option nat :=
  match lstrip_by isspace s with
  | c :: s1 =>
      if N.eqb c (ch "[") then
        let s2 := lstrip_by isspace s1 in
        let s3 := lstrip_by digit_or_colon s2 in
        match run digit_or_colon s2, lstrip_by isspace s3 with
        | d0 :: d, c' :: _ =>
            if isdecimal d0 && N.eqb c' (ch "]")
            then Some (length (run isspace s) + 1 + length (run isspace s1)
                       + length (d0 :: d) + length (run isspace s3) + 1)
            else None
        | _, _ => None
        end
      else None
  | [] => None
  end.

(** The length of the bare integer a text consists of, with the
    whitespace before it: some whitespace, some digits, and then the end
    of the text or its last newline. *)
Definition count_at (s : str) : option nat :=
  let s1 := lstrip_by isspace s in
  match run isspace s, run isdecimal s1, lstrip_by isdecimal s1 with
  | _ :: _, _ :: _, [] =>
      Some (length (run isspace s) + length (run isdecimal s1))
  | _ :: _, _ :: _, [c] =>
      if N.eqb c NL
      then Some (length (run isspace s) + length (run isdecimal s1))
      else None
  | _, _, _ => None
  end.

(** One pass over a text from left to right: where an annotation starts
    ([at_head] gives its length) its characters are left out and the pass
    goes on behind it; every other character is kept.  [skip] counts the
    characters of the current annotation still to leave out. *)
Fixpoint drop_from (at_head : str -> option nat) (skip : nat) (s : str) : str :=
  match s with
  | [] => []
  | c :: s' =>
      match skip with
      | S n => drop_from at_head n s'
      | O =>
          match at_head s with
          | Some (S n) => drop_from at_head n s'
          | _ => c :: drop_from at_head 0 s'
          end
      end
  end.

Definition drop_all (at_head : str -> option nat) (s : str) : str :=
  drop_from at_head 0 s.

(** What the cleanup makes of a fragment: the times in parentheses go,
    wherever they stand, then the times in brackets, then a bare integer
    at the end; then the hyphens at the end and the whitespace at both
    ends, and every run of whitespace becomes one space. *)
Definition cleaned (part : str) : str :=
  let s := drop_all paren_time_at part in
  let s := drop_all bracket_time_at s in
  let s := drop_all count_at s in
  collapse false (strip (rstrip_chars (py "-") s)).

(** A title: plain words with single spaces between them. *)
Definition title_char (c : char) : bool := plain c || N.eqb c (ch " ").

Definition title_text (s : str) : bool := tidy s && forallb title_char s.

(** * Properties *)

(** ** Strings and dictionaries *)

Lemma str_eqb_eq (a b : str) : str_eqb a b = true <-> a = b.
Proof.
  revert b; induction a as [|x a IH]; intros [|y b]; simpl; try easy.
  rewrite andb_true_iff, N.eqb_eq, IH.
  split; [intros [-> ->]; reflexivity | intros [= -> ->]; auto].
Qed.

Lemma str_eqb_refl (a : str) : str_eqb a a = true.
Proof. apply str_eqb_eq; reflexivity. Qed.

Lemma dict_has_set {V} (d : dict V) (k : str) (v : V) :
  dict_has (dict_set d k v) k = true.
Proof.
  unfold dict_has; induction d as [|[k' v'] d IH]; simpl.
  - rewrite str_eqb_refl; reflexivity.
  - destruct (str_eqb k' k) eqn:E; simpl; rewrite E; auto.
Qed.

Lemma dict_has_keep {V} (d : dict V) (k k0 : str) (v : V) :
  dict_has d k0 = true -> dict_has (dict_set d k v) k0 = true.
Proof.
  unfold dict_has; induction d as [|[k' v'] d IH]; simpl; [easy|].
  destruct (str_eqb k' k) eqn:E; simpl; destruct (str_eqb k' k0); auto.
Qed.

(** ** The song database *)

Lemma add_appearance_lookup (db : gmap str (list appearance))
    (s song : str) (a : appearance) :
  default [] (add_appearance db s a !! song)
  = default [] (db !! song) ++ (if str_eq_dec s song then [a] else []).
Proof.
  unfold add_appearance.
  destruct (str_eq_dec s song) as [->|Hne].
  - rewrite lookup_insert_eq; reflexivity.
  - rewrite lookup_insert_ne by exact Hne. rewrite app_nil_r; reflexivity.
Qed.

Lemma add_songs_lookup (a : appearance) (song : str) (tokens : list str) :
  forall db : gmap str (list appearance),
    default [] (fold_left (fun db s => add_appearance db s a) tokens db !! song)
    = default [] (db !! song) ++ repeat a (count_occ str_eq_dec tokens song).
Proof.
  induction tokens as [|t ts IH]; intros db; simpl.
  - rewrite app_nil_r; reflexivity.
  - rewrite IH, add_appearance_lookup, <- app_assoc.
    destruct (str_eq_dec t song); reflexivity.
Qed.

Lemma add_sets_lookup (show : show_data) (song : str) (items : dict str) :
  forall db : gmap str (list appearance),
    default [] (fold_left (add_set show) items db !! song)
    = default [] (db !! song)
      ++ flat_map
           (fun item =>
              repeat {| a_date := date show; a_url := url show; a_set := fst item |}
                (count_occ str_eq_dec (parse_songs_from_setlist (snd item)) song))
           items.
Proof.
  induction items as [|item items IH]; intros db; simpl.
  - rewrite app_nil_r; reflexivity.
  - rewrite IH. unfold add_set. rewrite add_songs_lookup, <- app_assoc.
    reflexivity.
Qed.

(** C6: for a database of one show, the song index gives every song name
    exactly one appearance per time the tokenizer emits it in a set of the
    show, each with the show's date and url and the label of that set; so
    the number of appearances is the number of times the name is emitted
    across the sets. *)
Theorem song_index_of_one_show (key : str) (show : show_data) (song : str) :
  let appearances := default [] (build_song_database [(key, show)] !! song) in
  appearances = show_appearances show song
  /\ length appearances
     = list_sum (map (fun item =>
                        count_occ str_eq_dec
                          (parse_songs_from_setlist (snd item)) song)
                     (sets show))
  /\ Forall (fun a => a_date a = date show /\ a_url a = url show
                      /\ exists item, In item (sets show) /\ a_set a = fst item
                           /\ In song (parse_songs_from_setlist (snd item)))
            appearances.
Proof.
  cbv zeta. unfold build_song_database; simpl. unfold add_show.
  rewrite add_sets_lookup, lookup_empty; simpl.
  fold (show_appearances show song). unfold show_appearances.
  split; [reflexivity|]. split.
  - induction (sets show) as [|item items IH]; simpl; [reflexivity|].
    rewrite length_app, repeat_length, IH; reflexivity.
  - apply List.Forall_forall. intros a Ha.
    apply in_flat_map in Ha. destruct Ha as (item & Hitem & Ha).
    assert (Hpos : 0 < count_occ str_eq_dec
                         (parse_songs_from_setlist (snd item)) song).
    { destruct (count_occ str_eq_dec (parse_songs_from_setlist (snd item)) song);
        [destruct Ha | lia]. }
    apply repeat_spec in Ha. subst a; simpl.
    split; [reflexivity|]. split; [reflexivity|].
    exists item. split; [exact Hitem|]. split; [reflexivity|].
    apply (count_occ_In str_eq_dec). lia.
Qed.

(** ** The examples of the specification *)

(** C7: on ["Song A -> Song B, Song C (12:34)"] the tokenizer returns
    ["Song A"], ["Song B"], ["Song C"]: the arrow and the comma both
    separate songs and the time in parentheses at the end is dropped. *)
Theorem tokenizer_arrow_comma_time :
  parse_songs_from_setlist (py "Song A -> Song B, Song C (12:34)")
  = [py "Song A"; py "Song B"; py "Song C"].
Proof. vm_compute. reflexivity. Qed.

(** C8: the frontmatter of the document made of the lines [---],
    [date: 2023-05-01], [venue: The Hall], [---] and [body] is the mapping
    of [date] to [2023-05-01] and [venue] to [The Hall]. *)
Theorem frontmatter_date_venue :
  parse_obsidian_frontmatter
    (join [NL] [py "---"; py "date: 2023-05-01"; py "venue: The Hall";
                py "---"; py "body"])
  = [(py "date", py "2023-05-01"); (py "venue", py "The Hall")].
Proof. vm_compute. reflexivity. Qed.

(** C4: a protected title that shares its fragment with other text is not
    given back.  In ["April 29, 1992 (Miami) 2"] the title is there
    verbatim, yet the tokenizer returns the placeholder it put in its
    place, not the title. *)
Theorem protected_title_with_count_leaks_placeholder :
  let text := py "April 29, 1992 (Miami) 2" in
  contains (py "April 29, 1992 (Miami)") text = true
  /\ parse_songs_from_setlist text = [py "___PROTECTED_SONG_0___"]
  /\ ~ In (py "April 29, 1992 (Miami)") (parse_songs_from_setlist text).
Proof.
  cbv zeta. split; [vm_compute; reflexivity|].
  assert (E : parse_songs_from_setlist (py "April 29, 1992 (Miami) 2")
              = [py "___PROTECTED_SONG_0___"]) by (vm_compute; reflexivity).
  rewrite E. split; [reflexivity|].
  intros [H|[]]. vm_compute in H. discriminate H.
Qed.

(** ** The matcher *)

Lemma consumed_app (pv pv' : option char) (x s : str) :
  consumed (Cursor pv (x ++ s)) (Cursor pv' s) = x.
Proof.
  unfold consumed; simpl. rewrite length_app.
  replace (length x + length s - length s) with (length x) by lia.
  rewrite firstn_app, firstn_all.
  replace (length x - length x) with 0 by lia. simpl. apply app_nil_r.
Qed.

(** A greedy unbounded repetition that can pass the whole of [l] and then
    go on does so: it is the first thing the matcher tries. *)
Lemma m_rep_greedy_all (p : char -> bool) (l : str) :
  forall (lo : nat) (k : cont) (g : groups) (pv : option char) (s : str)
         (res : result),
    List.Forall (fun c => p c = true) l ->
    lo <= length l ->
    stops p s ->
    k (Cursor (passed pv l) s) g = Some res ->
    m_rep true p lo None k g pv (l ++ s) = Some res.
Proof.
  induction l as [|x l IH]; intros lo k g pv s res Hall Hlo Hstop Hk; simpl in *.
  - assert (lo = 0) by lia; subst lo.
    destruct s as [|c s']; simpl in *; [exact Hk|].
    rewrite Hstop; simpl. exact Hk.
  - inversion Hall as [|? ? Hx Hl]; subst.
    destruct lo as [|lo'].
    + rewrite Hx; simpl. erewrite IH; eauto. lia.
    + rewrite Hx. apply IH; auto. lia.
Qed.

(** A repetition that cannot start gives way to what follows. *)
Lemma m_rep_none_here (greedy : bool) (p : char -> bool) (more : option nat)
    (k : cont) (g : groups) (pv : option char) (s : str) :
  stops p s ->
  m_rep greedy p 0 more k g pv s = k (Cursor pv s) g.
Proof.
  destruct s as [|c s']; simpl; [reflexivity|].
  intros ->; reflexivity.
Qed.

Lemma m_rep_must_take (greedy : bool) (p : char -> bool) (lo : nat)
    (more : option nat) (k : cont) (g : groups) (pv : option char) (s : str) :
  stops p s ->
  m_rep greedy p (S lo) more k g pv s = None.
Proof.
  destruct s as [|c s']; simpl; [reflexivity|].
  intros ->; reflexivity.
Qed.

(** Whatever the matcher returns comes from its continuation, and a group
    the pattern does not set is as it was. *)
Lemma m_rep_from_cont (greedy : bool) (p : char -> bool) (k : cont)
    (g : groups) (res : result) (s : str) :
  forall (lo : nat) (more : option nat) (pv : option char),
    m_rep greedy p lo more k g pv s = Some res ->
    exists c', k c' g = Some res.
Proof.
  induction s as [|c s' IH]; intros lo more pv H; simpl in H.
  - destruct lo; [eauto | discriminate].
  - destruct lo as [|lo'].
    + destruct (p c && may_take more)%bool; [|eauto].
      destruct greedy.
      * destruct (m_rep true p 0 (one_less more) k g (Some c) s') eqn:E.
        -- injection H as <-. eapply IH; eauto.
        -- eauto.
      * destruct (k (Cursor pv (c :: s')) g) eqn:E.
        -- injection H as <-. eauto.
        -- eapply IH; eauto.
    + destruct (p c); [eapply IH; eauto | discriminate].
Qed.

Lemma m_from_cont (i : nat) (r : regex) :
  forall (k : cont) (g : groups) (c : cursor) (res : result),
    m r k g c = Some res ->
    exists c' g', k c' g' = Some res
                  /\ (sets_group i r = false -> group_get g' i = group_get g i).
Proof.
  induction r as [|p|ml|ml|r1 IH1 r2 IH2|r1 IH1 r2 IH2|greedy lo more p|j r1 IH1];
    intros k g c res H; simpl in H.
  - eauto.
  - destruct (rest c) as [|x s']; [discriminate|].
    destruct (p x); [eauto | discriminate].
  - destruct (at_bol ml c); [eauto | discriminate].
  - destruct (at_eol ml c); [eauto | discriminate].
  - apply IH1 in H. destruct H as (c1 & g1 & H & Hg1).
    apply IH2 in H. destruct H as (c2 & g2 & H & Hg2).
    exists c2, g2. split; [exact H|]. simpl. intros E.
    apply orb_false_iff in E. destruct E as [E1 E2].
    rewrite Hg2, Hg1; auto.
  - simpl. destruct (m r1 k g c) eqn:E.
    + injection H as <-. apply IH1 in E. destruct E as (c1 & g1 & E & Hg1).
      exists c1, g1. split; [exact E|]. intros F.
      apply orb_false_iff in F. destruct F as [F1 F2]. auto.
    + apply IH2 in H. destruct H as (c2 & g2 & H & Hg2).
      exists c2, g2. split; [exact H|]. intros F.
      apply orb_false_iff in F. destruct F as [F1 F2]. auto.
  - apply m_rep_from_cont in H. destruct H as (c' & H). eauto.
  - apply IH1 in H. destruct H as (c1 & g1 & H & Hg1).
    eexists _, _. split; [exact H|]. simpl. intros E.
    apply orb_false_iff in E. destruct E as [E1 E2].
    rewrite E1. auto.
Qed.

(** ** Substitution *)

Lemma render_push (repl : list piece) (c : char) (sc : scanned) :
  render repl (push c sc) = c :: render repl sc.
Proof. destruct sc as [[|[gap mt] ms] tl]; reflexivity. Qed.

Lemma render_found (repl : list piece) (mt : rmatch) (sc : scanned) :
  render repl (found mt sc) = expand repl mt ++ render repl sc.
Proof.
  destruct sc as [ms tl]; unfold render, found; simpl.
  rewrite <- app_assoc; reflexivity.
Qed.

Lemma scan_skip (r : regex) (x s : str) :
  forall pv, scan_from r pv (x ++ s) (length x) = scan_from r (passed pv x) s 0.
Proof.
  induction x as [|c x IH]; intros pv; simpl.
  - destruct s; reflexivity.
  - apply IH.
Qed.

(** Where the pattern does not match, the character is copied. *)
Lemma sub_step_none (r : regex) (repl : list piece) (pv : option char)
    (c : char) (s : str) :
  m_at r (Cursor pv (c :: s)) = None ->
  sub_from r repl pv (c :: s) = c :: sub_from r repl (Some c) s.
Proof.
  intros H. unfold sub_from; simpl. rewrite H. apply render_push.
Qed.

(** Where it matches a text that is not empty, the replacement is put in
    and the scan goes on after the match. *)
Lemma sub_step_match (r : regex) (repl : list piece) (pv : option char)
    (x s : str) (mt : rmatch) :
  m_at r (Cursor pv (x ++ s)) = Some mt ->
  m_text mt = x ->
  x <> [] ->
  sub_from r repl pv (x ++ s)
  = expand repl mt ++ sub_from r repl (passed pv x) s.
Proof.
  intros H Hx Hne. unfold sub_from.
  destruct x as [|c x]; [congruence|]. simpl.
  simpl in H. rewrite H, Hx. simpl.
  rewrite render_found, scan_skip. reflexivity.
Qed.

Lemma sub_end (r : regex) (repl : list piece) (pv : option char) :
  m_at r (Cursor pv []) = None ->
  sub_from r repl pv [] = [].
Proof. intros H. unfold sub_from; simpl. rewrite H. reflexivity. Qed.

(** ** Stripping *)

Lemma lstrip_by_stops (p : char -> bool) (s : str) : stops p (lstrip_by p s).
Proof.
  induction s as [|c s IH]; simpl; [exact I|].
  destruct (p c) eqn:E; [exact IH | exact E].
Qed.

Lemma lstrip_by_snoc (p : char -> bool) (l : str) (c : char) :
  lstrip_by p (l ++ [c])
  = match lstrip_by p l with
    | [] => if p c then [] else [c]
    | x => x ++ [c]
    end.
Proof.
  induction l as [|a l IH]; simpl.
  - destruct (p c); reflexivity.
  - destruct (p a); [exact IH | reflexivity].
Qed.

Lemma rstrip_by_cons (p : char -> bool) (c : char) (t : str) :
  rstrip_by p (c :: t)
  = match rstrip_by p t with
    | [] => if p c then [] else [c]
    | r => c :: r
    end.
Proof.
  unfold rstrip_by. simpl rev. rewrite lstrip_by_snoc.
  destruct (lstrip_by p (rev t)) as [|x l]; simpl.
  - destruct (p c); reflexivity.
  - rewrite rev_app_distr. simpl. destruct (rev l ++ [x]) eqn:E; [|reflexivity].
    destruct (rev l); discriminate E.
Qed.

Lemma strip_by_ends (p : char -> bool) (s : str) :
  stops p (strip_by p s) /\ stops p (rev (strip_by p s)).
Proof.
  unfold strip_by. split.
  - pose proof (lstrip_by_stops p s) as H.
    destruct (lstrip_by p s) as [|c t]; [exact I|].
    rewrite rstrip_by_cons. simpl in H.
    destruct (rstrip_by p t); [rewrite H|]; exact H.
  - unfold rstrip_by. rewrite rev_involutive. apply lstrip_by_stops.
Qed.

Lemma strip_by_fixed (p : char -> bool) (s : str) :
  stops p s -> stops p (rev s) -> strip_by p s = s.
Proof.
  intros H1 H2. unfold strip_by.
  assert (E : forall t, stops p t -> lstrip_by p t = t).
  { intros [|c t]; simpl; [reflexivity|]. intros ->; reflexivity. }
  rewrite (E s H1). unfold rstrip_by. rewrite (E _ H2). apply rev_involutive.
Qed.

(** ** Whitespace runs *)

Lemma span_by (p : char -> bool) (s : str) :
  exists w t, s = w ++ t /\ List.Forall (fun c => p c = true) w /\ stops p t.
Proof.
  induction s as [|c s (w & t & -> & Hw & Ht)].
  - exists [], []. repeat split; constructor.
  - destruct (p c) eqn:E.
    + exists (c :: w), t. repeat split; [constructor; assumption | exact Ht].
    + exists [], (c :: w ++ t). repeat split; [constructor | exact E].
Qed.

Lemma m_at_spaces (pv : option char) (w s : str) :
  w <> [] -> List.Forall (fun c => isspace c = true) w -> stops isspace s ->
  m_at spaces_re (Cursor pv (w ++ s))
  = Some (Match w [] (Cursor (passed pv w) s)).
Proof.
  intros Hne Hw Hs. unfold m_at, final, spaces_re, plus. simpl m.
  rewrite (m_rep_greedy_all isspace w 1 _ [] pv s (Cursor (passed pv w) s, []));
    auto.
  - rewrite consumed_app. reflexivity.
  - destruct w; [congruence | simpl; lia].
Qed.

Lemma m_at_spaces_none (pv : option char) (s : str) :
  stops isspace s -> m_at spaces_re (Cursor pv s) = None.
Proof.
  intros Hs. unfold m_at, final, spaces_re, plus. simpl m.
  rewrite m_rep_must_take by exact Hs. reflexivity.
Qed.

Lemma collapse_in_run (w t : str) :
  List.Forall (fun c => isspace c = true) w ->
  collapse true (w ++ t) = collapse true t.
Proof.
  induction 1 as [|c w Hc Hw IH]; simpl; [reflexivity|].
  rewrite Hc. exact IH.
Qed.

Lemma collapse_after_run (t : str) :
  stops isspace t -> collapse true t = collapse false t.
Proof. destruct t as [|c t]; simpl; [reflexivity|]. intros ->; reflexivity. Qed.

(** [re.sub(r'\s+', ' ', s)] puts one space for every run of whitespace. *)
Lemma sub_spaces_collapse (n : nat) :
  forall (s : str) (pv : option char),
    length s <= n ->
    sub_from spaces_re [Text (py " ")] pv s = collapse false s.
Proof.
  induction n as [|n IH]; intros s pv Hn.
  - destruct s; [|simpl in Hn; lia].
    apply sub_end, m_at_spaces_none; exact I.
  - destruct s as [|c s].
    + apply sub_end, m_at_spaces_none; exact I.
    + simpl in Hn. destruct (isspace c) eqn:E.
      * destruct (span_by isspace s) as (w & t & -> & Hw & Ht).
        change (c :: w ++ t) with ((c :: w) ++ t).
        rewrite (sub_step_match _ _ _ (c :: w) t
                   (Match (c :: w) [] (Cursor (passed pv (c :: w)) t))).
        -- rewrite IH by (rewrite length_app in Hn; lia).
           simpl. rewrite E, collapse_in_run by exact Hw.
           rewrite collapse_after_run by exact Ht. reflexivity.
        -- apply m_at_spaces; [discriminate | constructor; assumption | exact Ht].
        -- reflexivity.
        -- discriminate.
      * rewrite sub_step_none by (apply m_at_spaces_none; exact E).
        rewrite IH by lia. simpl. rewrite E. reflexivity.
Qed.

Lemma collapse_spaced (s : str) :
  forall b, single_spaced (collapse b s) = true
            /\ (b = true -> stops isspace (collapse b s)).
Proof.
  induction s as [|c s IH]; intros b; simpl; [split; [reflexivity | intros; exact I]|].
  destruct (isspace c) eqn:E.
  - destruct b; [apply IH|].
    split; [|discriminate].
    destruct (IH true) as [H1 H2]. specialize (H2 eq_refl).
    destruct (collapse true s) as [|c2 r]; [reflexivity|].
    simpl in H2. change (single_spaced (ch " " :: c2 :: r))
      with (negb (isspace (ch " ") && isspace c2) && single_spaced (c2 :: r)).
    rewrite H2, andb_false_r. exact H1.
  - split; [|intros _; exact E].
    destruct (IH false) as [H1 _].
    destruct (collapse false s) as [|c2 r]; [reflexivity|].
    change (single_spaced (c :: c2 :: r))
      with (negb (isspace c && isspace c2) && single_spaced (c2 :: r)).
    rewrite E. exact H1.
Qed.

Lemma collapse_snoc (s : str) (c : char) :
  isspace c = false ->
  forall b, collapse b (s ++ [c]) = collapse b s ++ [c].
Proof.
  intros Hc. induction s as [|x s IH]; intros b; simpl.
  - rewrite Hc. reflexivity.
  - destruct (isspace x); [destruct b|]; rewrite IH; reflexivity.
Qed.

Lemma collapse_tidy (s : str) :
  starts_clean s = true -> starts_clean (rev s) = true ->
  tidy (collapse false s) = true.
Proof.
  intros H1 H2. unfold tidy.
  rewrite (proj1 (collapse_spaced s false)), andb_true_r.
  apply andb_true_iff; split.
  - destruct s as [|c s]; [discriminate|]. simpl in *.
    apply negb_true_iff in H1. rewrite H1. simpl. rewrite H1. reflexivity.
  - destruct (rev s) as [|c r] eqn:E; [discriminate|].
    apply (f_equal (@rev char)) in E. rewrite rev_involutive in E. simpl in E.
    simpl in H2. apply negb_true_iff in H2.
    rewrite E, collapse_snoc by exact H2.
    rewrite rev_app_distr. simpl. rewrite H2. reflexivity.
Qed.

Lemma single_spaced_at (a b : str) (c1 c2 : char) :
  single_spaced (a ++ c1 :: c2 :: b) = true ->
  isspace c1 = true -> isspace c2 = false.
Proof.
  induction a as [|x a IH]; simpl.
  - intros H E. rewrite E in H. simpl in H.
    destruct (isspace c2); [discriminate | reflexivity].
  - destruct (a ++ c1 :: c2 :: b) eqn:E; [destruct a; discriminate|].
    intros H. apply andb_true_iff in H. apply IH, H.
Qed.

(** What [tidy] says, spelled out. *)
Lemma tidy_spec (s : str) :
  tidy s = true ->
  s <> []
  /\ (forall c t, s = c :: t -> isspace c = false)
  /\ (forall t c, s = t ++ [c] -> isspace c = false)
  /\ (forall a c1 c2 b, s = a ++ c1 :: c2 :: b ->
        isspace c1 = true -> isspace c2 = false).
Proof.
  unfold tidy. intros H.
  apply andb_true_iff in H. destruct H as [H H3].
  apply andb_true_iff in H. destruct H as [H1 H2].
  split; [intros ->; discriminate|]. split; [|split].
  - intros c t ->. simpl in H1. apply negb_true_iff, H1.
  - intros t c ->. rewrite rev_app_distr in H2. simpl in H2.
    apply negb_true_iff, H2.
  - intros a c1 c2 b ->. apply single_spaced_at with (a := a) (b := b), H3.
Qed.

(** ** The tokenizer gives tidy names *)

Lemma dict_get_set_inv {V} (d : dict V) (k k0 : str) (v v0 : V) :
  dict_get (dict_set d k v) k0 = Some v0 ->
  v0 = v \/ dict_get d k0 = Some v0.
Proof.
  induction d as [|[k' v'] d IH]; simpl.
  - destruct (str_eqb k k0); [intros [= <-]; auto | discriminate].
  - destruct (str_eqb k' k) eqn:E; simpl; destruct (str_eqb k' k0); auto.
    intros [= <-]; auto.
Qed.

(** Every value of [replacements] is one of the protected titles. *)
Lemma protect_values (entries : list (nat * str)) :
  forall st : str * dict str,
    (forall e, In e entries -> In (snd e) SONGS_WITH_COMMAS) ->
    (forall k v, dict_get (snd st) k = Some v -> In v SONGS_WITH_COMMAS) ->
    forall k v, dict_get (snd (fold_left protect_song entries st)) k = Some v ->
                In v SONGS_WITH_COMMAS.
Proof.
  induction entries as [|e entries IH]; intros st He Hst; simpl; [exact Hst|].
  apply IH; [intros e' He'; apply He; right; exact He'|].
  unfold protect_song.
  destruct (first_found (song_patterns (snd e)) (fst st)); [|exact Hst].
  simpl. intros k v Hk. apply dict_get_set_inv in Hk.
  destruct Hk as [->|Hk]; [apply He; left; reflexivity | eapply Hst; eauto].
Qed.

Lemma replacements_are_titles (text k v : str) :
  dict_get (snd (protect text)) k = Some v -> In v SONGS_WITH_COMMAS.
Proof.
  unfold protect. apply protect_values.
  - intros [i song] He. apply in_combine_r in He. exact He.
  - simpl. discriminate.
Qed.

Lemma clean_song_tidy (part : str) :
  clean_song part <> [] -> tidy (clean_song part) = true.
Proof.
  unfold clean_song, re_sub.
  set (t := rstrip_chars _ _).
  rewrite (sub_spaces_collapse (length (strip t))) by lia.
  destruct (strip_by_ends isspace t) as [H1 H2]. fold (strip t) in H1, H2.
  destruct (strip t) as [|c u] eqn:E; [intros H; exfalso; apply H; reflexivity|].
  intros _. apply collapse_tidy.
  - simpl in *. rewrite H1. reflexivity.
  - destruct (rev (c :: u)) as [|c' u'] eqn:E'.
    + apply (f_equal (@length char)) in E'. rewrite length_rev in E'. discriminate E'.
    + simpl in *. rewrite H2. reflexivity.
Qed.

(** C9: every name the tokenizer returns is not empty, has no whitespace at
    either end and no two whitespace characters in a row. *)
Theorem tokens_are_tidy (text song : str) :
  In song (parse_songs_from_setlist text) ->
  song <> []
  /\ (forall c t, song = c :: t -> isspace c = false)
  /\ (forall t c, song = t ++ [c] -> isspace c = false)
  /\ (forall a c1 c2 b, song = a ++ c1 :: c2 :: b ->
        isspace c1 = true -> isspace c2 = false).
Proof.
  intros Hin. apply tidy_spec.
  unfold parse_songs_from_setlist in Hin.
  destruct (strip text); [destruct Hin|].
  apply in_flat_map in Hin. destruct Hin as (part & _ & Hin).
  unfold song_of_part in Hin.
  destruct (dict_get (snd (protect text)) part) as [title|] eqn:E.
  - destruct Hin as [<-|[]].
    apply replacements_are_titles in E.
    repeat (destruct E as [<-|E]; [vm_compute; reflexivity|]). destruct E.
  - pose proof (clean_song_tidy part) as H.
    destruct (clean_song part) as [|x u]; [destruct Hin|].
    destruct Hin as [<-|[]]. apply H. discriminate.
Qed.

Lemma tokens_are_tidy_witness :
  let song := py "Song B" in
  song <> []
  /\ (forall c t, song = c :: t -> isspace c = false)
  /\ (forall t c, song = t ++ [c] -> isspace c = false)
  /\ (forall a c1 c2 b, song = a ++ c1 :: c2 :: b ->
        isspace c1 = true -> isspace c2 = false).
Proof.
  apply (tokens_are_tidy (py "Song A -> Song B")).
  vm_compute. right; left; reflexivity.
Defined.

(** ** The vault scan always finds a date *)

Lemma m_rep_done (greedy : bool) (p : char -> bool) (k : cont) (g : groups)
    (pv : option char) (s : str) :
  m_rep greedy p 0 (Some 0) k g pv s = k (Cursor pv s) g.
Proof.
  destruct s as [|c s]; simpl; [reflexivity|].
  rewrite andb_false_r. reflexivity.
Qed.

Ltac take_char H s :=
  destruct s as [|? s]; simpl in H; try discriminate H;
  match type of H with
  | context [if ?b then _ else _] => destruct b eqn:?; try discriminate H
  end.

(** A stem the filter lets through is a date, with at most a newline
    after it: [$] also matches just before a last newline. *)
Lemma stem_shape (s : str) (mt : rmatch) :
  re_match stem_re s = Some mt ->
  exists d tail,
    s = d ++ tail /\ date_shaped d = true /\ (tail = [] \/ tail = [NL]).
Proof.
  unfold re_match, m_at, final, stem_re, times, lit. simpl.
  intros H.
  do 4 take_char H s. rewrite m_rep_done in H. take_char H s.
  do 2 take_char H s. rewrite m_rep_done in H. take_char H s.
  do 2 take_char H s. rewrite m_rep_done in H.
  eexists [_; _; _; _; _; _; _; _; _; _], s.
  split; [reflexivity|]. split.
  - simpl. repeat match goal with E : _ = true |- _ => rewrite E; clear E end.
    reflexivity.
  - destruct s as [|x s']; [left; reflexivity|]. right.
    unfold at_eol in H. simpl in H.
    destruct (N.eqb x NL) eqn:Ex; [|discriminate H].
    apply N.eqb_eq in Ex. subst x.
    destruct s'; [reflexivity | discriminate H].
Qed.

Lemma search_here (r : regex) (pv : option char) (s : str) (mt : rmatch) :
  m_at r (Cursor pv s) = Some mt -> search_from r pv s = Some mt.
Proof. intros H. destruct s; simpl; rewrite H; reflexivity. Qed.

(** [re.search] finds the date at the start of such a stem. *)
Lemma date_search (d tail : str) :
  date_shaped d = true ->
  exists mt, re_search date_re (d ++ tail) = Some mt /\ group mt 1 = d.
Proof.
  intros H.
  do 10 (destruct d as [|? d]; [discriminate H|]).
  destruct d; [|discriminate H].
  simpl in H. repeat (apply andb_true_iff in H; destruct H as [H ?]).
  assert (E : m_at date_re (Cursor None ([c; c0; c1; c2; c3; c4; c5; c6; c7; c8] ++ tail))
              = Some (Match [c; c0; c1; c2; c3; c4; c5; c6; c7; c8]
                        [(1, [c; c0; c1; c2; c3; c4; c5; c6; c7; c8])]
                        (Cursor (Some c8) tail))).
  { unfold m_at, final, date_re, times, lit. simpl.
    repeat match goal with E : _ = true |- _ => rewrite E; clear E end.
    rewrite ?andb_false_r. simpl. rewrite m_rep_done.
    pose proof (consumed_app None (Some c8)
                  [c; c0; c1; c2; c3; c4; c5; c6; c7; c8] tail) as Hc.
    simpl in Hc. rewrite !Hc. reflexivity. }
  eexists. split; [apply search_here; exact E | reflexivity].
Qed.

(** C10: for a file that passes the filter of the scan, a date always
    resolves and is not empty: the [date] of the frontmatter when it is
    there and not blank, otherwise the date that is the stem of the file
    name (the stem itself, or the stem less the newline the filter lets it
    end with).  The loop therefore never skips such a file for want of a
    date, and when its setlist has a section the file gives a show
    record, stored under that date. *)
Theorem filtered_file_resolves_date (f : md_file) (text : str) :
  is_show_file f = true ->
  content f = Some text ->
  let metadata := parse_obsidian_frontmatter text in
  let fm_date :=
    match dict_get metadata (py "date") with
    | Some d => strip d
    | None => []
    end in
  exists day,
    resolve_date metadata f = Some day
    /\ day <> []
    /\ (fm_date <> [] -> day = fm_date)
    /\ (fm_date = [] ->
          date_shaped day = true
          /\ (stem f = day \/ stem f = day ++ [NL]))
    /\ (parse_obsidian_setlist text <> [] ->
          exists show,
            show_of_file f = Some (day, show)
            /\ date show = day
            /\ sets show = parse_obsidian_setlist text
            /\ dict_get (scan_obsidian_vault [f]) day = Some show).
Proof.
  intros Hfilter Hcontent metadata fm_date.
  assert (Hstem : exists d tail, stem f = d ++ tail /\ date_shaped d = true
                                 /\ (tail = [] \/ tail = [NL])).
  { unfold is_show_file in Hfilter. apply andb_true_iff in Hfilter.
    destruct Hfilter as [_ Hm].
    destruct (re_match stem_re (stem f)) as [mt|] eqn:E; [|discriminate Hm].
    eapply stem_shape; eauto. }
  destruct Hstem as (d & tail & Hsplit & Hshape & Htail).
  destruct (date_search d tail Hshape) as (mt & Hsearch & Hgroup).
  assert (Hd : d <> []) by (intros ->; discriminate Hshape).
  assert (Hday : exists day,
             resolve_date metadata f = Some day /\ day <> []
             /\ (fm_date <> [] -> day = fm_date)
             /\ (fm_date = [] -> day = d)).
  { unfold resolve_date. rewrite Hsplit, Hsearch, Hgroup.
    subst fm_date. destruct (dict_get metadata (py "date")) as [v|].
    - destruct (strip v) as [|x v'] eqn:Ev.
      + exists d. repeat split; [exact Hd | congruence].
      + exists (x :: v'). repeat split; [discriminate | congruence].
    - exists d. repeat split; [exact Hd | congruence]. }
  destruct Hday as (day & Hres & Hne & Hfm & Hfn).
  exists day. split; [exact Hres|]. split; [exact Hne|]. split; [exact Hfm|].
  split.
  - intros E. rewrite (Hfn E). split; [exact Hshape|].
    rewrite Hsplit. destruct Htail as [-> | ->];
      [left; apply app_nil_r | right; reflexivity].
  - intros Hsets. unfold scan_obsidian_vault, show_of_file. simpl.
    rewrite Hfilter, Hcontent. simpl. fold metadata. rewrite Hres.
    destruct day as [|x day']; [congruence|].
    destruct (parse_obsidian_setlist text) as [|s0 ss] eqn:Es; [congruence|].
    eexists. split; [reflexivity|]. simpl.
    rewrite N.eqb_refl, str_eqb_refl. simpl. repeat split; reflexivity.
Qed.

Lemma filtered_file_resolves_date_witness :
  let text := join [NL] [py "---"; py "venue: The Hall"; py "---";
                         py "**Set 1:** Song A > Song B"] in
  let f := {| stem := py "2023-05-01"; name := py "2023-05-01.md";
              path := py "vault/2023-05-01.md"; content := Some text |} in
  is_show_file f = true
  /\ exists day,
       resolve_date (parse_obsidian_frontmatter text) f = Some day
       /\ day <> []
       /\ exists show, show_of_file f = Some (day, show).
Proof.
  intros text f.
  assert (Hfilter : is_show_file f = true) by (vm_compute; reflexivity).
  split; [exact Hfilter|].
  destruct (filtered_file_resolves_date f text Hfilter eq_refl)
    as (day & Hres & Hne & _ & _ & Hshow).
  exists day. split; [exact Hres|]. split; [exact Hne|].
  destruct Hshow as (show & Hs & _); [vm_compute; discriminate|].
  exists show. exact Hs.
Defined.

(** ** Segmentation with two markers *)

Lemma map_nth_seq_skipn {A} (d : A) (l : list A) :
  forall a, map (fun i => nth i l d) (seq a (length l - a)) = skipn a l.
Proof.
  induction l as [|x l IH]; intros a.
  - destruct a; reflexivity.
  - destruct a as [|a].
    + simpl. f_equal. rewrite <- seq_shift, map_map.
      specialize (IH 0). rewrite Nat.sub_0_r in IH. exact IH.
    + simpl. rewrite <- seq_shift, map_map. apply IH.
Qed.

(** C5, as the code has it: with exactly two markers the setlist region
    runs from just after the second marker to the end of the document, so
    that it is not empty exactly when a line follows that marker, and
    there is no review region: the review text is empty. *)
Theorem two_markers_regions (content : str) :
  let lines := splitlines content in
  let second := nth 1 (markers lines) 0 in
  length (markers lines) = 2 ->
  setlist_region lines = skipn (second + 1) lines
  /\ (setlist_region lines <> [] <-> second + 1 < length lines)
  /\ review_region lines = None
  /\ extract_review_section content = [].
Proof.
  intros lines second H2.
  assert (Hregion : setlist_region lines = skipn (second + 1) lines).
  { unfold setlist_region, setlist_range. rewrite H2. simpl.
    apply map_nth_seq_skipn. }
  assert (Hreview : review_region lines = None).
  { unfold review_region. rewrite H2. reflexivity. }
  split; [exact Hregion|]. split; [|split; [exact Hreview|]].
  - rewrite Hregion. split.
    + intros Hne. destruct (Nat.lt_ge_cases (second + 1) (length lines)) as [Hlt|Hge];
        [exact Hlt|].
      exfalso. apply Hne. apply skipn_all2. exact Hge.
    + intros Hlt E. apply (f_equal (@length str)) in E.
      rewrite length_skipn in E. simpl in E. lia.
  - unfold extract_review_section. fold lines. rewrite Hreview. reflexivity.
Qed.

Lemma two_markers_regions_witness :
  let content := join [NL] [py "---"; py "date: 2023-05-01"; py "---";
                            py "**Set 1:** Song A"; py "**Encore:** Song B"] in
  setlist_region (splitlines content)
  = [py "**Set 1:** Song A"; py "**Encore:** Song B"]
  /\ extract_review_section content = [].
Proof.
  intros content.
  destruct (two_markers_regions content) as (Hregion & _ & _ & Hreview).
  - vm_compute. reflexivity.
  - split; [|exact Hreview]. rewrite Hregion. vm_compute. reflexivity.
Defined.

(** C5, as it is stated, fails where the second marker is the last line:
    the document has exactly two markers and its setlist region is
    empty. *)
Lemma two_markers_empty_setlist_region :
  let lines := splitlines (join [NL] [py "---"; py "date: 2023-05-01"; py "---"]) in
  length (markers lines) = 2 /\ setlist_region lines = [].
Proof. vm_compute. split; reflexivity. Qed.

(** ** Section headers *)

(** A repetition that may stop at once succeeds where what follows it
    does. *)
Lemma m_rep_zero_some (greedy : bool) (p : char -> bool) (more : option nat)
    (k : cont) (g : groups) (pv : option char) (s : str) :
  (exists res, k (Cursor pv s) g = Some res) ->
  exists res, m_rep greedy p 0 more k g pv s = Some res.
Proof.
  intros [res Hk]. destruct s as [|c s']; simpl; [eauto|].
  destruct (p c && may_take more)%bool; [|eauto].
  destruct greedy.
  - destruct (m_rep true p 0 (one_less more) k g (Some c) s'); eauto.
  - rewrite Hk. eauto.
Qed.

(** [\s*(.+)] on a text that is not empty, has no newline and does not end
    in whitespace. *)
Lemma header_content_matches (body : str) (g : groups) (pv : option char) :
  body <> [] ->
  List.Forall (fun c => dot c = true) body ->
  stops isspace (rev body) ->
  exists res,
    m (Seq (star isspace) (Group 2 (plus dot))) final g (Cursor pv body) = Some res.
Proof.
  intros Hne Hdot Hend.
  destruct (span_by isspace body) as (w & t & -> & Hw & Ht).
  assert (Hdt : List.Forall (fun c => dot c = true) t).
  { apply List.Forall_app in Hdot. apply Hdot. }
  assert (Hnt : t <> []).
  { intros ->. rewrite app_nil_r in *.
    destruct (rev w) as [|c r] eqn:E.
    - apply (f_equal (@rev char)) in E. rewrite rev_involutive in E.
      simpl in E. congruence.
    - simpl in Hend.
      assert (Hc : In c w) by (apply in_rev; rewrite E; left; reflexivity).
      rewrite List.Forall_forall in Hw. rewrite (Hw c Hc) in Hend. discriminate. }
  unfold star. simpl m.
  eexists. apply m_rep_greedy_all; [exact Hw | lia | exact Ht |].
  unfold plus. simpl m.
  rewrite <- (app_nil_r t) at 2.
  apply m_rep_greedy_all; [exact Hdt | | exact I | reflexivity].
  destruct t; [congruence | simpl; lia].
Qed.

Lemma none_of_star_colon (c : char) :
  none_of (py "*:") c = true ->
  only (ch "*") c = false /\ isspace (ch ":") = false.
Proof.
  unfold none_of, only, char_in. simpl. intros H.
  apply negb_true_iff, orb_false_iff in H. destruct H as [H _].
  rewrite N.eqb_sym. split; [exact H | reflexivity].
Qed.

Lemma m_rep_take (greedy : bool) (p : char -> bool) (lo : nat)
    (more : option nat) (k : cont) (g : groups) (pv : option char)
    (c : char) (s : str) :
  p c = true ->
  m_rep greedy p (S lo) more k g pv (c :: s)
  = m_rep greedy p lo more k g (Some c) s.
Proof. intros H. simpl. rewrite H. reflexivity. Qed.

(** [\*{2,3}\s*(.+)] on the closing asterisks and the content. *)
Lemma header_closing_matches (stars2 body : str) (g : groups) (pv : option char) :
  stars2 = py "**" \/ stars2 = py "***" ->
  body <> [] ->
  List.Forall (fun c => dot c = true) body ->
  stops isspace (rev body) ->
  exists res,
    m (Seq (times 2 3 (only (ch "*")))
           (Seq (star isspace) (Group 2 (plus dot))))
      final g (Cursor pv (stars2 ++ body)) = Some res.
Proof.
  intros Hstars Hne Hdot Hend.
  unfold times. simpl m.
  destruct Hstars as [-> | ->].
  - change (py "**" ++ body) with (ch "*" :: ch "*" :: body).
    rewrite !m_rep_take by reflexivity.
    apply m_rep_zero_some, header_content_matches; assumption.
  - change (py "***" ++ body) with (ch "*" :: ch "*" :: ch "*" :: body).
    rewrite !m_rep_take by reflexivity.
    apply m_rep_zero_some, header_content_matches.
    + discriminate.
    + constructor; [reflexivity | exact Hdot].
    + simpl. destruct (rev body) as [|c r] eqn:E; [|exact Hend].
      apply (f_equal (@rev char)) in E. rewrite rev_involutive in E.
      simpl in E. congruence.
Qed.

Lemma m_rep_greedy_step (p : char -> bool) (more : option nat) (k : cont)
    (g : groups) (pv : option char) (c : char) (s : str) :
  p c = true -> may_take more = true ->
  m_rep true p 0 more k g pv (c :: s)
  = match m_rep true p 0 (one_less more) k g (Some c) s with
    | Some r => Some r
    | None => k (Cursor pv (c :: s)) g
    end.
Proof. intros H1 H2. simpl. rewrite H1, H2. reflexivity. Qed.

(** [\*{2,3}] on two or three asterisks with no asterisk after them. *)
Lemma header_opening_matches (k : cont) (g : groups) (pv : option char)
    (stars1 text : str) (res : result) :
  stars1 = py "**" \/ stars1 = py "***" ->
  stops (only (ch "*")) text ->
  k (Cursor (Some (ch "*")) text) g = Some res ->
  m_rep true (only (ch "*")) 2 (Some 1) k g pv (stars1 ++ text) = Some res.
Proof.
  intros Hs Hstop Hk. destruct Hs as [-> | ->]; cbn [py app].
  - rewrite !m_rep_take by reflexivity.
    rewrite m_rep_none_here by exact Hstop. exact Hk.
  - rewrite !m_rep_take by reflexivity.
    rewrite m_rep_greedy_step by reflexivity.
    change (one_less (Some 1)) with (Some 0).
    rewrite m_rep_done.
    rewrite Hk. reflexivity.
Qed.

(** The header pattern on a line of the expected shape: it matches, and
    its first group is the whole label. *)
Lemma header_match (stars1 label stars2 body : str) :
  stars1 = py "**" \/ stars1 = py "***" ->
  stars2 = py "**" \/ stars2 = py "***" ->
  label <> [] ->
  List.Forall (fun c => none_of (py "*:") c = true) label ->
  body <> [] ->
  List.Forall (fun c => dot c = true) body ->
  stops isspace (rev body) ->
  exists mt,
    re_match header_re (stars1 ++ label ++ [ch ":"] ++ stars2 ++ body) = Some mt
    /\ group mt 1 = label.
Proof.
  intros Hs1 Hs2 Hl Hlabel Hb Hdot Hend.
  set (tail := cat [star isspace; lit (ch ":"); times 2 3 (only (ch "*"));
                    star isspace; Group 2 (plus dot)]).
  set (text := [ch ":"] ++ stars2 ++ body).
  (* what follows the label *)
  assert (Htail : forall g pv, exists res, m tail final g (Cursor pv text) = Some res).
  { intros g pv. unfold tail, text, star, lit. simpl m.
    apply (header_closing_matches stars2 body g (Some (ch ":"))); assumption. }
  (* the label and what follows *)
  assert (Hgroup : forall pv, exists res,
             m (Seq (Group 1 (plus (none_of (py "*:")))) tail) final []
               (Cursor pv (label ++ text)) = Some res
             /\ group_get (snd res) 1 = Some label).
  { intros pv. destruct (Htail [(1, label)] (passed pv label)) as [res Hres].
    exists res. split.
    - change (m (Seq (Group 1 (plus (none_of (py "*:")))) tail) final []
                (Cursor pv (label ++ text)))
        with (m_rep true (none_of (py "*:")) 1 None
                (fun c' g' =>
                   m tail final
                     ((1, consumed (Cursor pv (label ++ text)) c') :: g') c')
                [] pv (label ++ text)).
      apply m_rep_greedy_all.
      + exact Hlabel.
      + destruct label; [congruence | simpl; lia].
      + reflexivity.
      + rewrite consumed_app. exact Hres.
    - apply (m_from_cont 1) in Hres. destruct Hres as (c' & g' & Hf & Hg).
      unfold final in Hf. injection Hf as <-. simpl.
      rewrite Hg by reflexivity. reflexivity. }
  destruct (Hgroup (Some (ch "*"))) as ([c' g'] & Hres & Hg).
  assert (Hstop : stops (only (ch "*")) (label ++ text)).
  { destruct label as [|l0 label']; [congruence|].
    inversion Hlabel; subst. apply none_of_star_colon. assumption. }
  exists (Match (consumed (Cursor None (stars1 ++ label ++ text)) c') g' c').
  split.
  - unfold re_match, m_at.
    change (m header_re final [] (Cursor None (stars1 ++ label ++ text)))
      with (m_rep true (only (ch "*")) 2 (Some 1)
              (fun c1 g1 =>
                 m (Seq (Group 1 (plus (none_of (py "*:")))) tail) final g1 c1)
              [] None (stars1 ++ label ++ text)).
    rewrite (header_opening_matches _ _ _ _ _ (c', g') Hs1 Hstop Hres).
    reflexivity.
  - unfold group. simpl in *. rewrite Hg. reflexivity.
Qed.

(** No line of [splitlines] holds a line boundary. *)
Lemma lines_from_no_break (s : str) :
  forall (skip_lf : bool) (l : str),
    In l (lines_from skip_lf s) ->
    List.Forall (fun c => is_linebreak c = false) l.
Proof.
  induction s as [|c s IH]; intros skip_lf l Hin; simpl in Hin; [destruct Hin|].
  destruct (skip_lf && N.eqb c 10)%bool; [eapply IH; eauto|].
  destruct (is_linebreak c) eqn:E.
  - destruct Hin as [<-|Hin]; [constructor | eapply IH; eauto].
  - destruct (lines_from false s) as [|l0 ls] eqn:El.
    + destruct Hin as [<-|[]]. repeat constructor. exact E.
    + destruct Hin as [<-|Hin].
      * constructor; [exact E|]. apply (IH false). rewrite El. left; reflexivity.
      * apply (IH false). rewrite El. right; exact Hin.
Qed.

Lemma lstrip_by_Forall (P : char -> Prop) (p : char -> bool) (s : str) :
  List.Forall P s -> List.Forall P (lstrip_by p s).
Proof.
  induction 1 as [|c s Hc Hs IH]; simpl; [constructor|].
  destruct (p c); [exact IH | constructor; assumption].
Qed.

Lemma strip_by_Forall (P : char -> Prop) (p : char -> bool) (s : str) :
  List.Forall P s -> List.Forall P (strip_by p s).
Proof.
  intros H. unfold strip_by, rstrip_by.
  apply List.Forall_rev, lstrip_by_Forall, List.Forall_rev, lstrip_by_Forall, H.
Qed.

Lemma no_break_dot (c : char) : is_linebreak c = false -> dot c = true.
Proof.
  intros H. unfold dot. destruct (N.eqb c NL) eqn:E; [|reflexivity].
  apply N.eqb_eq in E. subst c. discriminate H.
Qed.

(** A line of the setlist region, stripped, has no newline. *)
Lemma region_line_dot (lines_of : str) (raw : str) :
  In raw (setlist_region (splitlines lines_of)) ->
  List.Forall (fun c => dot c = true) (strip raw).
Proof.
  intros Hin. apply strip_by_Forall.
  unfold setlist_region in Hin.
  destruct (setlist_range (splitlines lines_of)) as [[first last]|]; [|destruct Hin].
  apply in_map_iff in Hin. destruct Hin as (idx & <- & _).
  destruct (nth_in_or_default idx (splitlines lines_of) []) as [H | ->];
    [|constructor].
  apply lines_from_no_break in H.
  eapply List.Forall_impl; [|exact H]. apply no_break_dot.
Qed.

Lemma setlist_line_keeps (sets0 : dict str) (raw k : str) :
  dict_has sets0 k = true -> dict_has (setlist_line sets0 raw) k = true.
Proof.
  intros H. unfold setlist_line.
  destruct (strip raw); [exact H|].
  destruct (re_match header_re _); [apply dict_has_keep|]; exact H.
Qed.

Lemma setlist_fold_keeps (rows : list str) (k : str) :
  forall sets0, dict_has sets0 k = true ->
                dict_has (fold_left setlist_line rows sets0) k = true.
Proof.
  induction rows as [|raw rows IH]; intros sets0 H; simpl; [exact H|].
  apply IH, setlist_line_keeps, H.
Qed.

(** C1, as the code has it: in the setlist region, a line that once
    stripped is two or three asterisks, a label that is not empty and
    has no colon and no asterisk, a colon, two or three asterisks and then
    some content, is taken for a section header, with that label, and the
    Section Map has an entry under the label stripped. *)
Theorem header_line_makes_section
    (content raw stars1 label stars2 body : str) :
  In raw (setlist_region (splitlines content)) ->
  strip raw = stars1 ++ label ++ [ch ":"] ++ stars2 ++ body ->
  stars1 = py "**" \/ stars1 = py "***" ->
  stars2 = py "**" \/ stars2 = py "***" ->
  label <> [] ->
  List.Forall (fun c => none_of (py "*:") c = true) label ->
  body <> [] ->
  (exists mt, re_match header_re (strip raw) = Some mt /\ group mt 1 = label)
  /\ dict_has (parse_obsidian_setlist content) (strip label) = true.
Proof.
  intros Hin Hline Hs1 Hs2 Hl Hlabel Hb.
  assert (Hdot : List.Forall (fun c => dot c = true) body).
  { pose proof (region_line_dot content raw Hin) as H. rewrite Hline in H.
    repeat (apply List.Forall_app in H; destruct H as [_ H]). exact H. }
  assert (Hend : stops isspace (rev body)).
  { pose proof (proj2 (strip_by_ends isspace raw)) as H.
    fold (strip raw) in H. rewrite Hline in H.
    rewrite !app_assoc, rev_app_distr in H.
    destruct (rev body) as [|c r] eqn:E; [exact I | exact H]. }
  destruct (header_match stars1 label stars2 body Hs1 Hs2 Hl Hlabel Hb Hdot Hend)
    as (mt & Hm & Hg).
  split; [exists mt; rewrite Hline; split; assumption|].
  unfold parse_obsidian_setlist.
  apply in_split in Hin. destruct Hin as (before & after & ->).
  rewrite fold_left_app. simpl. apply setlist_fold_keeps.
  unfold setlist_line. rewrite Hline.
  destruct (stars1 ++ label ++ [ch ":"] ++ stars2 ++ body) as [|x line] eqn:E.
  { destruct Hs1 as [-> | ->]; discriminate E. }
  rewrite Hm, Hg. apply dict_has_set.
Qed.

Lemma header_line_makes_section_witness :
  let content := join [NL] [py "---"; py "date: 2023-05-01"; py "---";
                            py "**Set 1:** Song A > Song B"] in
  dict_has (parse_obsidian_setlist content) (py "Set 1") = true.
Proof.
  intros content.
  apply (header_line_makes_section content (py "**Set 1:** Song A > Song B")
           (py "**") (py "Set 1") (py "**") (py " Song A > Song B")).
  - vm_compute. left; reflexivity.
  - vm_compute. reflexivity.
  - left; reflexivity.
  - left; reflexivity.
  - discriminate.
  - repeat constructor.
  - discriminate.
Defined.

(** C1, as it is stated, fails for a header with single asterisks: the
    pattern asks for two at least, and the line [*Set 1:* Song A] of the
    setlist gives no entry. *)
Lemma single_asterisk_header_ignored :
  let content := join [NL] [py "---"; py "date: 2023-05-01"; py "---";
                            py "*Set 1:* Song A"] in
  In (py "*Set 1:* Song A") (setlist_region (splitlines content))
  /\ re_match header_re (py "*Set 1:* Song A") = None
  /\ parse_obsidian_setlist content = [].
Proof.
  vm_compute. split; [left; reflexivity|]. split; reflexivity.
Qed.

(** ** Where the frontmatter block may start *)

Lemma passed_snoc (pv : option char) (a : str) (c : char) :
  passed pv (a ++ [c]) = Some c.
Proof. revert pv; induction a as [|x a IH]; intros pv; simpl; auto. Qed.

(** The search passes over the places where the pattern cannot match. *)
Lemma search_skip (r : regex) (a s : str) :
  (forall c pv t, In c a -> m_at r (Cursor pv (c :: t)) = None) ->
  forall pv, search_from r pv (a ++ s) = search_from r (passed pv a) s.
Proof.
  induction a as [|x a IH]; intros Hnone pv; simpl; [reflexivity|].
  rewrite Hnone by (left; reflexivity).
  apply IH. intros c pv' t Hc. apply Hnone. right; exact Hc.
Qed.

Lemma search_none (r : regex) (s : str) :
  forall pv,
    (forall a b, s = a ++ b -> m_at r (Cursor (passed pv a) b) = None) ->
    search_from r pv s = None.
Proof.
  induction s as [|c s IH]; intros pv Hnone.
  - pose proof (Hnone [] [] eq_refl) as H0. simpl in *. rewrite H0. reflexivity.
  - pose proof (Hnone [] (c :: s) eq_refl) as H0. simpl in *. rewrite H0.
    apply IH. intros a b ->. apply (Hnone (c :: a) b). reflexivity.
Qed.

Lemma starts_with_app (n b : str) : starts_with n (n ++ b) = true.
Proof.
  induction n as [|x n IH]; simpl; [reflexivity|].
  rewrite N.eqb_refl. exact IH.
Qed.

Lemma contains_app (n a b : str) : contains n (a ++ n ++ b) = true.
Proof.
  induction a as [|x a IH].
  - destruct (n ++ b) eqn:E; simpl; rewrite <- E, starts_with_app; reflexivity.
  - change ((x :: a) ++ n ++ b) with (x :: (a ++ n ++ b)).
    simpl. rewrite IH. apply orb_true_r.
Qed.

(** The frontmatter pattern needs a hyphen where it starts. *)
Lemma frontmatter_needs_hyphen (c : char) (pv : option char) (t : str) :
  c <> ch "-" -> m_at frontmatter_re (Cursor pv (c :: t)) = None.
Proof.
  intros Hc. unfold m_at, frontmatter_re, lits, lit. simpl.
  destruct (at_bol true _); [|reflexivity].
  destruct (N.eqb (ch "-") c) eqn:E; [|reflexivity].
  apply N.eqb_eq in E. congruence.
Qed.

(** It needs [---] at the start of a line. *)
Lemma frontmatter_needs_opening (pv : option char) (b : str) :
  (forall b', b = py "---" ++ b' -> exists c, pv = Some c /\ c <> NL) ->
  m_at frontmatter_re (Cursor pv b) = None.
Proof.
  intros H. unfold m_at, frontmatter_re, lits, lit. simpl.
  destruct (at_bol true (Cursor pv b)) eqn:Ebol; [|reflexivity].
  destruct b as [|x1 b]; [reflexivity|].
  destruct (N.eqb (ch "-") x1) eqn:E1; [|reflexivity].
  destruct b as [|x2 b]; [reflexivity|].
  destruct (N.eqb (ch "-") x2) eqn:E2; [|reflexivity].
  destruct b as [|x3 b]; [reflexivity|].
  destruct (N.eqb (ch "-") x3) eqn:E3; [|reflexivity].
  apply N.eqb_eq in E1, E2, E3. subst x1 x2 x3.
  destruct (H b eq_refl) as (c & -> & Hc).
  unfold at_bol in Ebol. simpl in Ebol.
  apply N.eqb_eq in Ebol. congruence.
Qed.

(** C2, as the code has it: the block need not open the document, its
    first [---] may stand at the start of any line.  After any text
    without a hyphen and a newline, the block of [date] and [venue] is
    still read; and the mapping is empty when no [---] of the document is
    at the start of a line. *)
Theorem frontmatter_block_at_any_line :
  (forall pre : str,
     ~ In (ch "-") pre ->
     parse_obsidian_frontmatter
       (pre ++ [NL]
        ++ join [NL] [py "---"; py "date: 2023-05-01"; py "venue: The Hall";
                      py "---"; py "body"])
     = [(py "date", py "2023-05-01"); (py "venue", py "The Hall")])
  /\ (forall content : str,
        (forall a b, content = a ++ py "---" ++ b ->
                     exists a' c, a = a' ++ [c] /\ c <> NL) ->
        parse_obsidian_frontmatter content = []).
Proof.
  split.
  - intros pre Hpre. unfold parse_obsidian_frontmatter, re_search.
    rewrite app_assoc, search_skip, passed_snoc.
    + vm_compute. reflexivity.
    + intros c pv t Hc. apply frontmatter_needs_hyphen.
      apply in_app_iff in Hc. destruct Hc as [Hc|[<-|[]]].
      * intros ->. exact (Hpre Hc).
      * discriminate.
  - intros content Hlines. unfold parse_obsidian_frontmatter, re_search.
    rewrite search_none; [reflexivity|].
    intros a b ->. apply frontmatter_needs_opening.
    intros b' ->. destruct (Hlines a b' eq_refl) as (a' & c & -> & Hc).
    exists c. split; [apply passed_snoc | exact Hc].
Qed.

Lemma frontmatter_block_at_any_line_witness :
  parse_obsidian_frontmatter
    (join [NL] [py "Show notes"; py "---"; py "date: 2023-05-01";
                py "venue: The Hall"; py "---"; py "body"])
  = [(py "date", py "2023-05-01"); (py "venue", py "The Hall")]
  /\ parse_obsidian_frontmatter (py "x---") = [].
Proof.
  split.
  - apply (proj1 frontmatter_block_at_any_line (py "Show notes")).
    vm_compute. intuition discriminate.
  - apply (proj2 frontmatter_block_at_any_line (py "x---")).
    intros a b E. vm_compute in E.
    destruct a as [|c a]; [discriminate E|].
    injection E as <- E. exists [], 120%N.
    destruct a as [|c a]; [split; [reflexivity | discriminate]|].
    exfalso. apply (f_equal (@length char)) in E. simpl in E.
    rewrite length_app in E. simpl in E. lia.
Defined.

(** C2, as it is stated, fails: a block that comes after a line of text is
    read all the same. *)
Lemma frontmatter_read_after_text :
  parse_obsidian_frontmatter
    (join [NL] [py "Show notes"; py "---"; py "date: 2023-05-01";
                py "venue: The Hall"; py "---"; py "body"])
  = [(py "date", py "2023-05-01"); (py "venue", py "The Hall")]
  /\ parse_obsidian_frontmatter
       (join [NL] [py "Show notes"; py "---"; py "date: 2023-05-01";
                   py "venue: The Hall"; py "---"; py "body"]) <> [].
Proof. vm_compute. split; [reflexivity | discriminate]. Qed.

(** ** Time annotations inside a fragment *)

Lemma plain_spec (c : char) :
  plain c = true ->
  isspace c = false /\ isdecimal c = false
  /\ N.eqb (ch "(") c = false /\ N.eqb (ch "[") c = false
  /\ N.eqb c (ch "-") = false.
Proof.
  unfold plain, none_of, char_in. simpl. intros H.
  apply andb_true_iff in H. destruct H as [H H3].
  apply andb_true_iff in H. destruct H as [H1 H2].
  apply negb_true_iff in H1, H2, H3.
  apply orb_false_iff in H3. destruct H3 as [Ha H3].
  apply orb_false_iff in H3. destruct H3 as [Hb H3].
  apply orb_false_iff in H3. destruct H3 as [Hc _].
  rewrite (N.eqb_sym (ch "(")), (N.eqb_sym (ch "[")). auto.
Qed.

(** The substitution copies a text in which the pattern matches
    nowhere. *)
Lemma sub_skip (r : regex) (repl : list piece) (a s : str) :
  (forall c pv t, In c a -> m_at r (Cursor pv (c :: t)) = None) ->
  forall pv,
    sub_from r repl pv (a ++ s) = a ++ sub_from r repl (passed pv a) s.
Proof.
  induction a as [|x a IH]; intros Hnone pv; simpl; [reflexivity|].
  rewrite sub_step_none by (apply Hnone; left; reflexivity).
  f_equal. apply IH. intros c pv' t Hc. apply Hnone. right; exact Hc.
Qed.

(** C3, as it is stated, fails: the time in the middle of
    ["Song A (12:34) Reprise"] does not stay in the name. *)
Lemma interior_time_not_kept :
  let part := py "Song A (12:34) Reprise" in
  split_parts part = [part]
  /\ clean_song part = py "Song A Reprise"
  /\ contains (py "(12:34)") (clean_song part) = false
  /\ parse_songs_from_setlist part = [py "Song A Reprise"].
Proof. vm_compute. repeat split; reflexivity. Qed.

(** * Further properties *)

(** ** Dictionaries *)

Lemma str_eqb_neq (a b : str) : a <> b -> str_eqb a b = false.
Proof.
  intros H. destruct (str_eqb a b) eqn:E; [|reflexivity].
  apply str_eqb_eq in E. contradiction.
Qed.

Lemma dict_get_set {V} (d : dict V) (k k0 : str) (v : V) :
  dict_get (dict_set d k v) k0
  = if str_eqb k k0 then Some v else dict_get d k0.
Proof.
  induction d as [|[k' v'] d IH]; simpl; [reflexivity|].
  destruct (str_eqb k' k) eqn:E; simpl.
  - apply str_eqb_eq in E. subst k'. destruct (str_eqb k k0); reflexivity.
  - rewrite IH. destruct (str_eqb k' k0) eqn:E0; [|reflexivity].
    apply str_eqb_eq in E0. subst k0. rewrite str_eqb_neq; [reflexivity|].
    intros ->. rewrite str_eqb_refl in E. discriminate.
Qed.

Lemma dict_set_same {V} (d : dict V) (k : str) (v : V) :
  dict_get d k = Some v -> dict_set d k v = d.
Proof.
  induction d as [|[k' v'] d IH]; simpl; [discriminate|].
  destruct (str_eqb k' k); [intros [= ->]; reflexivity|].
  intros H. rewrite IH by exact H. reflexivity.
Qed.

Lemma dict_get_none_keys {V} (d : dict V) (k : str) :
  dict_get d k = None -> ~ In k (map fst d).
Proof.
  induction d as [|[k' v'] d IH]; simpl; [tauto|].
  destruct (str_eqb k' k) eqn:E; [discriminate|].
  intros H [->|Hin]; [rewrite str_eqb_refl in E; discriminate | exact (IH H Hin)].
Qed.

Lemma dict_set_keys {V} (d : dict V) (k : str) (v : V) :
  map fst (dict_set d k v)
  = if dict_has d k then map fst d else map fst d ++ [k].
Proof.
  unfold dict_has. induction d as [|[k' v'] d IH]; simpl; [reflexivity|].
  destruct (str_eqb k' k); simpl; [reflexivity|].
  rewrite IH. destruct (dict_get d k); reflexivity.
Qed.

Lemma dict_set_NoDup {V} (d : dict V) (k : str) (v : V) :
  List.NoDup (map fst d) -> List.NoDup (map fst (dict_set d k v)).
Proof.
  intros H. rewrite dict_set_keys. unfold dict_has.
  destruct (dict_get d k) eqn:E; [exact H|].
  apply List.NoDup_app.
  - exact H.
  - repeat constructor. intros [].
  - intros x Hx [Heq|[]]. subst x. exact (dict_get_none_keys d k E Hx).
Qed.

Lemma dict_get_in {V} (d : dict V) (k : str) (v : V) :
  List.NoDup (map fst d) -> In (k, v) d -> dict_get d k = Some v.
Proof.
  induction d as [|[k' v'] d IH]; simpl; [tauto|].
  intros Hnd [[= -> ->]|Hin]; [rewrite str_eqb_refl; reflexivity|].
  inversion Hnd as [|? ? Hk Hd]; subst.
  rewrite str_eqb_neq; [apply IH; assumption|].
  intros ->. apply Hk. apply (in_map fst) in Hin. exact Hin.
Qed.

Lemma dict_get_some_in {V} (d : dict V) (k : str) (v : V) :
  dict_get d k = Some v -> In (k, v) d.
Proof.
  induction d as [|[k' v'] d IH]; simpl; [discriminate|].
  destruct (str_eqb k' k) eqn:E; [|auto].
  apply str_eqb_eq in E. intros [= ->]. subst. left; reflexivity.
Qed.

(** ** The song database of any number of shows *)

Lemma add_shows_lookup (song : str) (shows : list show_data) :
  forall db : gmap str (list appearance),
    default [] (fold_left add_show shows db !! song)
    = default [] (db !! song)
      ++ flat_map (fun show => show_appearances show song) shows.
Proof.
  induction shows as [|show shows IH]; intros db; simpl.
  - rewrite app_nil_r; reflexivity.
  - rewrite IH. unfold add_show. rewrite add_sets_lookup, <- app_assoc.
    reflexivity.
Qed.

(** X1: the appearances of a song in the index are those of the shows
    one after the other, in the order of the database, each show giving
    one appearance per time the song is emitted, set by set. *)
Theorem song_index_of_all_shows (shows_db : dict show_data) (song : str) :
  default [] (build_song_database shows_db !! song)
  = flat_map (fun item => show_appearances (snd item) song) shows_db.
Proof.
  unfold build_song_database. rewrite add_shows_lookup, lookup_empty. simpl.
  induction shows_db as [|item items IH]; simpl; [reflexivity|].
  rewrite IH. reflexivity.
Qed.

Lemma add_appearance_no_empty (db : gmap str (list appearance))
    (s : str) (a : appearance) :
  (forall song plays, db !! song = Some plays -> plays <> []) ->
  forall song plays, add_appearance db s a !! song = Some plays -> plays <> [].
Proof.
  intros Hdb song plays. unfold add_appearance.
  destruct (str_eq_dec s song) as [->|Hne].
  - rewrite lookup_insert_eq. intros [= <-]. destruct (default [] (db !! song)); discriminate.
  - rewrite lookup_insert_ne by exact Hne. apply Hdb.
Qed.

Lemma build_no_empty (shows : list show_data) :
  forall db : gmap str (list appearance),
    (forall song plays, db !! song = Some plays -> plays <> []) ->
    forall song plays,
      fold_left add_show shows db !! song = Some plays -> plays <> [].
Proof.
  induction shows as [|show shows IH]; intros db Hdb; simpl; [exact Hdb|].
  apply IH. unfold add_show. clear IH.
  revert db Hdb. induction (sets show) as [|item items IHi]; intros db Hdb;
    simpl; [exact Hdb|].
  apply IHi. unfold add_set. clear IHi.
  revert db Hdb.
  induction (parse_songs_from_setlist (snd item)) as [|t ts IHt];
    intros db Hdb; simpl; [exact Hdb|].
  apply IHt, add_appearance_no_empty, Hdb.
Qed.

(** X2: a song is a key of the index exactly when the tokenizer emits it
    for some set of some show of the database, and no key of the index
    has an empty list of appearances. *)
Theorem song_index_keys (shows_db : dict show_data) (song : str) :
  (is_Some (build_song_database shows_db !! song)
   <-> exists item set_item,
         In item shows_db /\ In set_item (sets (snd item))
         /\ In song (parse_songs_from_setlist (snd set_item)))
  /\ (forall plays, build_song_database shows_db !! song = Some plays ->
                    plays <> []).
Proof.
  assert (Hne : forall plays, build_song_database shows_db !! song = Some plays ->
                              plays <> []).
  { unfold build_song_database. apply build_no_empty.
    intros s l. rewrite lookup_empty. discriminate. }
  split; [|exact Hne].
  pose proof (song_index_of_all_shows shows_db song) as Hall.
  split.
  - intros [plays Hp]. rewrite Hp in Hall. simpl in Hall.
    pose proof (Hne plays Hp) as Hp'.
    destruct plays as [|a plays]; [congruence|].
    assert (Ha : In a (flat_map (fun item => show_appearances (snd item) song)
                                shows_db)) by (rewrite <- Hall; left; reflexivity).
    apply in_flat_map in Ha. destruct Ha as (item & Hitem & Ha).
    unfold show_appearances in Ha. apply in_flat_map in Ha.
    destruct Ha as (set_item & Hset & Ha).
    exists item, set_item. split; [exact Hitem|]. split; [exact Hset|].
    apply (count_occ_In str_eq_dec).
    destruct (count_occ str_eq_dec (parse_songs_from_setlist (snd set_item)) song);
      [destruct Ha | lia].
  - intros (item & set_item & Hitem & Hset & Hsong).
    destruct (build_song_database shows_db !! song) as [plays|] eqn:E; [eauto|].
    exfalso. simpl in Hall.
    assert (Ha : In (Appearance (date (snd item)) (url (snd item)) (fst set_item))
                    (flat_map (fun item => show_appearances (snd item) song)
                              shows_db)).
    { apply in_flat_map. exists item. split; [exact Hitem|].
      unfold show_appearances. apply in_flat_map. exists set_item.
      split; [exact Hset|].
      apply (count_occ_In str_eq_dec) in Hsong.
      destruct (count_occ str_eq_dec (parse_songs_from_setlist (snd set_item)) song);
        [lia | left; reflexivity]. }
    rewrite <- Hall in Ha. destruct Ha.
Qed.

(** ** The shows of the vault *)

Lemma scan_snoc (files : list md_file) (f : md_file) :
  scan_obsidian_vault (files ++ [f])
  = match show_of_file f with
    | Some (day, show) => dict_set (scan_obsidian_vault files) day show
    | None => scan_obsidian_vault files
    end.
Proof. unfold scan_obsidian_vault. rewrite fold_left_app. reflexivity. Qed.

Lemma scan_NoDup (files : list md_file) :
  List.NoDup (map fst (scan_obsidian_vault files)).
Proof.
  induction files as [|f files IH] using rev_ind; [constructor|].
  rewrite scan_snoc. destruct (show_of_file f) as [[day show]|]; [|exact IH].
  apply dict_set_NoDup, IH.
Qed.

(** What a record made from a file looks like. *)
Lemma show_of_file_record (f : md_file) (day : str) (show : show_data) :
  show_of_file f = Some (day, show) ->
  is_show_file f = true
  /\ day <> []
  /\ date show = day
  /\ sets show <> []
  /\ (exists text, content f = Some text
                   /\ sets show = parse_obsidian_setlist text
                   /\ notes show = match extract_review_section text with
                                   | [] => []
                                   | review => [review]
                                   end)
  /\ source show = py "obsidian"
  /\ obsidian_file show = path f
  /\ url show = [].
Proof.
  unfold show_of_file.
  destruct (is_show_file f); [|discriminate]. simpl.
  destruct (content f) as [text|]; [|discriminate].
  destruct (resolve_date (parse_obsidian_frontmatter text) f) as [[|x d]|];
    try discriminate.
  destruct (parse_obsidian_setlist text) as [|s0 ss] eqn:Es; [discriminate|].
  intros [= <- <-]. simpl.
  split; [reflexivity|]. split; [discriminate|]. split; [reflexivity|].
  split; [discriminate|]. split; [|auto].
  exists text. split; [reflexivity|]. split; [symmetry; exact Es|].
  destruct (extract_review_section text); reflexivity.
Qed.

(** X3: every record of the scan is stored under its own date, which is
    not empty; it comes from a file of the vault that passes the filter,
    has at least one section, at most one note, the source tag
    [obsidian], the path of its file and an empty url. *)
Theorem scanned_records_are_well_formed
    (files : list md_file) (day : str) (show : show_data) :
  dict_get (scan_obsidian_vault files) day = Some show ->
  day <> []
  /\ date show = day
  /\ sets show <> []
  /\ length (notes show) <= 1
  /\ source show = py "obsidian"
  /\ url show = []
  /\ exists f, In f files /\ show_of_file f = Some (day, show)
               /\ is_show_file f = true /\ obsidian_file show = path f.
Proof.
  induction files as [|f files IH] using rev_ind; [discriminate|].
  rewrite scan_snoc.
  destruct (show_of_file f) as [[day' show']|] eqn:Ef.
  - rewrite dict_get_set. destruct (str_eqb day' day) eqn:E.
    + apply str_eqb_eq in E. subst day'. intros [= <-].
      destruct (show_of_file_record f day show' Ef)
        as (Hfilter & Hday & Hdate & Hsets & (text & _ & _ & Hnotes) & Hsrc & Hpath & Hurl).
      repeat split; try assumption.
      * rewrite Hnotes. destruct (extract_review_section text); simpl; lia.
      * exists f. repeat split; try assumption. apply in_app_iff. right; left; reflexivity.
    + intros H. destruct (IH H) as (H1 & H2 & H3 & H4 & H5 & H6 & f0 & Hin & Hf0).
      repeat split; try assumption.
      exists f0. split; [apply in_app_iff; left; exact Hin | exact Hf0].
  - intros H. destruct (IH H) as (H1 & H2 & H3 & H4 & H5 & H6 & f0 & Hin & Hf0).
    repeat split; try assumption.
    exists f0. split; [apply in_app_iff; left; exact Hin | exact Hf0].
Qed.

Lemma scanned_records_are_well_formed_witness :
  let text := join [NL] [py "---"; py "venue: The Hall"; py "---";
                         py "**Set 1:** Song A > Song B"] in
  let f := {| stem := py "2023-05-01"; name := py "2023-05-01.md";
              path := py "vault/2023-05-01.md"; content := Some text |} in
  exists show,
    dict_get (scan_obsidian_vault [f]) (py "2023-05-01") = Some show
    /\ date show = py "2023-05-01" /\ sets show <> [].
Proof.
  intros text f.
  destruct (dict_get (scan_obsidian_vault [f]) (py "2023-05-01")) as [show|] eqn:E;
    [|vm_compute in E; discriminate E].
  exists show. split; [reflexivity|].
  destruct (scanned_records_are_well_formed [f] _ show E) as (_ & H2 & H3 & _).
  split; assumption.
Defined.

Lemma scan_app_other (after : list md_file) (day : str) :
  (forall g show, In g after -> show_of_file g <> Some (day, show)) ->
  forall files,
    dict_get (scan_obsidian_vault (files ++ after)) day
    = dict_get (scan_obsidian_vault files) day.
Proof.
  induction after as [|g after IH] using rev_ind; intros Hafter files.
  - rewrite app_nil_r. reflexivity.
  - rewrite app_assoc, scan_snoc.
    assert (Hrest : dict_get (scan_obsidian_vault (files ++ after)) day
                    = dict_get (scan_obsidian_vault files) day).
    { apply IH. intros g' show Hg'. apply Hafter, in_app_iff. left; exact Hg'. }
    destruct (show_of_file g) as [[day' show']|] eqn:Eg; [|exact Hrest].
    rewrite dict_get_set. destruct (str_eqb day' day) eqn:E; [|exact Hrest].
    apply str_eqb_eq in E. subst day'. exfalso.
    apply (Hafter g show'); [apply in_app_iff; right; left; reflexivity | exact Eg].
Qed.

(** X4: the last file wins.  The record stored under a date is the one of
    the last file of the scan that resolves to this date, whatever came
    before it. *)
Theorem last_scanned_file_wins
    (before after : list md_file) (f : md_file) (day : str) (show : show_data) :
  show_of_file f = Some (day, show) ->
  (forall g show', In g after -> show_of_file g <> Some (day, show')) ->
  dict_get (scan_obsidian_vault (before ++ f :: after)) day = Some show.
Proof.
  intros Hf Hafter.
  change (before ++ f :: after) with (before ++ [f] ++ after).
  rewrite app_assoc, scan_app_other by exact Hafter.
  rewrite scan_snoc, Hf, dict_get_set, str_eqb_refl. reflexivity.
Qed.

Lemma last_scanned_file_wins_witness :
  let doc venue_line :=
    join [NL] [py "---"; venue_line; py "---"; py "**Set 1:** Song A"] in
  let f1 := {| stem := py "2023-05-01"; name := py "a"; path := py "a";
               content := Some (doc (py "venue: First")) |} in
  let f2 := {| stem := py "2023-05-01"; name := py "b"; path := py "b";
               content := Some (doc (py "venue: Second")) |} in
  exists show,
    dict_get (scan_obsidian_vault ([f1] ++ f2 :: [])) (py "2023-05-01") = Some show
    /\ venue show = py "Second".
Proof.
  intros doc f1 f2.
  destruct (show_of_file f2) as [[day show]|] eqn:E; [|vm_compute in E; discriminate E].
  pose proof E as E'. vm_compute in E'. injection E' as Hd Hs.
  assert (Hday : day = py "2023-05-01") by (rewrite <- Hd; vm_compute; reflexivity).
  assert (Hvenue : venue show = py "Second") by (rewrite <- Hs; vm_compute; reflexivity).
  clear Hd Hs. subst day. exists show. split; [|exact Hvenue].
  apply (last_scanned_file_wins [f1] [] f2 _ show E).
  intros g show' [].
Defined.

(** ** The databases of a run *)

Lemma dict_get_not_key {V} (d : dict V) (k : str) :
  ~ In k (map fst d) -> dict_get d k = None.
Proof.
  induction d as [|[k' v'] d IH]; simpl; [reflexivity|].
  intros H. rewrite str_eqb_neq by (intros ->; apply H; left; reflexivity).
  apply IH. intros Hin. apply H. right; exact Hin.
Qed.

Lemma update_shows_get (obsidian_shows : dict show_data) (day : str) :
  List.NoDup (map fst obsidian_shows) ->
  forall shows_db,
    dict_get (update_shows shows_db obsidian_shows) day
    = match dict_get obsidian_shows day with
      | Some show => Some show
      | None => dict_get shows_db day
      end.
Proof.
  unfold update_shows.
  induction obsidian_shows as [|[k v] obs IH]; intros Hnd db; simpl; [reflexivity|].
  inversion Hnd as [|? ? Hk Hobs]; subst.
  rewrite (IH Hobs), dict_get_set.
  destruct (str_eqb k day) eqn:E; [|reflexivity].
  apply str_eqb_eq in E. subst day.
  rewrite dict_get_not_key by exact Hk. reflexivity.
Qed.

Lemma update_shows_noop (items shows_db : dict show_data) :
  (forall k v, In (k, v) items -> dict_get shows_db k = Some v) ->
  update_shows shows_db items = shows_db.
Proof.
  unfold update_shows.
  induction items as [|[k v] items IH]; intros H; simpl; [reflexivity|].
  rewrite dict_set_same by (apply H; left; reflexivity).
  apply IH. intros k' v' Hin. apply H. right; exact Hin.
Qed.

(** X5: in the show database a run saves, a date found in the vault has
    the record of the vault, whatever the loaded database had for it, and
    every other date keeps the entry that was loaded. *)
Theorem run_show_database (loaded : dict show_data) (md_files : list md_file)
    (day : str) :
  dict_get (fst (main_databases loaded md_files)) day
  = match dict_get (scan_obsidian_vault md_files) day with
    | Some show => Some show
    | None => dict_get loaded day
    end.
Proof. apply update_shows_get, scan_NoDup. Qed.

(** X6: a second run over the same files, starting from the show database
    the first run saved, saves the same show database and the same song
    database. *)
Theorem run_twice_same_databases (loaded : dict show_data)
    (md_files : list md_file) :
  main_databases (fst (main_databases loaded md_files)) md_files
  = main_databases loaded md_files.
Proof.
  unfold main_databases. simpl.
  rewrite (update_shows_noop (scan_obsidian_vault md_files)); [reflexivity|].
  intros k v Hin. rewrite update_shows_get by apply scan_NoDup.
  rewrite (dict_get_in _ k v (scan_NoDup md_files) Hin). reflexivity.
Qed.

(** ** Markers and regions *)

Lemma markers_from_spec (lines : list str) :
  forall i n,
    In n (markers_from i lines)
    <-> i <= n /\ n < i + length lines
        /\ strip (nth (n - i) lines []) = py "---".
Proof.
  induction lines as [|line lines IH]; intros i n; cbn [markers_from length].
  - split; [intros [] | lia].
  - assert (Hrest : In n (markers_from (S i) lines)
                    <-> i < n /\ n < i + S (length lines)
                        /\ strip (nth (n - i) (line :: lines) []) = py "---").
    { rewrite IH. split.
      - intros (H1 & H2 & H3). split; [lia|]. split; [lia|].
        replace (n - i) with (S (n - S i)) by lia. exact H3.
      - intros (H1 & H2 & H3). split; [lia|]. split; [lia|].
        replace (n - i) with (S (n - S i)) in H3 by lia. exact H3. }
    destruct (str_eqb (strip line) (py "---")) eqn:E.
    + cbn [In]. rewrite Hrest. split.
      * intros [<-|(H1 & H2 & H3)].
        -- split; [lia|]. split; [lia|]. rewrite Nat.sub_diag.
           apply str_eqb_eq, E.
        -- split; [lia|]. split; assumption.
      * intros (H1 & H2 & H3).
        destruct (Nat.eq_dec i n) as [->|Hne]; [left; reflexivity|].
        right. split; [lia|]. split; assumption.
    + rewrite Hrest. split.
      * intros (H1 & H2 & H3). split; [lia|]. split; assumption.
      * intros (H1 & H2 & H3).
        destruct (Nat.eq_dec i n) as [->|Hne].
        -- rewrite Nat.sub_diag in H3. cbn [nth] in H3.
           apply str_eqb_eq in H3. congruence.
        -- split; [lia|]. split; assumption.
Qed.

Lemma markers_from_increasing (lines : list str) :
  forall i a b,
    a < b -> b < length (markers_from i lines) ->
    nth a (markers_from i lines) 0 < nth b (markers_from i lines) 0.
Proof.
  induction lines as [|line lines IH]; intros i a b Hab Hb;
    cbn [markers_from length] in *; [simpl in Hb; lia|].
  destruct (str_eqb (strip line) (py "---")); [|apply IH; assumption].
  cbn [length] in Hb. destruct b as [|b]; [lia|].
  destruct a as [|a]; cbn [nth].
  - assert (Hin : In (nth b (markers_from (S i) lines) 0) (markers_from (S i) lines))
      by (apply nth_In; lia).
    apply markers_from_spec in Hin. lia.
  - apply IH; lia.
Qed.

(** X7: the markers are exactly the indices of the lines that are [---]
    once stripped, each listed once, in increasing order. *)
Theorem markers_are_the_marker_lines (lines : list str) :
  (forall n, In n (markers lines)
             <-> n < length lines /\ strip (nth n lines []) = py "---")
  /\ (forall a b, a < b -> b < length (markers lines) ->
                  nth a (markers lines) 0 < nth b (markers lines) 0).
Proof.
  split.
  - intros n. unfold markers. rewrite markers_from_spec, Nat.sub_0_r. simpl.
    split; [intros (_ & H); exact H | intros H; split; [lia | exact H]].
  - apply markers_from_increasing.
Qed.

(** No marker lies strictly between two markers that follow each other,
    nor after the last one. *)
Lemma no_marker_between (lines : list str) (j idx : nat) :
  j < length (markers lines) ->
  nth j (markers lines) 0 < idx ->
  (S j < length (markers lines) -> idx < nth (S j) (markers lines) 0) ->
  ~ In idx (markers lines).
Proof.
  intros Hj Hlo Hhi Hin.
  destruct (markers_are_the_marker_lines lines) as [_ Hinc].
  apply (In_nth _ _ 0) in Hin. destruct Hin as (i & Hi & Hnth).
  destruct (Nat.lt_trichotomy i j) as [Hlt|[->|Hgt]].
  - specialize (Hinc i j Hlt Hj). lia.
  - lia.
  - destruct (Nat.eq_dec i (S j)) as [->|Hne].
    + specialize (Hhi Hi). lia.
    + assert (HSj : S j < length (markers lines)) by lia.
      specialize (Hhi HSj).
      specialize (Hinc (S j) i ltac:(lia) Hi). lia.
Qed.

Lemma marker_in_range (lines : list str) (j : nat) :
  j < length (markers lines) -> nth j (markers lines) 0 < length lines.
Proof.
  intros Hj. apply (nth_In _ 0) in Hj.
  apply (proj1 (markers_are_the_marker_lines lines)) in Hj. apply Hj.
Qed.

Lemma map_nth_seq_slice {A} (d : A) (l : list A) (a b : nat) :
  b <= length l ->
  map (fun i => nth i l d) (seq a (b - a)) = slice l a b.
Proof.
  intros Hb. unfold slice.
  rewrite <- (map_nth_seq_skipn d l a).
  destruct (Nat.le_gt_cases a b) as [Hab|Hab].
  - replace (length l - a) with ((b - a) + (length l - b)) by lia.
    rewrite seq_app, map_app, firstn_app, length_map, length_seq.
    rewrite Nat.sub_diag, firstn_O, app_nil_r.
    rewrite firstn_all2 by (rewrite length_map, length_seq; lia). reflexivity.
  - replace (b - a) with 0 by lia. reflexivity.
Qed.

(** The lines with an index from [a] to [b], [b] left out, hold no marker
    when [a] is past marker [j] and [b] is not past the next one. *)
Lemma lines_between_markers (lines : list str) (j a b : nat) (raw : str) :
  j < length (markers lines) ->
  nth j (markers lines) 0 < a ->
  b <= length lines ->
  (S j < length (markers lines) -> b <= nth (S j) (markers lines) 0) ->
  In raw (map (fun idx => nth idx lines []) (seq a (b - a))) ->
  In raw lines /\ strip raw <> py "---".
Proof.
  intros Hj Ha Hb Hnext Hin.
  apply in_map_iff in Hin. destruct Hin as (idx & <- & Hidx).
  apply in_seq in Hidx.
  split; [apply nth_In; lia|].
  intros Hmark.
  apply (no_marker_between lines j idx Hj); [lia | intros H; specialize (Hnext H); lia |].
  apply (proj1 (markers_are_the_marker_lines lines)). split; [lia | exact Hmark].
Qed.

(** X8: the setlist region is the slice of the lines from just after the
    second marker to the third marker, or to the end when there is no
    third one; every line of the setlist region and of the review region
    is a line of the document, and none of them is a marker. *)
Theorem regions_hold_no_marker (lines : list str) :
  (2 <= length (markers lines) ->
   setlist_region lines
   = slice lines (nth 1 (markers lines) 0 + 1)
       (if 3 <=? length (markers lines) then nth 2 (markers lines) 0
        else length lines))
  /\ (forall raw, In raw (setlist_region lines) ->
                  In raw lines /\ strip raw <> py "---")
  /\ (forall review_lines raw,
        review_region lines = Some review_lines -> In raw review_lines ->
        In raw lines /\ strip raw <> py "---").
Proof.
  assert (Hend : forall j,
            (if S j <=? length (markers lines) then nth j (markers lines) 0
             else length lines) <= length lines).
  { intros j. destruct (S j <=? length (markers lines)) eqn:E; [|lia].
    apply Nat.leb_le in E. apply Nat.lt_le_incl, marker_in_range. lia. }
  split; [|split].
  - intros H2. unfold setlist_region, setlist_range.
    destruct (length (markers lines) <? 2) eqn:E; [apply Nat.ltb_lt in E; lia|].
    apply map_nth_seq_slice. apply (Hend 2).
  - intros raw. unfold setlist_region, setlist_range.
    destruct (length (markers lines) <? 2) eqn:E; [intros []|].
    apply Nat.ltb_ge in E.
    apply (lines_between_markers lines 1); [lia | lia | apply (Hend 2) |].
    intros H3. destruct (3 <=? length (markers lines)) eqn:E3; [lia|].
    apply Nat.leb_gt in E3. lia.
  - intros review_lines raw. unfold review_region.
    destruct (length (markers lines) <? 3) eqn:E; [discriminate|].
    apply Nat.ltb_ge in E.
    destruct (4 <=? length (markers lines)) eqn:E4; intros Hr Hin.
    + apply Nat.leb_le in E4.
      assert (Hs : review_lines
                   = slice lines (nth 2 (markers lines) 0 + 1)
                       (nth 3 (markers lines) 0)) by congruence.
      assert (H3 : nth 3 (markers lines) 0 <= length lines)
        by (apply Nat.lt_le_incl, marker_in_range; lia).
      rewrite Hs, <- (map_nth_seq_slice [] lines _ _ H3) in Hin.
      revert Hin. apply (lines_between_markers lines 2);
        [lia | lia | apply Nat.lt_le_incl, marker_in_range; lia | lia].
    + apply Nat.leb_gt in E4.
      assert (Hs : review_lines = skipn (nth 2 (markers lines) 0 + 1) lines)
        by congruence.
      rewrite Hs, <- (map_nth_seq_skipn [] lines) in Hin.
      revert Hin. apply (lines_between_markers lines 2 _ (length lines));
        [lia | lia | lia | lia].
Qed.

(** ** What a scan keeps *)

(** Where a repetition succeeds, it has passed some characters of its set
    and its continuation has succeeded after them. *)
Lemma m_rep_split (greedy : bool) (p : char -> bool) (k : cont)
    (g : groups) (res : result) (s : str) :
  forall (lo : nat) (more : option nat) (pv : option char),
    m_rep greedy p lo more k g pv s = Some res ->
    exists x s',
      s = x ++ s' /\ List.Forall (fun c => p c = true) x /\ lo <= length x
      /\ k (Cursor (passed pv x) s') g = Some res.
Proof.
  induction s as [|c s IH]; intros lo more pv H; simpl in H.
  - destruct lo; [|discriminate].
    exists [], []. split; [reflexivity|]. split; [constructor|]. split; [lia | exact H].
  - assert (Hstop : k (Cursor pv (c :: s)) g = Some res ->
                    lo = 0 ->
                    exists x s', c :: s = x ++ s'
                      /\ List.Forall (fun c => p c = true) x /\ lo <= length x
                      /\ k (Cursor (passed pv x) s') g = Some res).
    { intros Hk ->. exists [], (c :: s). split; [reflexivity|]. split; [constructor|].
      split; [lia | exact Hk]. }
    assert (Hmore : forall lo' more',
               p c = true -> lo <= S lo' ->
               m_rep greedy p lo' more' k g (Some c) s = Some res ->
               exists x s', c :: s = x ++ s'
                 /\ List.Forall (fun c => p c = true) x /\ lo <= length x
                 /\ k (Cursor (passed pv x) s') g = Some res).
    { intros lo' more' Hc Hlo Hm. apply IH in Hm.
      destruct Hm as (x & s' & -> & Hx & Hlen & Hk).
      exists (c :: x), s'. split; [reflexivity|]. split; [constructor; assumption|].
      split; [simpl; lia | exact Hk]. }
    destruct lo as [|lo'].
    + destruct (p c) eqn:Hc; simpl in H; [|auto].
      destruct (may_take more); simpl in H; [|auto].
      destruct greedy.
      * destruct (m_rep true p 0 (one_less more) k g (Some c) s) eqn:E.
        -- injection H as <-. eapply Hmore; eauto.
        -- auto.
      * destruct (k (Cursor pv (c :: s)) g) eqn:E.
        -- injection H as <-. auto.
        -- eapply Hmore; eauto.
    + destruct (p c) eqn:Hc; [|discriminate]. eapply Hmore; eauto.
Qed.

Lemma push_parts (P : char -> Prop) (c : char) (sc : scanned) :
  P c ->
  List.Forall P (snd sc) ->
  List.Forall (fun gm => List.Forall P (fst gm)) (fst sc) ->
  List.Forall P (snd (push c sc))
  /\ List.Forall (fun gm => List.Forall P (fst gm)) (fst (push c sc)).
Proof.
  intros Hc Htl Hms. destruct sc as [[|[gap mt] ms] tl]; simpl in *.
  - split; [constructor; assumption | constructor].
  - inversion Hms; subst. split; [exact Htl|].
    constructor; [constructor; assumption | assumption].
Qed.

(** The texts between the matches and after the last one are made of
    characters of the text scanned, and hold no character at which the
    pattern always matches some text. *)
Lemma scan_from_parts (r : regex) (P : char -> Prop) (q : char -> bool) :
  (forall c pv t, q c = true ->
     exists mt, m_at r (Cursor pv (c :: t)) = Some mt /\ m_text mt <> []) ->
  forall (s : str) (pv : option char) (skip : nat),
    List.Forall P s ->
    List.Forall (fun c => P c /\ q c = false) (snd (scan_from r pv s skip))
    /\ List.Forall (fun gm => List.Forall (fun c => P c /\ q c = false) (fst gm))
                   (fst (scan_from r pv s skip)).
Proof.
  intros Hq. induction s as [|c s IH]; intros pv skip Hs.
  - destruct skip; simpl; [|split; constructor].
    destruct (m_at r (Cursor pv [])); simpl; split; repeat constructor.
  - inversion Hs as [|? ? Hc Hs']; subst.
    destruct skip as [|n]; simpl; [|apply IH; exact Hs'].
    destruct (m_at r (Cursor pv (c :: s))) as [mt|] eqn:E.
    + destruct (length (m_text mt)) as [|n] eqn:El.
      * assert (Hqc : q c = false).
        { destruct (q c) eqn:Eq; [|reflexivity].
          destruct (Hq c pv s Eq) as (mt' & E' & Hne).
          rewrite E in E'. injection E' as <-.
          destruct (m_text mt); [congruence | discriminate El]. }
        destruct (IH (Some c) 0 Hs') as [H1 H2].
        destruct (push_parts _ c _ (conj Hc Hqc) H1 H2) as [H3 H4].
        unfold found; simpl. split; [exact H3|].
        constructor; [constructor | exact H4].
      * destruct (IH (Some c) n Hs') as [H1 H2].
        unfold found; simpl. split; [exact H1|].
        constructor; [constructor | exact H2].
    + assert (Hqc : q c = false).
      { destruct (q c) eqn:Eq; [|reflexivity].
        destruct (Hq c pv s Eq) as (mt' & E' & _). congruence. }
      destruct (IH (Some c) 0 Hs') as [H1 H2].
      apply push_parts; [split|..]; assumption.
Qed.

Lemma sub_from_parts (r : regex) (repl : list piece) (P : char -> Prop)
    (q : char -> bool) (s : str) (pv : option char) :
  (forall c pv t, q c = true ->
     exists mt, m_at r (Cursor pv (c :: t)) = Some mt /\ m_text mt <> []) ->
  (forall mt, List.Forall (fun c => P c /\ q c = false) (expand repl mt)) ->
  List.Forall P s ->
  List.Forall (fun c => P c /\ q c = false) (sub_from r repl pv s).
Proof.
  intros Hq Hrepl Hs. unfold sub_from, render.
  destruct (scan_from_parts r P q Hq s pv 0 Hs) as [H1 H2].
  apply List.Forall_app. split; [|exact H1].
  induction H2 as [|gm ms Hgm Hms IH]; simpl; [constructor|].
  apply List.Forall_app. split; [|exact IH].
  apply List.Forall_app. split; [exact Hgm | apply Hrepl].
Qed.

Lemma sub_from_keeps (r : regex) (t : str) (P : char -> Prop)
    (s : str) (pv : option char) :
  List.Forall P t -> List.Forall P s ->
  List.Forall P (sub_from r [Text t] pv s)
  /\ List.Forall P (sub_from r [] pv s).
Proof.
  intros Ht Hs.
  assert (Hq : forall c pv0 t0, (fun _ : char => false) c = true ->
             exists mt, m_at r (Cursor pv0 (c :: t0)) = Some mt /\ m_text mt <> [])
    by discriminate.
  split.
  - eapply List.Forall_impl;
      [|apply (sub_from_parts r [Text t] P (fun _ => false) s pv Hq)].
    + intros c [Hc _]. exact Hc.
    + intros mt. unfold expand. simpl. rewrite app_nil_r.
      eapply List.Forall_impl; [|exact Ht]. auto.
    + exact Hs.
  - eapply List.Forall_impl;
      [|apply (sub_from_parts r [] P (fun _ => false) s pv Hq)].
    + intros c [Hc _]. exact Hc.
    + intros mt. constructor.
    + exact Hs.
Qed.

(** ** What the tokenizer never returns *)

Lemma lstrip_by_all (p : char -> bool) (s : str) :
  List.Forall (fun c => p c = true) s -> lstrip_by p s = [].
Proof. induction 1 as [|c s Hc Hs IH]; simpl; [reflexivity|]. rewrite Hc. exact IH. Qed.

(** X9: a text of whitespace only, the empty text among them, has no
    song. *)
Theorem blank_text_has_no_song (text : str) :
  List.Forall (fun c => isspace c = true) text ->
  parse_songs_from_setlist text = [].
Proof.
  intros H. unfold parse_songs_from_setlist, strip, strip_by.
  rewrite lstrip_by_all by exact H. reflexivity.
Qed.

Lemma blank_text_has_no_song_witness :
  parse_songs_from_setlist (py "   ") = [].
Proof. apply blank_text_has_no_song. repeat constructor. Defined.

Lemma rstrip_by_Forall (P : char -> Prop) (p : char -> bool) (s : str) :
  List.Forall P s -> List.Forall P (rstrip_by p s).
Proof.
  intros H. unfold rstrip_by.
  apply List.Forall_rev, lstrip_by_Forall, List.Forall_rev, H.
Qed.

(** The cleanup brings in no character but the space. *)
Lemma clean_song_keeps (P : char -> Prop) (part : str) :
  P (ch " ") -> List.Forall P part -> List.Forall P (clean_song part).
Proof.
  intros Hsp Hpart. unfold clean_song, re_sub.
  apply sub_from_keeps; [repeat constructor; exact Hsp|].
  apply strip_by_Forall, rstrip_by_Forall.
  apply (sub_from_keeps count_re [] P); [constructor|].
  apply (sub_from_keeps bracket_time_re [] P); [constructor|].
  apply (sub_from_keeps paren_time_re [] P); [constructor | exact Hpart].
Qed.

(** At an arrow the arrow pattern matches, and at a delimiter the
    separator pattern does. *)
Lemma arrow_always (c : char) (pv : option char) (t : str) :
  arrow_char c = true ->
  exists mt, m_at arrow_re (Cursor pv (c :: t)) = Some mt /\ m_text mt <> [].
Proof.
  intros H. unfold arrow_char in H.
  assert (E : m arrow_re final [] (Cursor pv (c :: t))
              = Some (Cursor (Some c) t, [])).
  { repeat (apply orb_true_iff in H; destruct H as [H|H]);
      apply N.eqb_eq in H; subst c; reflexivity. }
  unfold m_at. rewrite E. eexists. split; [reflexivity|].
  simpl. change (c :: t) with ([c] ++ t). rewrite consumed_app. discriminate.
Qed.

Lemma delimiter_always (c : char) (pv : option char) (t : str) :
  delimiter_char c = true ->
  exists mt, m_at separator_re (Cursor pv (c :: t)) = Some mt /\ m_text mt <> [].
Proof.
  intros H.
  assert (Hsp : isspace c = false /\
                (N.eqb (ch ",") c = true \/ N.eqb (ch ";") c = true
                 \/ N.eqb (ch "|") c = true)).
  { unfold delimiter_char, char_in in H. simpl in H.
    repeat (apply orb_true_iff in H; destruct H as [H|H]);
      try discriminate H; apply N.eqb_eq in H; subst c;
      (split; [reflexivity|]); auto. }
  destruct Hsp as [Hsp Hc].
  destruct (m_rep_zero_some true isspace None final [] (Some c) t) as [res Hres];
    [eexists; reflexivity|].
  assert (E : m separator_re final [] (Cursor pv (c :: t)) = Some res).
  { unfold separator_re, star, lit. cbn [m cat rest prev].
    rewrite m_rep_none_here by exact Hsp. cbn [rest]. rewrite !Hres.
    destruct (N.eqb (ch ",") c); [reflexivity|].
    destruct (N.eqb (ch ";") c); [reflexivity|].
    destruct (N.eqb (ch "|") c); [reflexivity|].
    destruct Hc as [Hc|[Hc|Hc]]; discriminate Hc. }
  destruct (m_rep_split _ _ _ _ _ _ _ _ _ Hres) as (x & s' & -> & _ & _ & Hk).
  unfold final in Hk. injection Hk as <-.
  unfold m_at. rewrite E. eexists. split; [reflexivity|].
  simpl. change (c :: x ++ s') with ((c :: x) ++ s').
  rewrite consumed_app. discriminate.
Qed.

Lemma split_parts_spec (content part : str) :
  In part (split_parts content) ->
  exists piece, In piece (re_split separator_re content) /\ strip piece = part.
Proof.
  unfold split_parts. intros H. apply in_flat_map in H.
  destruct H as (piece & Hpiece & H). exists piece. split; [exact Hpiece|].
  destruct (strip piece); [destruct H | destruct H as [<-|[]]; reflexivity].
Qed.

(** Once the arrows are commas, no arrow is left. *)
Lemma arrows_replaced (s : str) :
  List.Forall (fun c => arrow_char c = false)
              (re_sub arrow_re [Text (py ",")] s).
Proof.
  unfold re_sub.
  assert (H : List.Forall (fun c => True /\ arrow_char c = false)
                (sub_from arrow_re [Text (py ",")] None s)).
  { apply (sub_from_parts arrow_re [Text (py ",")] (fun _ : char => True)
             arrow_char s None arrow_always).
    - intros mt. unfold expand. simpl.
      constructor; [split; [exact I | reflexivity] | constructor].
    - apply List.Forall_forall. intros c _. exact I. }
  eapply List.Forall_impl; [|exact H]. intros c [_ Hc]. exact Hc.
Qed.

(** A piece of the split has no arrow, as the text split, and no
    delimiter. *)
Lemma split_pieces (content piece : str) :
  List.Forall (fun c => arrow_char c = false) content ->
  In piece (re_split separator_re content) ->
  List.Forall (fun c => separator_char c = false) piece.
Proof.
  intros Hcontent Hpiece.
  destruct (scan_from_parts separator_re (fun c : char => arrow_char c = false)
              delimiter_char delimiter_always content None 0 Hcontent)
    as [Htl Hms].
  assert (Hboth : forall c : char,
             arrow_char c = false /\ delimiter_char c = false ->
             separator_char c = false).
  { intros c [H1 H2]. unfold separator_char. rewrite H1, H2. reflexivity. }
  unfold re_split, scan in Hpiece. apply in_app_iff in Hpiece.
  destruct Hpiece as [Hpiece|[<-|[]]].
  - apply in_map_iff in Hpiece. destruct Hpiece as (gm & <- & Hgm).
    rewrite List.Forall_forall in Hms.
    eapply List.Forall_impl; [exact Hboth | exact (Hms gm Hgm)].
  - eapply List.Forall_impl; [exact Hboth | exact Htl].
Qed.

(** X10: a name the tokenizer returns is one of the protected titles, or
    it has none of the characters the tokenizer splits at: no comma, no
    semicolon, no bar, no [>] and none of the three arrow and dash
    glyphs. *)
Theorem tokens_hold_no_separator (text song : str) :
  In song (parse_songs_from_setlist text) ->
  In song SONGS_WITH_COMMAS
  \/ List.Forall (fun c => separator_char c = false) song.
Proof.
  unfold parse_songs_from_setlist.
  destruct (strip text) as [|x0 t0]; [intros []|]. intros Hin.
  apply in_flat_map in Hin. destruct Hin as (part & Hpart & Hin).
  unfold song_of_part in Hin.
  destruct (dict_get (snd (protect text)) part) as [title|] eqn:E.
  - destruct Hin as [<-|[]]. left. eapply replacements_are_titles; eauto.
  - right.
    assert (Hsep : List.Forall (fun c => separator_char c = false) part).
    { apply split_parts_spec in Hpart. destruct Hpart as (piece & Hpiece & <-).
      apply strip_by_Forall.
      apply (split_pieces _ piece (arrows_replaced (fst (protect text))) Hpiece). }
    assert (Hspace : separator_char (ch " ") = false) by reflexivity.
    pose proof (clean_song_keeps (fun c => separator_char c = false)
                  part Hspace Hsep) as Hclean.
    destruct (clean_song part) as [|x u]; [destruct Hin|].
    destruct Hin as [<-|[]]. exact Hclean.
Qed.

Lemma tokens_hold_no_separator_witness :
  List.Forall (fun c => separator_char c = false) (py "Song B").
Proof.
  destruct (tokens_hold_no_separator (py "Song A -> Song B; x") (py "Song B"))
    as [H|H].
  - vm_compute. right; left; reflexivity.
  - exfalso. vm_compute in H. intuition discriminate.
  - exact H.
Defined.

(** ** Wiki links *)

(** A repetition fails when its continuation fails wherever it may
    stop. *)
Lemma m_rep_none (greedy : bool) (p : char -> bool) (k : cont) (g : groups)
    (s : str) :
  forall (lo : nat) (more : option nat) (pv : option char),
    (forall x s', s = x ++ s' -> List.Forall (fun c => p c = true) x ->
                  k (Cursor (passed pv x) s') g = None) ->
    m_rep greedy p lo more k g pv s = None.
Proof.
  induction s as [|c s IH]; intros lo more pv Hk; simpl.
  - destruct lo; [|reflexivity]. apply (Hk [] []); [reflexivity | constructor].
  - assert (Hhere : k (Cursor pv (c :: s)) g = None)
      by (apply (Hk [] (c :: s)); [reflexivity | constructor]).
    assert (Hmore : forall lo' more', p c = true ->
                      m_rep greedy p lo' more' k g (Some c) s = None).
    { intros lo' more' Hc. apply IH. intros x s' -> Hx.
      apply (Hk (c :: x) s'); [reflexivity | constructor; assumption]. }
    destruct lo as [|lo'].
    + destruct (p c) eqn:Hc; simpl; [|exact Hhere].
      destruct (may_take more); [|exact Hhere].
      destruct greedy; rewrite (Hmore _ _ eq_refl), ?Hhere; reflexivity.
    + destruct (p c) eqn:Hc; [apply Hmore; reflexivity | reflexivity].
Qed.

(** A text that splits in two ways, after characters of a set and before
    one that is not of it: the shorter first part is a prefix of the
    other. *)
Lemma prefix_of_run (p : char -> bool) (a r x s' : str) :
  a ++ r = x ++ s' ->
  List.Forall (fun c => p c = true) x ->
  stops p r ->
  exists a2, a = x ++ a2 /\ s' = a2 ++ r.
Proof.
  revert x. induction a as [|c a IH]; intros x E Hx Hr; simpl in E.
  - destruct x as [|y x]; [exists []; split; [reflexivity | exact (eq_sym E)]|].
    exfalso. subst r. simpl in Hr. inversion Hx; subst. congruence.
  - destruct x as [|y x].
    + exists (c :: a). split; [reflexivity | simpl in E; exact (eq_sym E)].
    + simpl in E. injection E as <- E. inversion Hx; subst.
      destruct (IH x E) as (a2 & -> & ->); [assumption | assumption |].
      exists a2. split; reflexivity.
Qed.

Lemma wiki_needs_bracket (c : char) (pv : option char) (t : str) :
  c <> ch "[" ->
  m_at wiki_piped_re (Cursor pv (c :: t)) = None
  /\ m_at wiki_plain_re (Cursor pv (c :: t)) = None.
Proof.
  intros Hc.
  assert (E : N.eqb (ch "[") c = false).
  { destruct (N.eqb (ch "[") c) eqn:E; [|reflexivity].
    apply N.eqb_eq in E. congruence. }
  unfold m_at, wiki_piped_re, wiki_plain_re, lits, lit.
  cbn [m cat map py rest prev]. rewrite E. split; reflexivity.
Qed.

Lemma sub_no_bracket (r : regex) (repl : list piece) (s : str) :
  (forall c pv t, c <> ch "[" -> m_at r (Cursor pv (c :: t)) = None) ->
  (forall pv, m_at r (Cursor pv []) = None) ->
  ~ In (ch "[") s ->
  forall pv, sub_from r repl pv s = s.
Proof.
  intros Hnone Hend Hs pv. rewrite <- (app_nil_r s) at 1.
  rewrite sub_skip, sub_end, app_nil_r; [reflexivity | apply Hend |].
  intros c pv' t Hc. apply Hnone. intros ->. exact (Hs Hc).
Qed.

(** X11: a text without an opening bracket has no link: it is given back
    as it is, stripped. *)
Theorem text_without_links_is_kept (s : str) :
  ~ In (ch "[") s -> clean_wiki_links s = strip s.
Proof.
  intros Hs. unfold clean_wiki_links, re_sub.
  rewrite (sub_no_bracket wiki_piped_re) by
    (try exact Hs; try reflexivity; intros; apply wiki_needs_bracket; assumption).
  rewrite (sub_no_bracket wiki_plain_re) by
    (try exact Hs; try reflexivity; intros; apply wiki_needs_bracket; assumption).
  reflexivity.
Qed.

Lemma text_without_links_is_kept_witness :
  clean_wiki_links (py " Song A > Song B ") = py "Song A > Song B".
Proof.
  rewrite text_without_links_is_kept; [vm_compute; reflexivity|].
  vm_compute. intuition discriminate.
Defined.

(** The piped pattern on a piped link. *)
Lemma piped_match (a b post : str) (pv : option char) :
  a <> [] -> List.Forall (fun c => none_of (py "]|") c = true) a ->
  b <> [] -> List.Forall (fun c => none_of (py "]") c = true) b ->
  exists mt,
    m_at wiki_piped_re
         (Cursor pv ((py "[[" ++ a ++ py "|" ++ b ++ py "]]") ++ post)) = Some mt
    /\ m_text mt = py "[[" ++ a ++ py "|" ++ b ++ py "]]"
    /\ group mt 2 = b.
Proof.
  intros Ha Hap Hb Hbp.
  set (link := py "[[" ++ a ++ py "|" ++ b ++ py "]]").
  assert (Etext : link ++ post
                  = ch "[" :: ch "[" :: a ++ ch "|" :: b ++ ch "]" :: ch "]" :: post).
  { unfold link. cbn [py app]. rewrite <- !app_assoc. cbn [app].
    rewrite <- !app_assoc. reflexivity. }
  assert (E : m wiki_piped_re final [] (Cursor pv (link ++ post))
              = Some (Cursor (Some (ch "]")) post, [(2, b); (1, a)])).
  { rewrite Etext. unfold wiki_piped_re, plus, lits, lit.
    cbn [m cat map py rest prev].
    change (N.eqb (ch "[") (ch "[")) with true. cbv iota.
    apply m_rep_greedy_all;
      [exact Hap | destruct a; [congruence | simpl; lia] | reflexivity |].
    cbn [rest prev]. change (N.eqb (ch "|") (ch "|")) with true. cbv iota.
    apply m_rep_greedy_all;
      [exact Hbp | destruct b; [congruence | simpl; lia] | reflexivity |].
    cbn [rest prev]. change (N.eqb (ch "]") (ch "]")) with true. cbv iota.
    unfold final. rewrite !consumed_app. reflexivity. }
  unfold m_at. rewrite E. eexists. split; [reflexivity|]. split.
  - cbn [m_text]. apply consumed_app.
  - reflexivity.
Qed.

(** The plain pattern on a plain link. *)
Lemma plain_link_match (a post : str) (pv : option char) :
  a <> [] -> List.Forall (fun c => none_of (py "]") c = true) a ->
  exists mt,
    m_at wiki_plain_re (Cursor pv ((py "[[" ++ a ++ py "]]") ++ post)) = Some mt
    /\ m_text mt = py "[[" ++ a ++ py "]]"
    /\ group mt 1 = a.
Proof.
  intros Ha Hap.
  set (link := py "[[" ++ a ++ py "]]").
  assert (Etext : link ++ post = ch "[" :: ch "[" :: a ++ ch "]" :: ch "]" :: post).
  { unfold link. cbn [py app]. rewrite <- !app_assoc. reflexivity. }
  assert (E : m wiki_plain_re final [] (Cursor pv (link ++ post))
              = Some (Cursor (Some (ch "]")) post, [(1, a)])).
  { rewrite Etext. unfold wiki_plain_re, plus, lits, lit.
    cbn [m cat map py rest prev].
    change (N.eqb (ch "[") (ch "[")) with true. cbv iota.
    apply m_rep_greedy_all;
      [exact Hap | destruct a; [congruence | simpl; lia] | reflexivity |].
    cbn [rest prev]. change (N.eqb (ch "]") (ch "]")) with true. cbv iota.
    unfold final. rewrite !consumed_app. reflexivity. }
  unfold m_at. rewrite E. eexists. split; [reflexivity|]. split.
  - cbn [m_text]. apply consumed_app.
  - reflexivity.
Qed.

(** The piped pattern finds nothing at a link without a bar. *)
Lemma piped_none_at_plain_link (a post : str) (pv : option char) :
  List.Forall (fun c => none_of (py "[]|") c = true) a ->
  m_at wiki_piped_re (Cursor pv (ch "[" :: ch "[" :: a ++ ch "]" :: ch "]" :: post))
  = None.
Proof.
  intros Ha.
  assert (Hset : forall c, none_of (py "[]|") c = true ->
                           none_of (py "]|") c = true /\ N.eqb (ch "|") c = false).
  { intros c. unfold none_of, char_in. simpl. intros H.
    apply negb_true_iff in H.
    apply orb_false_iff in H. destruct H as [_ H]. rewrite H.
    apply orb_false_iff in H. destruct H as [_ H].
    apply orb_false_iff in H. destruct H as [H _].
    rewrite N.eqb_sym. auto. }
  unfold m_at, wiki_piped_re, plus, lits, lit. cbn [m cat map py rest prev].
  change (N.eqb (ch "[") (ch "[")) with true. cbv iota.
  rewrite m_rep_none; [reflexivity|].
  intros x s' E Hx.
  destruct (prefix_of_run (none_of (py "]|")) a (ch "]" :: ch "]" :: post) x s' E Hx)
    as (a2 & -> & ->); [reflexivity|].
  cbn [rest]. destruct a2 as [|c a2]; [reflexivity|]. cbn [app].
  apply List.Forall_app in Ha. destruct Ha as [_ Ha]. inversion Ha; subst.
  destruct (Hset c) as [_ ->]; [assumption | reflexivity].
Qed.

Lemma not_in_app3 (c : char) (x y z : str) :
  ~ In c x -> ~ In c y -> ~ In c z -> ~ In c (x ++ y ++ z).
Proof. rewrite !in_app_iff. tauto. Qed.

Lemma none_of_not_in (cs : str) (c : char) (l : str) :
  In c cs -> List.Forall (fun x => none_of cs x = true) l -> ~ In c l.
Proof.
  intros Hc Hl Hin. rewrite List.Forall_forall in Hl. specialize (Hl c Hin).
  unfold none_of, char_in in Hl. apply negb_true_iff in Hl.
  assert (H : existsb (N.eqb c) cs = true)
    by (apply existsb_exists; exists c; split; [exact Hc | apply N.eqb_refl]).
  congruence.
Qed.

(** X12: a piped link [[target|display]] amid text without brackets is
    replaced by its display text: the piped form is handled first, so
    that the target and the bar do not stay. *)
Theorem piped_link_gives_display (pre a b post : str) :
  ~ In (ch "[") pre -> ~ In (ch "[") post ->
  a <> [] -> List.Forall (fun c => none_of (py "]|") c = true) a ->
  b <> [] -> List.Forall (fun c => none_of (py "[]") c = true) b ->
  clean_wiki_links (pre ++ py "[[" ++ a ++ py "|" ++ b ++ py "]]" ++ post)
  = strip (pre ++ b ++ post).
Proof.
  intros Hpre Hpost Ha Hap Hb Hbp.
  assert (Hb1 : List.Forall (fun c => none_of (py "]") c = true) b).
  { eapply List.Forall_impl; [|exact Hbp]. intros c. unfold none_of, char_in. simpl.
    intros H. apply negb_true_iff in H.
    apply orb_false_iff in H. destruct H as [_ H]. rewrite H. reflexivity. }
  assert (Hb2 : ~ In (ch "[") b)
    by (apply (none_of_not_in (py "[]")); [left; reflexivity | exact Hbp]).
  assert (Etext : pre ++ py "[[" ++ a ++ py "|" ++ b ++ py "]]" ++ post
                  = pre ++ (py "[[" ++ a ++ py "|" ++ b ++ py "]]") ++ post).
  { cbn [py app]. rewrite <- !app_assoc. cbn [app]. rewrite <- !app_assoc.
    reflexivity. }
  unfold clean_wiki_links, re_sub. rewrite Etext.
  rewrite sub_skip
    by (intros c pv t Hc; apply wiki_needs_bracket; intros ->; exact (Hpre Hc)).
  destruct (piped_match a b post (passed None pre) Ha Hap Hb Hb1)
    as (mt & Hm & Htext & Hgroup).
  rewrite (sub_step_match _ _ _ _ _ mt Hm Htext) by discriminate.
  rewrite (sub_no_bracket wiki_piped_re [Ref 2] post) by
    (try exact Hpost; try reflexivity; intros; apply wiki_needs_bracket; assumption).
  unfold expand. simpl concat. rewrite Hgroup, app_nil_r.
  rewrite (sub_no_bracket wiki_plain_re) by
    (try (apply not_in_app3; assumption); try reflexivity;
     intros; apply wiki_needs_bracket; assumption).
  reflexivity.
Qed.

Lemma piped_link_gives_display_witness :
  clean_wiki_links (py "Intro > [[Song B (live)|Song B]] > Outro")
  = py "Intro > Song B > Outro".
Proof.
  assert (H1 : ~ In (ch "[") (py "Intro > ")) by (vm_compute; intuition discriminate).
  assert (H2 : ~ In (ch "[") (py " > Outro")) by (vm_compute; intuition discriminate).
  assert (H3 : py "Song B (live)" <> []) by discriminate.
  assert (H4 : List.Forall (fun c => none_of (py "]|") c = true) (py "Song B (live)"))
    by repeat constructor.
  assert (H5 : py "Song B" <> []) by discriminate.
  assert (H6 : List.Forall (fun c => none_of (py "[]") c = true) (py "Song B"))
    by repeat constructor.
  exact (piped_link_gives_display _ _ _ _ H1 H2 H3 H4 H5 H6).
Defined.

(** X13: a link [[target]] without a bar, amid text without brackets, is
    replaced by its target. *)
Theorem plain_link_gives_target (pre a post : str) :
  ~ In (ch "[") pre -> ~ In (ch "[") post ->
  a <> [] -> List.Forall (fun c => none_of (py "[]|") c = true) a ->
  clean_wiki_links (pre ++ py "[[" ++ a ++ py "]]" ++ post)
  = strip (pre ++ a ++ post).
Proof.
  intros Hpre Hpost Ha Hap.
  assert (Ha1 : List.Forall (fun c => none_of (py "]") c = true) a).
  { eapply List.Forall_impl; [|exact Hap]. intros c. unfold none_of, char_in. simpl.
    intros H. apply negb_true_iff in H.
    apply orb_false_iff in H. destruct H as [_ H].
    apply orb_false_iff in H. destruct H as [H _]. rewrite H. reflexivity. }
  assert (Ha2 : ~ In (ch "[") a)
    by (apply (none_of_not_in (py "[]|")); [left; reflexivity | exact Hap]).
  assert (Hrest : ~ In (ch "[") (a ++ ch "]" :: ch "]" :: post)).
  { rewrite in_app_iff. simpl. intros [H|[H|[H|H]]]; try discriminate H; tauto. }
  assert (Etext : pre ++ py "[[" ++ a ++ py "]]" ++ post
                  = pre ++ ch "[" :: ch "[" :: a ++ ch "]" :: ch "]" :: post).
  { cbn [py app]. reflexivity. }
  unfold clean_wiki_links, re_sub.
  (* the piped pattern finds nothing *)
  assert (E1 : sub_from wiki_piped_re [Ref 2] None
                 (pre ++ py "[[" ++ a ++ py "]]" ++ post)
               = pre ++ py "[[" ++ a ++ py "]]" ++ post).
  { rewrite Etext.
    rewrite sub_skip
      by (intros c pv t Hc; apply wiki_needs_bracket; intros ->; exact (Hpre Hc)).
    rewrite sub_step_none by (apply piped_none_at_plain_link; exact Hap).
    rewrite sub_step_none.
    - rewrite (sub_no_bracket wiki_piped_re [Ref 2] _) by
        (try exact Hrest; try reflexivity; intros; apply wiki_needs_bracket; assumption).
      reflexivity.
    - destruct a as [|a0 a']; [congruence|].
      unfold m_at, wiki_piped_re, lits, lit. cbn [m cat map py rest prev app].
      change (N.eqb (ch "[") (ch "[")) with true. cbv iota.
      destruct (N.eqb (ch "[") a0) eqn:E; [|reflexivity].
      apply N.eqb_eq in E. subst a0. exfalso. apply Ha2. left; reflexivity. }
  rewrite E1.
  assert (Etext2 : pre ++ py "[[" ++ a ++ py "]]" ++ post
                   = pre ++ (py "[[" ++ a ++ py "]]") ++ post).
  { cbn [py app]. rewrite <- !app_assoc. reflexivity. }
  rewrite Etext2.
  rewrite sub_skip
    by (intros c pv t Hc; apply wiki_needs_bracket; intros ->; exact (Hpre Hc)).
  destruct (plain_link_match a post (passed None pre) Ha Ha1)
    as (mt & Hm & Htext & Hgroup).
  rewrite (sub_step_match _ _ _ _ _ mt Hm Htext) by discriminate.
  rewrite (sub_no_bracket wiki_plain_re [Ref 1] post) by
    (try exact Hpost; try reflexivity; intros; apply wiki_needs_bracket; assumption).
  unfold expand. simpl concat. rewrite Hgroup, app_nil_r. reflexivity.
Qed.

Lemma plain_link_gives_target_witness :
  clean_wiki_links (py "Intro > [[Song B]] > Outro") = py "Intro > Song B > Outro".
Proof.
  assert (H1 : ~ In (ch "[") (py "Intro > ")) by (vm_compute; intuition discriminate).
  assert (H2 : ~ In (ch "[") (py " > Outro")) by (vm_compute; intuition discriminate).
  assert (H3 : py "Song B" <> []) by discriminate.
  assert (H4 : List.Forall (fun c => none_of (py "[]|") c = true) (py "Song B"))
    by repeat constructor.
  exact (plain_link_gives_target _ _ _ H1 H2 H3 H4).
Defined.

(** ** What the groups of a match hold *)

Lemma search_from_found (r : regex) (s : str) :
  forall pv mt, search_from r pv s = Some mt ->
                exists c, m_at r c = Some mt.
Proof.
  induction s as [|x s IH]; intros pv mt H; simpl in H.
  - destruct (m_at r (Cursor pv [])) eqn:E; [|discriminate].
    injection H as <-. eauto.
  - destruct (m_at r (Cursor pv (x :: s))) eqn:E.
    + injection H as <-. eauto.
    + eapply IH; eauto.
Qed.

Lemma scan_from_found (r : regex) (s : str) :
  forall pv skip gm, In gm (fst (scan_from r pv s skip)) ->
                     exists c, m_at r c = Some (snd gm).
Proof.
  assert (Hpush : forall c sc gm, In gm (fst (push c sc)) ->
                                  exists gm', In gm' (fst sc) /\ snd gm' = snd gm).
  { intros c [[|[gap mt] ms] tl] gm; simpl; [intros []|].
    intros [<-|Hin]; [exists (gap, mt) | exists gm]; simpl; auto. }
  induction s as [|x s IH]; intros pv skip gm Hin.
  - destruct skip; simpl in Hin; [|destruct Hin].
    destruct (m_at r (Cursor pv [])) eqn:E; simpl in Hin; [|destruct Hin].
    destruct Hin as [<-|[]]. eauto.
  - destruct skip as [|n]; simpl in Hin; [|eapply IH; eauto].
    destruct (m_at r (Cursor pv (x :: s))) as [mt|] eqn:E.
    + destruct (length (m_text mt)); simpl in Hin;
        (destruct Hin as [<-|Hin]; [eauto|]).
      * apply Hpush in Hin. destruct Hin as (gm' & Hin & <-). eapply IH; eauto.
      * eapply IH; eauto.
    + apply Hpush in Hin. destruct Hin as (gm' & Hin & <-). eapply IH; eauto.
Qed.

Lemma finditer_found (r : regex) (s : str) (mt : rmatch) :
  In mt (re_finditer r s) -> exists c, m_at r c = Some mt.
Proof.
  unfold re_finditer, scan. intros H. apply in_map_iff in H.
  destruct H as (gm & <- & Hin). eapply scan_from_found; eauto.
Qed.

(** Past the first part of a sequence. *)
Lemma m_seq_peel (r1 r2 : regex) (k : cont) (g : groups) (c : cursor)
    (res : result) :
  m (Seq r1 r2) k g c = Some res ->
  exists c' g', m r2 k g' c' = Some res.
Proof.
  intros H. cbn [m] in H. apply (m_from_cont 0) in H.
  destruct H as (c' & g' & H & _). eauto.
Qed.

(** A group that is a repetition holds characters of the set repeated. *)
Lemma m_seq_group_rep (i : nat) (greedy : bool) (lo : nat) (more : option nat)
    (p : char -> bool) (r2 : regex) (k : cont) (g : groups) (c : cursor)
    (res : result) :
  m (Seq (Group i (Rep greedy lo more p)) r2) k g c = Some res ->
  exists x c',
    List.Forall (fun a => p a = true) x /\ lo <= length x
    /\ m r2 k ((i, x) :: g) c' = Some res.
Proof.
  intros H. cbn [m] in H. apply m_rep_split in H.
  destruct H as (x & s' & E & Hx & Hlo & H).
  destruct c as [pv s]. cbn [rest prev] in *. subst s.
  rewrite consumed_app in H. eauto.
Qed.

(** A group the rest of the pattern does not set is in the match as it
    was. *)
Lemma m_keeps_group (i : nat) (r : regex) (g : groups) (c : cursor)
    (res : result) :
  sets_group i r = false ->
  m r final g c = Some res ->
  group_get (snd res) i = group_get g i.
Proof.
  intros Hi H. apply (m_from_cont i) in H. destruct H as (c' & g' & H & Hg).
  unfold final in H. injection H as <-. simpl. auto.
Qed.

(** The two groups of a [key: value] line: a key without colon and
    newline, a value without newline. *)
Lemma keyvalue_groups (c : cursor) (mt : rmatch) :
  m_at keyvalue_re c = Some mt ->
  List.Forall (fun a => none_of [ch ":"; NL] a = true) (group mt 1)
  /\ List.Forall (fun a => dot a = true) (group mt 2).
Proof.
  unfold m_at. destruct (m keyvalue_re final [] c) as [[c' g']|] eqn:E;
    [|discriminate].
  intros [= <-]. unfold group. cbn [m_groups].
  unfold keyvalue_re, star, plus, lazy_star, lit in E. cbn [cat] in E.
  apply m_seq_peel in E. destruct E as (c1 & g1 & E).
  apply m_seq_peel in E. destruct E as (c2 & g2 & E).
  split.
  - apply m_seq_group_rep in E. destruct E as (x & c3 & Hx & _ & E).
    apply (m_keeps_group 1) in E; [|reflexivity].
    simpl in E. rewrite E. exact Hx.
  - apply m_seq_peel in E. destruct E as (c3 & g3 & E).
    apply m_seq_peel in E. destruct E as (c4 & g4 & E).
    apply m_seq_peel in E. destruct E as (c5 & g5 & E).
    apply m_seq_peel in E. destruct E as (c6 & g6 & E).
    apply m_seq_group_rep in E. destruct E as (x & c7 & Hx & _ & E).
    apply (m_keeps_group 2) in E; [|reflexivity].
    simpl in E. rewrite E. exact Hx.
Qed.

(** ** The entries of the frontmatter *)

(** The group of the date pattern is a date. *)
Lemma date_group_shaped (c : cursor) (dm : rmatch) :
  m_at date_re c = Some dm -> date_shaped (group dm 1) = true.
Proof.
  destruct c as [pv s].
  unfold m_at, final, date_re, times, lit. simpl. intros H.
  do 4 take_char H s. rewrite m_rep_done in H. take_char H s.
  do 2 take_char H s. rewrite m_rep_done in H. take_char H s.
  do 2 take_char H s. rewrite m_rep_done in H.
  cbn [rest prev] in H. injection H as <-. unfold group. cbn [m_groups group_get Nat.eqb].
  match goal with
  | |- date_shaped (consumed (Cursor ?a (?x0 :: ?x1 :: ?x2 :: ?x3 :: ?x4 :: ?x5
                                 :: ?x6 :: ?x7 :: ?x8 :: ?x9 :: ?t)) _) = true =>
      change (x0 :: x1 :: x2 :: x3 :: x4 :: x5 :: x6 :: x7 :: x8 :: x9 :: t)
        with ([x0; x1; x2; x3; x4; x5; x6; x7; x8; x9] ++ t)
  end.
  rewrite consumed_app. simpl.
  repeat match goal with E : _ = true |- _ => rewrite E; clear E end.
  reflexivity.
Qed.

Lemma date_shaped_dot (d : str) :
  date_shaped d = true -> List.Forall (fun c => dot c = true) d.
Proof.
  intros H.
  do 10 (destruct d as [|? d]; [discriminate H|]).
  destruct d; [|discriminate H].
  simpl in H. repeat (apply andb_true_iff in H; destruct H as [H ?]).
  assert (Hdigit : forall a, isdecimal a = true -> dot a = true).
  { intros a Ha. unfold dot. destruct (N.eqb a NL) eqn:E; [|reflexivity].
    apply N.eqb_eq in E. subst a. discriminate Ha. }
  assert (Hhyphen : forall a, N.eqb (ch "-") a = true -> dot a = true).
  { intros a Ha. apply N.eqb_eq in Ha. subst a. reflexivity. }
  repeat constructor; auto.
Qed.

Lemma frontmatter_entry_keeps (metadata : dict str) (mt : rmatch) :
  (exists c, m_at keyvalue_re c = Some mt) ->
  (forall k v, dict_get metadata k = Some v -> frontmatter_entry_ok k v) ->
  forall k v, dict_get (frontmatter_entry metadata mt) k = Some v ->
              frontmatter_entry_ok k v.
Proof.
  intros [c Hm] Hmeta k v. unfold frontmatter_entry.
  destruct (keyvalue_groups c mt Hm) as [Hkey Hval].
  set (value := strip_chars (py "'") (strip_chars [DQUOTE] (strip (group mt 2)))).
  assert (Hvalue : List.Forall (fun a => dot a = true) value).
  { unfold value, strip_chars, strip. repeat apply strip_by_Forall. exact Hval. }
  destruct value as [|x value'] eqn:Ev; [apply Hmeta|].
  rewrite dict_get_set.
  destruct (str_eqb (strip (group mt 1)) k) eqn:Ek; [|apply Hmeta].
  apply str_eqb_eq in Ek. subst k.
  destruct (strip_by_ends isspace (group mt 1)) as [Hs1 Hs2].
  assert (Hk : List.Forall (fun a => none_of [ch ":"; NL] a = true)
                           (strip (group mt 1)))
    by (apply strip_by_Forall; exact Hkey).
  destruct (str_eqb (lower (strip (group mt 1))) (py "date")) eqn:Ed.
  - destruct (re_search date_re (x :: value')) as [dm|] eqn:Es; intros [= <-].
    + apply search_from_found in Es. destruct Es as (c' & Hdm).
      apply date_group_shaped in Hdm.
      split; [intros E; rewrite E in Hdm; discriminate Hdm|].
      split; [apply date_shaped_dot, Hdm|].
      split; [exact Hk|]. split; [exact Hs1|]. split; [exact Hs2|].
      intros _. left. exact Hdm.
    + split; [discriminate|]. split; [exact Hvalue|].
      split; [exact Hk|]. split; [exact Hs1|]. split; [exact Hs2|].
      intros _. right. exact Es.
  - intros [= <-].
    split; [discriminate|]. split; [exact Hvalue|].
    split; [exact Hk|]. split; [exact Hs1|]. split; [exact Hs2|].
    intros E. rewrite E, str_eqb_refl in Ed. discriminate Ed.
Qed.

Lemma frontmatter_entries_ok (content k v : str) :
  dict_get (parse_obsidian_frontmatter content) k = Some v ->
  frontmatter_entry_ok k v.
Proof.
  unfold parse_obsidian_frontmatter.
  destruct (re_search frontmatter_re content) as [fm|]; [|discriminate].
  generalize (finditer_found keyvalue_re (group fm 1)).
  generalize (re_finditer keyvalue_re (group fm 1)). intros ms Hms.
  assert (H : forall metadata,
            (forall k v, dict_get metadata k = Some v -> frontmatter_entry_ok k v) ->
            forall k v, dict_get (fold_left frontmatter_entry ms metadata) k = Some v ->
                        frontmatter_entry_ok k v).
  { induction ms as [|mt ms IH]; intros metadata Hmeta; simpl; [exact Hmeta|].
    apply IH; [intros mt' Hin; apply Hms; right; exact Hin|].
    apply frontmatter_entry_keeps; [apply Hms; left; reflexivity | exact Hmeta]. }
  apply H. discriminate.
Qed.

(** X14: every entry of the mapping the frontmatter parser returns has a
    value that is not empty and holds no newline, and a key that holds
    neither colon nor newline and has no whitespace at either end. *)
Theorem frontmatter_entries_are_well_formed (content k v : str) :
  dict_get (parse_obsidian_frontmatter content) k = Some v ->
  v <> [] /\ ~ In NL v
  /\ ~ In NL k /\ ~ In (ch ":") k
  /\ stops isspace k /\ stops isspace (rev k).
Proof.
  intros H. apply frontmatter_entries_ok in H.
  destruct H as (Hv & Hdot & Hk & Hs1 & Hs2 & _).
  split; [exact Hv|]. split; [|split; [|split; [|split; assumption]]].
  - intros Hin. rewrite List.Forall_forall in Hdot. specialize (Hdot NL Hin).
    discriminate Hdot.
  - apply (none_of_not_in [ch ":"; NL]); [right; left; reflexivity | exact Hk].
  - apply (none_of_not_in [ch ":"; NL]); [left; reflexivity | exact Hk].
Qed.

Lemma frontmatter_entries_are_well_formed_witness :
  let content := join [NL] [py "---"; py "venue :  'The Hall' "; py "tour:";
                            py "---"] in
  dict_get (parse_obsidian_frontmatter content) (py "venue") = Some (py "The Hall")
  /\ py "The Hall" <> [].
Proof.
  intros content.
  assert (H : dict_get (parse_obsidian_frontmatter content) (py "venue")
              = Some (py "The Hall")) by (vm_compute; reflexivity).
  split; [exact H|].
  exact (proj1 (frontmatter_entries_are_well_formed content _ _ H)).
Defined.

(** Where a search finds its match: at the first place the pattern
    matches at. *)
Lemma search_from_first (r : regex) (s : str) :
  forall pv mt,
    search_from r pv s = Some mt ->
    exists a b,
      s = a ++ b /\ m_at r (Cursor (passed pv a) b) = Some mt
      /\ forall a1 a2, a = a1 ++ a2 -> a2 <> [] ->
           m_at r (Cursor (passed pv a1) (a2 ++ b)) = None.
Proof.
  induction s as [|c s IH]; intros pv mt H; cbn [search_from] in H.
  - destruct (m_at r (Cursor pv [])) eqn:E; [|discriminate H].
    injection H as ->. exists [], []. split; [reflexivity|].
    split; [exact E|]. intros a1 a2 E12 Hne.
    destruct a1; destruct a2; try discriminate E12. congruence.
  - destruct (m_at r (Cursor pv (c :: s))) eqn:E.
    + injection H as ->. exists [], (c :: s). split; [reflexivity|].
      split; [exact E|]. intros a1 a2 E12 Hne.
      destruct a1; destruct a2; try discriminate E12. congruence.
    + destruct (IH _ _ H) as (a & b & -> & Hm & Hfirst).
      exists (c :: a), b. split; [reflexivity|]. split; [exact Hm|].
      intros a1 a2 E12 Hne. destruct a1 as [|x a1].
      * cbn [app] in E12. subst a2. exact E.
      * cbn [app] in E12. injection E12 as <- E12. cbn [passed app].
        apply Hfirst; assumption.
Qed.

Lemma search_from_nowhere (r : regex) (s : str) :
  forall pv, search_from r pv s = None ->
             forall a b, s = a ++ b -> m_at r (Cursor (passed pv a) b) = None.
Proof.
  induction s as [|c s IH]; intros pv H a b E; cbn [search_from] in H.
  - destruct (m_at r (Cursor pv [])) eqn:E0; [discriminate H|].
    destruct a; destruct b; try discriminate E. exact E0.
  - destruct (m_at r (Cursor pv (c :: s))) eqn:E0; [discriminate H|].
    destruct a as [|x a].
    + cbn [app] in E. subst b. exact E0.
    + cbn [app] in E. injection E as <- E. cbn [passed].
      apply (IH _ H _ _ E).
Qed.

(** The date pattern matches exactly where a text of the form YYYY-MM-DD
    starts, and its group is that text. *)
Lemma date_at_head (pv : option char) (s : str) (dm : rmatch) :
  m_at date_re (Cursor pv s) = Some dm -> exists t, s = group dm 1 ++ t.
Proof.
  unfold m_at, final, date_re, times, lit. simpl. intros H.
  do 4 take_char H s. rewrite m_rep_done in H. take_char H s.
  do 2 take_char H s. rewrite m_rep_done in H. take_char H s.
  do 2 take_char H s. rewrite m_rep_done in H.
  cbn [rest prev] in H. injection H as <-. exists s.
  unfold group. cbn [m_groups group_get Nat.eqb].
  match goal with
  | |- _ = consumed (Cursor ?a (?x0 :: ?x1 :: ?x2 :: ?x3 :: ?x4 :: ?x5
                                 :: ?x6 :: ?x7 :: ?x8 :: ?x9 :: ?t)) _ ++ _ =>
      change (consumed (Cursor a (x0 :: x1 :: x2 :: x3 :: x4 :: x5
                                  :: x6 :: x7 :: x8 :: x9 :: t)))
        with (consumed (Cursor a ([x0; x1; x2; x3; x4; x5; x6; x7; x8; x9] ++ t)))
  end.
  rewrite consumed_app. reflexivity.
Qed.

Lemma date_at_match (pv : option char) (d tail : str) :
  date_shaped d = true ->
  exists mt, m_at date_re (Cursor pv (d ++ tail)) = Some mt.
Proof.
  intros H.
  do 10 (destruct d as [|? d]; [discriminate H|]).
  destruct d; [|discriminate H].
  simpl in H. repeat (apply andb_true_iff in H; destruct H as [H ?]).
  unfold m_at, final, date_re, times, lit. simpl.
  repeat match goal with E : _ = true |- _ => rewrite E; clear E end.
  rewrite ?andb_false_r. simpl. rewrite m_rep_done. eexists. reflexivity.
Qed.

Lemma app_prefix_split {A} (a' : list A) :
  forall a b c,
    a ++ b = a' ++ c -> length a' < length a ->
    exists a2, a = a' ++ a2 /\ a2 <> [] /\ c = a2 ++ b.
Proof.
  induction a' as [|x a' IH]; intros a b c E Hlen.
  - exists a. split; [reflexivity|]. split; [|symmetry; exact E].
    intros ->. simpl in Hlen. lia.
  - destruct a as [|y a]; [simpl in Hlen; lia|].
    cbn [app] in E. injection E as -> E.
    destruct (IH a b c E) as (a2 & -> & Hne & ->); [simpl in Hlen; lia|].
    exists a2. split; [reflexivity|]. split; [exact Hne | reflexivity].
Qed.

(** What a search for the date makes of a value: the first date in it, or
    the value itself when it holds none. *)
Lemma first_date_of (raw : str) :
  match re_search date_re raw with
  | Some dm =>
      date_shaped (group dm 1) = true
      /\ exists a b,
           raw = a ++ group dm 1 ++ b
           /\ forall a' d b', raw = a' ++ d ++ b' -> date_shaped d = true ->
                              length a <= length a'
  | None => forall a d b, raw = a ++ d ++ b -> date_shaped d = false
  end.
Proof.
  unfold re_search. destruct (search_from date_re None raw) as [dm|] eqn:E.
  - destruct (search_from_first _ _ _ _ E) as (a & rest' & Eraw & Hm & Hfirst).
    split; [apply (date_group_shaped _ _ Hm)|].
    destruct (date_at_head _ _ _ Hm) as (b & Eb).
    exists a, b. split; [rewrite Eraw, Eb; reflexivity|].
    intros a' d b' E' Hd.
    destruct (Nat.le_gt_cases (length a) (length a')) as [Hle|Hlt];
      [exact Hle|]. exfalso.
    rewrite Eraw in E'.
    destruct (app_prefix_split a' a rest' (d ++ b') E' Hlt)
      as (a2 & Ea & Hne & E2).
    specialize (Hfirst a' a2 Ea Hne). rewrite <- E2 in Hfirst.
    destruct (date_at_match (passed None a') d b' Hd) as (mt & Hmt).
    congruence.
  - intros a d b Eraw. destruct (date_shaped d) eqn:Hd; [|reflexivity].
    pose proof (search_from_nowhere _ _ _ E a (d ++ b) Eraw) as Hnone.
    destruct (date_at_match (passed None a) d b Hd) as (mt & Hmt).
    congruence.
Qed.

(** Every entry comes from a match of the line pattern. *)
Lemma frontmatter_entry_source (ms : list rmatch) :
  forall metadata k v,
    dict_get (fold_left frontmatter_entry ms metadata) k = Some v ->
    dict_get metadata k = Some v
    \/ exists mt,
         In mt ms /\ k = strip (group mt 1) /\ line_value mt <> []
         /\ v = if str_eqb (lower k) (py "date")
                then match re_search date_re (line_value mt) with
                     | Some dm => group dm 1
                     | None => line_value mt
                     end
                else line_value mt.
Proof.
  induction ms as [|m0 ms IH]; intros metadata k v H; [left; exact H|].
  cbn [fold_left] in H. destruct (IH _ _ _ H) as [H0|(mt & Hin & Hrest)].
  - unfold frontmatter_entry in H0. fold (line_value m0) in H0.
    destruct (line_value m0) as [|x raw] eqn:Er; [left; exact H0|].
    rewrite dict_get_set in H0.
    destruct (str_eqb (strip (group m0 1)) k) eqn:Ek; [|left; exact H0].
    apply str_eqb_eq in Ek. subst k. injection H0 as <-.
    right. exists m0. split; [left; reflexivity|]. split; [reflexivity|].
    rewrite Er. split; [discriminate | reflexivity].
  - right. exists mt. split; [right; exact Hin | exact Hrest].
Qed.

(** X15: under a key that is [date] once in lower case, the value stored
    comes from a match of the line pattern in the block, with this key,
    and it is the first date of the form YYYY-MM-DD in the value of that
    match, no such date starting earlier in it; or it is the value of the
    match itself, when that holds no such date anywhere. *)
Theorem frontmatter_date_is_canonical (content k v : str) :
  dict_get (parse_obsidian_frontmatter content) k = Some v ->
  lower k = py "date" ->
  exists fm mt,
    re_search frontmatter_re content = Some fm
    /\ In mt (re_finditer keyvalue_re (group fm 1))
    /\ k = strip (group mt 1)
    /\ ((date_shaped v = true
         /\ exists a b,
              line_value mt = a ++ v ++ b
              /\ forall a' d b', line_value mt = a' ++ d ++ b' ->
                                 date_shaped d = true ->
                                 length a <= length a')
        \/ (v = line_value mt
            /\ forall a d b, line_value mt = a ++ d ++ b ->
                             date_shaped d = false)).
Proof.
  intros H Hk. unfold parse_obsidian_frontmatter in H.
  destruct (re_search frontmatter_re content) as [fm|]; [|discriminate H].
  exists fm.
  destruct (frontmatter_entry_source _ _ _ _ H) as [H0|(mt & Hin & Ek & _ & Ev)];
    [discriminate H0|].
  exists mt. split; [reflexivity|]. split; [exact Hin|]. split; [exact Ek|].
  rewrite Hk, str_eqb_refl in Ev.
  pose proof (first_date_of (line_value mt)) as Hd.
  destruct (re_search date_re (line_value mt)) as [dm|]; subst v.
  - left. exact Hd.
  - right. split; [reflexivity | exact Hd].
Qed.

Lemma frontmatter_date_is_canonical_witness :
  let content := join [NL] [py "---"; py "Date: Monday 2023-05-01 (evening)";
                            py "---"] in
  dict_get (parse_obsidian_frontmatter content) (py "Date") = Some (py "2023-05-01")
  /\ exists fm mt,
       re_search frontmatter_re content = Some fm
       /\ In mt (re_finditer keyvalue_re (group fm 1))
       /\ py "Date" = strip (group mt 1)
       /\ ((date_shaped (py "2023-05-01") = true
            /\ exists a b,
                 line_value mt = a ++ py "2023-05-01" ++ b
                 /\ forall a' d b', line_value mt = a' ++ d ++ b' ->
                                    date_shaped d = true ->
                                    length a <= length a')
           \/ (py "2023-05-01" = line_value mt
               /\ forall a d b, line_value mt = a ++ d ++ b ->
                                date_shaped d = false)).
Proof.
  intros content.
  assert (H : dict_get (parse_obsidian_frontmatter content) (py "Date")
              = Some (py "2023-05-01")) by (vm_compute; reflexivity).
  split; [exact H|].
  exact (frontmatter_date_is_canonical content _ _ H eq_refl).
Defined.

(** ** The entries of the Section Map *)

(** A header line starts with two asterisks, and its label has neither
    asterisk nor colon. *)
Lemma header_shape (line : str) (mt : rmatch) :
  re_match header_re line = Some mt ->
  (exists rest, line = py "**" ++ rest)
  /\ List.Forall (fun a => none_of (py "*:") a = true) (group mt 1).
Proof.
  unfold re_match, m_at.
  destruct (m header_re final [] (Cursor None line)) as [[c' g']|] eqn:E;
    [|discriminate].
  intros [= <-]. unfold group. cbn [m_groups]. split.
  - unfold header_re, times in E. cbn [cat m rest prev] in E.
    destruct line as [|x1 line]; [discriminate E|].
    cbn [m_rep] in E. destruct (only (ch "*") x1) eqn:E1; [|discriminate E].
    destruct line as [|x2 line]; [discriminate E|].
    cbn [m_rep] in E. destruct (only (ch "*") x2) eqn:E2; [|discriminate E].
    apply N.eqb_eq in E1, E2. subst x1 x2. exists line. reflexivity.
  - unfold header_re, plus in E. cbn [cat] in E.
    apply m_seq_peel in E. destruct E as (c1 & g1 & E).
    apply m_seq_group_rep in E. destruct E as (x & c2 & Hx & _ & E).
    apply (m_keeps_group 1) in E; [|reflexivity].
    simpl in E. rewrite E. exact Hx.
Qed.

Lemma setlist_line_entry (sets0 : dict str) (raw k v : str) :
  dict_get (setlist_line sets0 raw) k = Some v ->
  dict_get sets0 k = Some v
  \/ exists mt, re_match header_re (strip raw) = Some mt
                /\ k = strip (group mt 1)
                /\ v = clean_wiki_links (group mt 2).
Proof.
  unfold setlist_line. destruct (strip raw) as [|x line] eqn:Es; [auto|].
  destruct (re_match header_re (x :: line)) as [mt|] eqn:Em; [|auto].
  rewrite dict_get_set.
  destruct (str_eqb (strip (group mt 1)) k) eqn:E; [|auto].
  apply str_eqb_eq in E. intros [= <-]. right. exists mt. auto.
Qed.

(** X16: every entry of the Section Map comes from a line of the setlist
    region that is a header: stripped, the line starts with two asterisks
    and matches the header pattern, the key is its label stripped, with no
    asterisk and no colon, and the value is its content with the links
    cleaned, with no whitespace at either end.  Other lines leave
    nothing. *)
Theorem section_map_entries_come_from_headers (content k v : str) :
  dict_get (parse_obsidian_setlist content) k = Some v ->
  (exists raw mt rest,
     In raw (setlist_region (splitlines content))
     /\ strip raw = py "**" ++ rest
     /\ re_match header_re (strip raw) = Some mt
     /\ k = strip (group mt 1)
     /\ v = clean_wiki_links (group mt 2))
  /\ ~ In (ch "*") k /\ ~ In (ch ":") k
  /\ stops isspace k /\ stops isspace (rev k)
  /\ stops isspace v /\ stops isspace (rev v).
Proof.
  intros H.
  assert (Hsrc : exists raw mt,
             In raw (setlist_region (splitlines content))
             /\ re_match header_re (strip raw) = Some mt
             /\ k = strip (group mt 1)
             /\ v = clean_wiki_links (group mt 2)).
  { unfold parse_obsidian_setlist in H.
    induction (setlist_region (splitlines content)) as [|raw rows IH] using rev_ind;
      [discriminate H|].
    rewrite fold_left_app in H. simpl in H.
    apply setlist_line_entry in H. destruct H as [H|(mt & Hm & Hk & Hv)].
    - destruct (IH H) as (raw' & mt & Hin & Hrest).
      exists raw', mt. split; [apply in_app_iff; left; exact Hin | exact Hrest].
    - exists raw, mt. split; [apply in_app_iff; right; left; reflexivity | auto]. }
  destruct Hsrc as (raw & mt & Hin & Hm & -> & ->).
  destruct (header_shape _ _ Hm) as [[rest Hrest] Hlabel].
  destruct (strip_by_ends isspace (group mt 1)) as [Hk1 Hk2].
  split; [exists raw, mt, rest; auto|].
  assert (Hk : List.Forall (fun a => none_of (py "*:") a = true) (strip (group mt 1)))
    by (apply strip_by_Forall; exact Hlabel).
  split; [apply (none_of_not_in (py "*:")); [left; reflexivity | exact Hk]|].
  split; [apply (none_of_not_in (py "*:")); [right; left; reflexivity | exact Hk]|].
  split; [exact Hk1|]. split; [exact Hk2|].
  unfold clean_wiki_links. apply strip_by_ends.
Qed.

Lemma section_map_entries_come_from_headers_witness :
  let content := join [NL] [py "---"; py "date: 2023-05-01"; py "---";
                            py "notes on the show";
                            py "**Set 1:** [[Song A]] > Song B"] in
  dict_get (parse_obsidian_setlist content) (py "Set 1") = Some (py "Song A > Song B")
  /\ exists raw mt rest,
       In raw (setlist_region (splitlines content))
       /\ strip raw = py "**" ++ rest
       /\ re_match header_re (strip raw) = Some mt
       /\ py "Set 1" = strip (group mt 1)
       /\ py "Song A > Song B" = clean_wiki_links (group mt 2).
Proof.
  intros content.
  assert (H : dict_get (parse_obsidian_setlist content) (py "Set 1")
              = Some (py "Song A > Song B")) by (vm_compute; reflexivity).
  split; [exact H|].
  exact (proj1 (section_map_entries_come_from_headers content _ _ H)).
Defined.

(** ** The review and its MVP marker *)

Lemma mvp_needs_star (c : char) (pv : option char) (t : str) :
  c <> ch "*" -> m_at mvp_re (Cursor pv (c :: t)) = None.
Proof.
  intros Hc.
  assert (E : N.eqb (ch "*") c = false).
  { destruct (N.eqb (ch "*") c) eqn:E; [|reflexivity].
    apply N.eqb_eq in E. congruence. }
  unfold m_at, mvp_re, lits, lit. cbn [m cat map py rest prev].
  rewrite E. reflexivity.
Qed.

Lemma sub_mvp_no_star (s : str) (pv : option char) :
  ~ In (ch "*") s -> sub_from mvp_re [] pv s = s.
Proof.
  intros Hs. rewrite <- (app_nil_r s) at 1.
  rewrite sub_skip, sub_end, app_nil_r; [reflexivity | reflexivity |].
  intros c pv' t Hc. apply mvp_needs_star. intros ->. exact (Hs Hc).
Qed.

(** The marker at the end of the text, and at the end of a line. *)
Lemma mvp_match_end (pv : option char) :
  m_at mvp_re (Cursor pv (py "**MVP:**" ++ []))
  = Some (Match (py "**MVP:**") [] (Cursor (Some (ch "*")) [])).
Proof. reflexivity. Qed.

Lemma mvp_match_line (pv : option char) (u : str) :
  u <> [] -> stops isspace u ->
  m_at mvp_re (Cursor pv (py "**MVP:**" ++ NL :: u))
  = Some (Match (py "**MVP:**") [] (Cursor (Some (ch "*")) (NL :: u))).
Proof.
  intros Hu Hs.
  assert (E : m mvp_re final [] (Cursor pv (py "**MVP:**" ++ NL :: u))
              = Some (Cursor (Some (ch "*")) (NL :: u), [])).
  { unfold mvp_re, lits, lit, star. cbn [m cat map py rest prev app].
    repeat (rewrite N.eqb_refl; cbv iota).
    rewrite m_rep_greedy_step by reflexivity.
    rewrite m_rep_none_here by exact Hs.
    destruct u as [|u0 u']; [congruence|]. simpl in Hs.
    assert (Hu0 : N.eqb u0 NL = false).
    { destruct (N.eqb u0 NL) eqn:E; [|reflexivity].
      apply N.eqb_eq in E. subst u0. discriminate Hs. }
    unfold at_eol. cbn [rest]. rewrite Hu0. reflexivity. }
  unfold m_at. rewrite E. cbn [rest prev].
  rewrite (consumed_app pv (Some (ch "*")) (py "**MVP:**") (NL :: u)). reflexivity.
Qed.

Lemma strip_strip (s : str) : strip (strip s) = strip s.
Proof.
  destruct (strip_by_ends isspace s) as [H1 H2].
  apply strip_by_fixed; assumption.
Qed.

(** X17: the review is the lines of the review region joined and stripped,
    less the marker [**MVP:**] where it ends a line.  Without an
    asterisk the text is given as it is; a marker at the very end goes,
    and so does a marker at the end of a line inside the text. *)
Theorem review_loses_mvp_marker (content : str) (review_lines : list str) :
  review_region (splitlines content) = Some review_lines ->
  let joined := strip (join [NL] review_lines) in
  (~ In (ch "*") joined -> extract_review_section content = joined)
  /\ (forall t, joined = t ++ py "**MVP:**" -> ~ In (ch "*") t ->
                extract_review_section content = strip t)
  /\ (forall t u, joined = t ++ py "**MVP:**" ++ NL :: u ->
                  ~ In (ch "*") t -> ~ In (ch "*") u ->
                  u <> [] -> stops isspace u ->
                  extract_review_section content = strip (t ++ NL :: u)).
Proof.
  intros Hregion joined.
  unfold extract_review_section. rewrite Hregion. fold joined. unfold re_sub.
  split; [|split].
  - intros Hs. rewrite sub_mvp_no_star by exact Hs. apply strip_strip.
  - intros t -> Ht.
    rewrite sub_skip
      by (intros c pv' t' Hc; apply mvp_needs_star; intros ->; exact (Ht Hc)).
    rewrite <- (app_nil_r (py "**MVP:**")).
    rewrite (sub_step_match _ _ _ _ _ _ (mvp_match_end _)) by (reflexivity || discriminate).
    rewrite sub_end by reflexivity. rewrite !app_nil_r. reflexivity.
  - intros t u -> Ht Hu Hne Hs.
    rewrite sub_skip
      by (intros c pv' t' Hc; apply mvp_needs_star; intros ->; exact (Ht Hc)).
    rewrite (sub_step_match _ _ _ _ _ _ (mvp_match_line _ u Hne Hs))
      by (reflexivity || discriminate).
    rewrite sub_mvp_no_star; [reflexivity|].
    intros [E|Hin]; [discriminate E | exact (Hu Hin)].
Qed.

Lemma review_loses_mvp_marker_witness :
  let content := join [NL] [py "---"; py "date: 2023-05-01"; py "---";
                            py "**Set 1:** Song A"; py "---";
                            py "A fine show."; py "**MVP:**"] in
  extract_review_section content = py "A fine show.".
Proof.
  intros content.
  assert (Hregion : review_region (splitlines content)
                    = Some [py "A fine show."; py "**MVP:**"])
    by (vm_compute; reflexivity).
  destruct (review_loses_mvp_marker content _ Hregion) as (_ & H & _).
  rewrite (H (py "A fine show." ++ [NL])).
  - vm_compute. reflexivity.
  - vm_compute. reflexivity.
  - vm_compute. intuition discriminate.
Defined.

(** ** Names written between separators *)

(** A substitution changes nothing where its pattern matches nowhere. *)
Lemma sub_none_everywhere (r : regex) (repl : list piece) (Q : str -> Prop) :
  (forall c t, Q (c :: t) -> Q t) ->
  (forall pv s, Q s -> m_at r (Cursor pv s) = None) ->
  forall s pv, Q s -> sub_from r repl pv s = s.
Proof.
  intros Htail Hnone. induction s as [|c s IH]; intros pv Hs.
  - apply sub_end, Hnone, Hs.
  - rewrite sub_step_none by (apply Hnone, Hs).
    rewrite IH by (eapply Htail; eauto). reflexivity.
Qed.

Lemma no_digit_tail (x s' : str) :
  List.Forall (fun c => isdecimal c = false) (x ++ s') ->
  stops isdecimal s'.
Proof.
  intros H. apply List.Forall_app in H. destruct H as [_ H].
  destruct H; [exact I | assumption].
Qed.

(** The three patterns of the cleanup need a digit. *)
Lemma paren_needs_digit (pv : option char) (s : str) :
  List.Forall (fun c => isdecimal c = false) s ->
  m_at paren_time_re (Cursor pv s) = None.
Proof.
  intros Hs. unfold m_at, paren_time_re, star, plus, lit. cbn [m cat rest prev].
  rewrite m_rep_none; [reflexivity|].
  intros x s' -> _. cbn [rest].
  destruct s' as [|c s'']; [reflexivity|].
  destruct (N.eqb (ch "(") c); [|reflexivity].
  apply m_rep_must_take.
  apply (no_digit_tail (x ++ [c])). rewrite <- app_assoc. exact Hs.
Qed.

Lemma bracket_needs_digit (pv : option char) (s : str) :
  List.Forall (fun c => isdecimal c = false) s ->
  m_at bracket_time_re (Cursor pv s) = None.
Proof.
  intros Hs. unfold m_at, bracket_time_re, star, plus, lit. cbn [m cat rest prev].
  rewrite m_rep_none; [reflexivity|].
  intros x s' -> _. cbn [rest].
  destruct s' as [|c s'']; [reflexivity|].
  destruct (N.eqb (ch "[") c); [|reflexivity].
  apply m_rep_none. intros y s3 -> _.
  apply m_rep_must_take.
  apply (no_digit_tail (x ++ c :: y)). rewrite <- app_assoc. exact Hs.
Qed.

Lemma count_needs_digit (pv : option char) (s : str) :
  List.Forall (fun c => isdecimal c = false) s ->
  m_at count_re (Cursor pv s) = None.
Proof.
  intros Hs. unfold m_at, count_re, plus. cbn [m cat rest prev].
  rewrite m_rep_none; [reflexivity|].
  intros x s' -> _. apply m_rep_must_take. apply (no_digit_tail x). exact Hs.
Qed.

Lemma sub_no_digit (r : regex) (s : str) :
  (forall pv t, List.Forall (fun c => isdecimal c = false) t ->
                m_at r (Cursor pv t) = None) ->
  List.Forall (fun c => isdecimal c = false) s ->
  re_sub r [] s = s.
Proof.
  intros Hr Hs. unfold re_sub.
  apply (sub_none_everywhere r [] (List.Forall (fun c => isdecimal c = false)));
    [|exact Hr | exact Hs].
  intros c t H. inversion H; assumption.
Qed.

(** What a song name is made of. *)
Lemma song_name_spec (n : str) :
  song_name n = true ->
  tidy n = true
  /\ List.Forall (fun c => name_char c = true) n
  /\ ends_with_hyphen n = false.
Proof.
  unfold song_name. intros H.
  apply andb_true_iff in H. destruct H as [H H3].
  apply andb_true_iff in H. destruct H as [H1 H2].
  split; [exact H1|]. split; [|apply negb_true_iff, H3].
  apply List.Forall_forall. intros c Hc.
  rewrite forallb_forall in H2. apply H2, Hc.
Qed.

Lemma name_char_spec (c : char) :
  name_char c = true ->
  isdecimal c = false /\ arrow_char c = false /\ delimiter_char c = false
  /\ (isspace c = true -> c = ch " ").
Proof.
  unfold name_char, separator_char. intros H.
  apply andb_true_iff in H. destruct H as [H H3].
  apply andb_true_iff in H. destruct H as [H1 H2].
  apply negb_true_iff in H1, H2. apply orb_false_iff in H2.
  destruct H2 as [Ha Hd]. repeat split; try assumption.
  intros Hs. rewrite Hs in H3. simpl in H3. apply N.eqb_eq, H3.
Qed.

Lemma tidy_ends (n : str) :
  tidy n = true ->
  n <> [] /\ stops isspace n /\ stops isspace (rev n) /\ single_spaced n = true.
Proof.
  unfold tidy. intros H.
  apply andb_true_iff in H. destruct H as [H H3].
  apply andb_true_iff in H. destruct H as [H1 H2].
  split; [intros ->; discriminate H1|].
  split; [destruct n; [exact I | apply negb_true_iff, H1]|].
  split; [destruct (rev n); [exact I | apply negb_true_iff, H2] | exact H3].
Qed.

(** One space for every run of whitespace changes nothing where the
    whitespace is single spaces. *)
Lemma collapse_single_spaced (s : str) :
  single_spaced s = true ->
  List.Forall (fun c => isspace c = true -> c = ch " ") s ->
  forall in_run, (in_run = true -> stops isspace s) -> collapse in_run s = s.
Proof.
  induction s as [|c s IH]; intros Hss Hsp in_run Hrun; [reflexivity|].
  inversion Hsp as [|? ? Hc Hs]; subst.
  assert (Hss' : single_spaced s = true).
  { destruct s as [|c2 s']; [reflexivity|].
    change (single_spaced (c :: c2 :: s'))
      with (negb (isspace c && isspace c2) && single_spaced (c2 :: s')) in Hss.
    apply andb_true_iff in Hss. apply Hss. }
  simpl. destruct (isspace c) eqn:E.
  - destruct in_run; [specialize (Hrun eq_refl); simpl in Hrun; congruence|].
    rewrite (Hc eq_refl). f_equal. apply IH; try assumption.
    intros _. destruct s as [|c2 s']; [exact I|].
    change (single_spaced (c :: c2 :: s'))
      with (negb (isspace c && isspace c2) && single_spaced (c2 :: s')) in Hss.
    apply andb_true_iff in Hss. destruct Hss as [Hss _].
    rewrite E in Hss. simpl in Hss. apply negb_true_iff, Hss.
  - f_equal. apply IH; try assumption. discriminate.
Qed.

(** The cleanup leaves a song name as it is. *)
Lemma clean_song_name (n : str) : song_name n = true -> clean_song n = n.
Proof.
  intros H. apply song_name_spec in H. destruct H as (Htidy & Hchars & Hhyphen).
  apply tidy_ends in Htidy. destruct Htidy as (Hne & Hs1 & Hs2 & Hss).
  assert (Hdigit : List.Forall (fun c => isdecimal c = false) n).
  { eapply List.Forall_impl; [|exact Hchars]. intros c Hc.
    apply name_char_spec in Hc. apply Hc. }
  assert (Hspace : List.Forall (fun c => isspace c = true -> c = ch " ") n).
  { eapply List.Forall_impl; [|exact Hchars]. intros c Hc.
    apply name_char_spec in Hc. apply Hc. }
  unfold clean_song.
  rewrite (sub_no_digit paren_time_re) by (exact Hdigit || apply paren_needs_digit).
  rewrite (sub_no_digit bracket_time_re) by (exact Hdigit || apply bracket_needs_digit).
  rewrite (sub_no_digit count_re) by (exact Hdigit || apply count_needs_digit).
  assert (E : rstrip_chars (py "-") n = n).
  { unfold rstrip_chars, rstrip_by. unfold ends_with_hyphen in Hhyphen.
    destruct (rev n) as [|c r] eqn:Er.
    - apply (f_equal (@rev char)) in Er. rewrite rev_involutive in Er.
      simpl in *. symmetry. exact Er.
    - cbn [lstrip_by].
      assert (Hin : char_in c (py "-") = false).
      { unfold char_in. simpl. rewrite Hhyphen. reflexivity. }
      rewrite Hin, <- Er. apply rev_involutive. }
  rewrite E. unfold strip. rewrite strip_by_fixed by assumption.
  unfold re_sub. rewrite (sub_spaces_collapse (length n)) by lia.
  apply collapse_single_spaced; [assumption | assumption | discriminate].
Qed.

(** A chain of single-character tests fails under every continuation
    where it fails on its own. *)
Lemma chars_chain_none (ps : list (char -> bool)) :
  forall (k : cont) (g : groups) (c : cursor),
    m (cat (map Chr ps)) final g c = None ->
    m (cat (map Chr ps)) k g c = None.
Proof.
  induction ps as [|p ps IH]; intros k g c H; [discriminate H|].
  destruct ps as [|p2 ps].
  - cbn [map cat m] in *. destruct (rest c) as [|x s']; [reflexivity|].
    destruct (p x); [discriminate H | reflexivity].
  - change (cat (map Chr (p :: p2 :: ps)))
      with (Seq (Chr p) (cat (map Chr (p2 :: ps)))) in *.
    cbn [m] in *. destruct (rest c) as [|x s']; [reflexivity|].
    destruct (p x); [|reflexivity]. apply IH, H.
Qed.

Lemma lits_i_chain (s : str) :
  lits_i s = cat (map Chr (map (fun c x => N.eqb (fold_case x) (fold_case c)) s)).
Proof. unfold lits_i, lit_i. rewrite map_map. reflexivity. Qed.

(** A title followed by something else is found nowhere the title alone
    is not. *)
Lemma search_from_weaker (r r' : regex) :
  (forall c, m_at r c = None -> m_at r' c = None) ->
  forall s pv, search_from r pv s = None -> search_from r' pv s = None.
Proof.
  intros Hw. induction s as [|c s IH]; intros pv H.
  - cbn [search_from] in *. destruct (m_at r (Cursor pv [])) eqn:E; [discriminate|].
    rewrite (Hw _ E). reflexivity.
  - cbn [search_from] in *.
    destruct (m_at r (Cursor pv (c :: s))) eqn:E; [discriminate|].
    rewrite (Hw _ E). apply IH, H.
Qed.

Lemma title_then_more (song : str) (r2 : regex) (text : str) :
  re_search (lits_i song) text = None ->
  re_search (Seq (lits_i song) r2) text = None.
Proof.
  apply search_from_weaker. intros c. unfold m_at. cbn [m].
  rewrite lits_i_chain.
  destruct (m (cat (map Chr _)) final [] c) eqn:E; [destruct r; discriminate|].
  intros _. rewrite (chars_chain_none _ _ _ _ E). reflexivity.
Qed.

(** Where no protected title occurs, the protection step changes nothing. *)
Lemma protect_nothing (text : str) :
  (forall song, In song SONGS_WITH_COMMAS ->
     re_search (lits_i song) text = None) ->
  protect text = (text, []).
Proof.
  intros H. unfold protect.
  assert (Hstep : forall entry, In (snd entry) SONGS_WITH_COMMAS ->
                    protect_song (text, []) entry = (text, [])).
  { intros entry Hin. unfold protect_song, song_patterns. cbn [first_found fst].
    rewrite (title_then_more _ _ _ (H _ Hin)).
    rewrite (title_then_more _ _ _ (H _ Hin)).
    rewrite (H _ Hin). reflexivity. }
  unfold enumerate. cbn [SONGS_WITH_COMMAS length seq combine fold_left].
  rewrite !Hstep; [reflexivity | | |]; cbn [snd SONGS_WITH_COMMAS In]; auto.
Qed.

(** Whitespace is no arrow, no delimiter and no hyphen. *)
Lemma space_is_no_mark (c : char) :
  isspace c = true ->
  arrow_char c = false /\ delimiter_char c = false /\ c <> ch "-".
Proof.
  intros H. split; [|split].
  - destruct (arrow_char c) eqn:E; [|reflexivity]. unfold arrow_char in E.
    repeat (apply orb_true_iff in E; destruct E as [E|E]);
      apply N.eqb_eq in E; subst c; vm_compute in H; discriminate H.
  - destruct (delimiter_char c) eqn:E; [|reflexivity].
    unfold delimiter_char, char_in in E. simpl in E.
    repeat (apply orb_true_iff in E; destruct E as [E|E]);
      try discriminate E; apply N.eqb_eq in E; subst c;
      vm_compute in H; discriminate H.
  - intros ->. vm_compute in H. discriminate H.
Qed.

Lemma delimiter_is_no_space (d : char) :
  delimiter_char d = true -> isspace d = false /\ arrow_char d = false /\ d <> ch "-".
Proof.
  intros E. unfold delimiter_char, char_in in E. simpl in E.
  repeat (apply orb_true_iff in E; destruct E as [E|E]);
    try discriminate E; apply N.eqb_eq in E; subst d;
    (split; [reflexivity | split; [reflexivity | discriminate]]).
Qed.

(** The arrow pattern matches at an arrow character or at a hyphen
    before [>], nowhere else. *)
Lemma arrow_none_at (c : char) (pv : option char) (t : str) :
  arrow_char c = false ->
  (c = ch "-" -> match t with x :: _ => x <> ch ">" | [] => True end) ->
  m_at arrow_re (Cursor pv (c :: t)) = None.
Proof.
  intros Ha Hh. unfold arrow_char in Ha.
  apply orb_false_iff in Ha. destruct Ha as [Ha H4].
  apply orb_false_iff in Ha. destruct Ha as [Ha H3].
  apply orb_false_iff in Ha. destruct Ha as [H1 H2].
  rewrite N.eqb_sym in H1, H2, H3, H4.
  unfold m_at, arrow_re, lits, lit. cbn [py map cat m rest].
  change (list_ascii_of_string "->") with ["-"%char; ">"%char].
  cbn [py map cat m rest].
  rewrite H1, H2, H3, H4.
  destruct (N.eqb (ch "-") c) eqn:E; [|reflexivity].
  apply N.eqb_eq in E. symmetry in E. specialize (Hh E).
  destruct t as [|x t]; [reflexivity|].
  destruct (N.eqb (ch ">") x) eqn:E2; [|reflexivity].
  apply N.eqb_eq in E2. congruence.
Qed.

Lemma arrow_none_end (pv : option char) : m_at arrow_re (Cursor pv []) = None.
Proof. reflexivity. Qed.

Lemma arrow_match_one (c : char) (pv : option char) (s : str) :
  arrow_char c = true ->
  exists mt, m_at arrow_re (Cursor pv ([c] ++ s)) = Some mt /\ m_text mt = [c].
Proof.
  intros H. unfold arrow_char in H.
  assert (E : m arrow_re final [] (Cursor pv (c :: s))
              = Some (Cursor (Some c) s, [])).
  { repeat (apply orb_true_iff in H; destruct H as [H|H]);
      apply N.eqb_eq in H; subst c; reflexivity. }
  unfold m_at. cbn [app]. rewrite E. eexists. split; [reflexivity|].
  cbn [m_text]. change (c :: s) with ([c] ++ s). apply consumed_app.
Qed.

Lemma arrow_match_two (pv : option char) (s : str) :
  exists mt, m_at arrow_re (Cursor pv (py "->" ++ s)) = Some mt
             /\ m_text mt = py "->".
Proof.
  assert (E : m arrow_re final [] (Cursor pv (py "->" ++ s))
              = Some (Cursor (Some (ch ">")) s, [])) by reflexivity.
  unfold m_at. rewrite E. eexists. split; [reflexivity|].
  cbn [m_text]. apply consumed_app.
Qed.

(** Skipping a stretch of text in which the pattern matches at no
    position, whatever follows. *)
Lemma sub_skip_at (r : regex) (repl : list piece) (a s : str) :
  (forall a1 c a2 pv, a = a1 ++ c :: a2 ->
     m_at r (Cursor pv (c :: a2 ++ s)) = None) ->
  forall pv,
    sub_from r repl pv (a ++ s) = a ++ sub_from r repl (passed pv a) s.
Proof.
  induction a as [|x a IH]; intros Hnone pv; [reflexivity|].
  cbn [app passed]. rewrite sub_step_none by (apply (Hnone [] x a); reflexivity).
  f_equal. apply IH. intros a1 c a2 pv' ->. apply (Hnone (x :: a1)). reflexivity.
Qed.

(** *** The fragments of a split *)

Lemma split_push (c : char) (sc : scanned) :
  map fst (fst (push c sc)) ++ [snd (push c sc)]
  = prepend [c] (map fst (fst sc) ++ [snd sc]).
Proof. destruct sc as [[|[gap mt] ms] tl]; reflexivity. Qed.

Lemma split_step_none (r : regex) (pv : option char) (c : char) (s : str) :
  m_at r (Cursor pv (c :: s)) = None ->
  split_from r pv (c :: s) = prepend [c] (split_from r (Some c) s).
Proof.
  intros H. unfold split_from. cbn [scan_from]. rewrite H. apply split_push.
Qed.

Lemma split_end (r : regex) (pv : option char) :
  m_at r (Cursor pv []) = None -> split_from r pv [] = [[]].
Proof. intros H. unfold split_from. cbn [scan_from]. rewrite H. reflexivity. Qed.

Lemma split_step_match (r : regex) (pv : option char) (x s : str)
    (mt : rmatch) :
  m_at r (Cursor pv (x ++ s)) = Some mt ->
  m_text mt = x ->
  x <> [] ->
  split_from r pv (x ++ s) = [] :: split_from r (passed pv x) s.
Proof.
  intros H Hx Hne. unfold split_from.
  destruct x as [|c x]; [congruence|].
  cbn [app] in *. cbn [scan_from]. rewrite H, Hx. cbn [length].
  rewrite scan_skip. reflexivity.
Qed.

Lemma prepend_prepend (a b : str) (l : list str) :
  prepend a (prepend b l) = prepend (a ++ b) l.
Proof. destruct l; simpl; rewrite <- ?app_assoc; reflexivity. Qed.

Lemma split_from_nonempty (r : regex) (pv : option char) (s : str) :
  split_from r pv s <> [].
Proof. unfold split_from. destruct (map fst _); discriminate. Qed.

Lemma split_skip_at (r : regex) (a s : str) :
  (forall a1 c a2 pv, a = a1 ++ c :: a2 ->
     m_at r (Cursor pv (c :: a2 ++ s)) = None) ->
  forall pv,
    split_from r pv (a ++ s) = prepend a (split_from r (passed pv a) s).
Proof.
  induction a as [|x a IH]; intros Hnone pv.
  - cbn [app passed]. pose proof (split_from_nonempty r pv s) as Hne.
    destruct (split_from r pv s); [congruence | reflexivity].
  - cbn [app passed].
    rewrite split_step_none by (apply (Hnone [] x a); reflexivity).
    rewrite IH, prepend_prepend; [reflexivity|].
    intros a1 c a2 pv' ->. apply (Hnone (x :: a1)). reflexivity.
Qed.

(** *** The separator pattern *)

Lemma delimiter_needed (k : cont) (g : groups) (pv : option char)
    (c : char) (t : str) :
  delimiter_char c = false ->
  m (Alt (lit (ch ",")) (Alt (lit (ch ";")) (lit (ch "|")))) k g
    (Cursor pv (c :: t)) = None.
Proof.
  intros H. unfold delimiter_char, char_in in H. simpl in H.
  apply orb_false_iff in H. destruct H as [H1 H].
  apply orb_false_iff in H. destruct H as [H2 H].
  apply orb_false_iff in H. destruct H as [H3 _].
  rewrite N.eqb_sym in H1, H2, H3.
  unfold lit. cbn [m rest]. rewrite H1, H2, H3. reflexivity.
Qed.

Lemma delimiter_needed_end (k : cont) (g : groups) (pv : option char) :
  m (Alt (lit (ch ",")) (Alt (lit (ch ";")) (lit (ch "|")))) k g
    (Cursor pv []) = None.
Proof. reflexivity. Qed.

Lemma separator_none_at (c : char) (pv : option char) (t : str) :
  delimiter_char c = false ->
  (isspace c = true ->
   exists x t', t = x :: t' /\ isspace x = false /\ delimiter_char x = false) ->
  m_at separator_re (Cursor pv (c :: t)) = None.
Proof.
  intros Hd Hs. unfold m_at, separator_re, star.
  change (cat [Rep true 0 None isspace;
               Alt (lit #",") (Alt (lit #";") (lit #"|"));
               Rep true 0 None isspace])
    with (Seq (Rep true 0 None isspace)
              (Seq (Alt (lit (ch ",")) (Alt (lit (ch ";")) (lit (ch "|"))))
                   (Rep true 0 None isspace))).
  cbn [m rest prev].
  rewrite m_rep_none; [reflexivity|].
  intros x0 s' E Hx0.
  destruct x0 as [|y x0].
  - cbn [app] in E. subst s'. cbn [passed]. apply delimiter_needed, Hd.
  - cbn [app] in E. injection E as Ey E. subst y.
    apply List.Forall_cons_iff in Hx0. destruct Hx0 as [Hc Hrest].
    destruct (Hs Hc) as (x & t' & Et & Hx & Hdx). rewrite Et in E.
    destruct x0 as [|z x0].
    + cbn [app] in E. subst s'. apply delimiter_needed, Hdx.
    + cbn [app] in E. injection E as Ez E. subst z.
      apply List.Forall_cons_iff in Hrest. destruct Hrest as [Hz _]. congruence.
Qed.

Lemma separator_none_end (pv : option char) :
  m_at separator_re (Cursor pv []) = None.
Proof. reflexivity. Qed.

Lemma separator_match (pv : option char) (lead trail s : str) (d : char) :
  List.Forall (fun c => isspace c = true) lead ->
  delimiter_char d = true ->
  List.Forall (fun c => isspace c = true) trail ->
  stops isspace s ->
  exists mt,
    m_at separator_re (Cursor pv ((lead ++ d :: trail) ++ s)) = Some mt
    /\ m_text mt = lead ++ d :: trail.
Proof.
  intros Hl Hd Ht Hs.
  destruct (delimiter_is_no_space d Hd) as (Hsd & _ & _).
  assert (Hc : N.eqb (ch ",") d = true \/ N.eqb (ch ";") d = true
               \/ N.eqb (ch "|") d = true).
  { unfold delimiter_char, char_in in Hd. simpl in Hd.
    rewrite !(N.eqb_sym d) in Hd.
    repeat (apply orb_true_iff in Hd; destruct Hd as [Hd|Hd]);
      try discriminate Hd; auto. }
  assert (E : m separator_re final []
                (Cursor pv ((lead ++ d :: trail) ++ s))
              = Some (Cursor (passed (Some d) trail) s, [])).
  { unfold separator_re, star.
    change (cat [Rep true 0 None isspace;
                 Alt (lit #",") (Alt (lit #";") (lit #"|"));
                 Rep true 0 None isspace])
      with (Seq (Rep true 0 None isspace)
                (Seq (Alt (lit (ch ",")) (Alt (lit (ch ";")) (lit (ch "|"))))
                     (Rep true 0 None isspace))).
    cbn [m rest prev]. rewrite <- app_assoc. cbn [app].
    apply m_rep_greedy_all; [exact Hl | lia | exact Hsd |].
    assert (Hk : m_rep true isspace 0 None final [] (Some d) (trail ++ s)
                 = Some (Cursor (passed (Some d) trail) s, [])).
    { apply m_rep_greedy_all; [exact Ht | lia | exact Hs | reflexivity]. }
    unfold lit. cbn [m rest prev]. rewrite !Hk.
    destruct (N.eqb (ch ",") d); [reflexivity|].
    destruct (N.eqb (ch ";") d); [reflexivity|].
    destruct (N.eqb (ch "|") d); [reflexivity|].
    destruct Hc as [Hc|[Hc|Hc]]; discriminate Hc. }
  unfold m_at. rewrite E. eexists. split; [reflexivity|].
  cbn [m_text]. apply consumed_app.
Qed.

(** *** Names between separators *)

(** A character of a song name: whitespace and a hyphen are followed by
    another character of the name. *)
Lemma name_positions (n a1 a2 : str) (c : char) :
  song_name n = true ->
  n = a1 ++ c :: a2 ->
  name_char c = true
  /\ (isspace c = true ->
      exists x a3, a2 = x :: a3 /\ isspace x = false /\ name_char x = true)
  /\ (c = ch "-" -> exists x a3, a2 = x :: a3 /\ name_char x = true).
Proof.
  intros H ->. destruct (song_name_spec _ H) as (Htidy & Hchars & Hhy).
  destruct (tidy_spec _ Htidy) as (_ & _ & Hlast & Hpair).
  apply List.Forall_app in Hchars. destruct Hchars as [_ Hchars].
  apply List.Forall_cons_iff in Hchars. destruct Hchars as [Hc Ha2].
  split; [exact Hc|]. split.
  - intros Hs. destruct a2 as [|x a3].
    + specialize (Hlast a1 c eq_refl). congruence.
    + exists x, a3. split; [reflexivity|]. split.
      * apply (Hpair a1 c x a3 eq_refl Hs).
      * apply List.Forall_cons_iff in Ha2. apply Ha2.
  - intros ->. destruct a2 as [|x a3].
    + unfold ends_with_hyphen in Hhy. rewrite rev_app_distr in Hhy.
      cbn [rev app] in Hhy. rewrite N.eqb_refl in Hhy. discriminate Hhy.
    + exists x, a3. split; [reflexivity|].
      apply List.Forall_cons_iff in Ha2. apply Ha2.
Qed.

Lemma name_no_arrow (n s : str) :
  song_name n = true ->
  forall a1 c a2 pv, n = a1 ++ c :: a2 ->
    m_at arrow_re (Cursor pv (c :: a2 ++ s)) = None.
Proof.
  intros H a1 c a2 pv E.
  destruct (name_positions _ _ _ _ H E) as (Hc & _ & Hh).
  apply name_char_spec in Hc. destruct Hc as (_ & Ha & _ & _).
  apply arrow_none_at; [exact Ha|].
  intros Ec. destruct (Hh Ec) as (x & a3 & -> & Hx).
  cbn [app]. intros ->. apply name_char_spec in Hx.
  destruct Hx as (_ & Hx & _). vm_compute in Hx. discriminate Hx.
Qed.

Lemma name_no_separator (n s : str) :
  song_name n = true ->
  forall a1 c a2 pv, n = a1 ++ c :: a2 ->
    m_at separator_re (Cursor pv (c :: a2 ++ s)) = None.
Proof.
  intros H a1 c a2 pv E.
  destruct (name_positions _ _ _ _ H E) as (Hc & Hs & _).
  apply name_char_spec in Hc. destruct Hc as (_ & _ & Hd & _).
  apply separator_none_at; [exact Hd|].
  intros Hsp. destruct (Hs Hsp) as (x & a3 & -> & Hx & Hn).
  exists x, (a3 ++ s). split; [reflexivity|]. split; [exact Hx|].
  apply name_char_spec in Hn. apply Hn.
Qed.

Lemma name_starts (n : str) :
  song_name n = true ->
  exists c t, n = c :: t /\ isspace c = false.
Proof.
  intros H. destruct (song_name_spec _ H) as (Htidy & _ & _).
  destruct (tidy_spec _ Htidy) as (Hne & Hfirst & _).
  destruct n as [|c t]; [congruence|].
  exists c, t. split; [reflexivity | apply (Hfirst c t eq_refl)].
Qed.

(** Every mark becomes one delimiter when the arrows are replaced. *)
Lemma mark_replaced (mark : str) :
  In mark separator_marks ->
  exists d, delimiter_char d = true /\
    forall pv s,
      sub_from arrow_re [Text (py ",")] pv (mark ++ s)
      = d :: sub_from arrow_re [Text (py ",")] (passed pv mark) s.
Proof.
  assert (Hcopy : forall d, delimiter_char d = true ->
            forall pv s,
              sub_from arrow_re [Text (py ",")] pv ([d] ++ s)
              = d :: sub_from arrow_re [Text (py ",")] (passed pv [d]) s).
  { intros d Hd pv s. destruct (delimiter_is_no_space d Hd) as (_ & Ha & Hh).
    cbn [app passed]. apply sub_step_none, arrow_none_at; [exact Ha|].
    intros E. congruence. }
  assert (Hone : forall c, arrow_char c = true ->
            forall pv s,
              sub_from arrow_re [Text (py ",")] pv ([c] ++ s)
              = ch "," :: sub_from arrow_re [Text (py ",")] (passed pv [c]) s).
  { intros c Hc pv s. destruct (arrow_match_one c pv s Hc) as (mt & Hm & Ht).
    rewrite (sub_step_match _ _ _ _ _ _ Hm Ht) by discriminate. reflexivity. }
  unfold separator_marks. cbn [In].
  intros [<-|[<-|[<-|[<-|[<-|[<-|[<-|[<-|[]]]]]]]]].
  - exists (ch ","). split; [reflexivity|]. apply (Hcopy (ch ",")). reflexivity.
  - exists (ch ";"). split; [reflexivity|]. apply (Hcopy (ch ";")). reflexivity.
  - exists (ch "|"). split; [reflexivity|]. apply (Hcopy (ch "|")). reflexivity.
  - exists (ch ","). split; [reflexivity|]. apply (Hone (ch ">")). reflexivity.
  - exists (ch ","). split; [reflexivity|]. intros pv s.
    destruct (arrow_match_two pv s) as (mt & Hm & Ht).
    rewrite (sub_step_match _ _ _ _ _ _ Hm Ht) by discriminate. reflexivity.
  - exists (ch ","). split; [reflexivity|]. apply (Hone 8594%N). reflexivity.
  - exists (ch ","). split; [reflexivity|]. apply (Hone 8211%N). reflexivity.
  - exists (ch ","). split; [reflexivity|]. apply (Hone 8212%N). reflexivity.
Qed.

Lemma spaces_no_arrow (w : str) :
  List.Forall (fun c => isspace c = true) w ->
  forall c pv t, In c w -> m_at arrow_re (Cursor pv (c :: t)) = None.
Proof.
  intros Hw c pv t Hc. rewrite List.Forall_forall in Hw.
  destruct (space_is_no_mark c (Hw c Hc)) as (Ha & _ & Hh).
  apply arrow_none_at; [exact Ha | intros E; congruence].
Qed.

(** Replacing the arrows leaves the names and turns every separator into
    whitespace around one delimiter. *)
Lemma arrows_in_written (more : list (str * str)) :
  List.Forall (fun p => is_separator (fst p) /\ song_name (snd p) = true) more ->
  exists more' : list (str * str),
    map snd more' = map snd more
    /\ List.Forall
         (fun p => (exists lead d trail,
                      fst p = lead ++ d :: trail
                      /\ List.Forall (fun c => isspace c = true) lead
                      /\ delimiter_char d = true
                      /\ List.Forall (fun c => isspace c = true) trail)
                   /\ song_name (snd p) = true) more'
    /\ forall pv,
         sub_from arrow_re [Text (py ",")] pv
                  (concat (map (fun p => fst p ++ snd p) more))
         = concat (map (fun p => fst p ++ snd p) more').
Proof.
  induction 1 as [|[sep name] more [Hsep Hname] _ IH].
  - exists []. split; [reflexivity|]. split; [constructor|].
    intros pv. apply sub_end, arrow_none_end.
  - destruct IH as (more' & Hmap & Hall & Hsub).
    cbn [fst snd] in Hsep, Hname.
    destruct Hsep as (lead & mark & trail & -> & Hl & Hm & Ht).
    destruct (mark_replaced mark Hm) as (d & Hd & Hmark).
    exists (((lead ++ d :: trail) : str, name) :: more').
    split; [cbn [map snd]; rewrite Hmap; reflexivity|]. split.
    + constructor; [|exact Hall]. cbn [fst snd]. split; [|exact Hname].
      exists lead, d, trail. auto.
    + intros pv. cbn [map concat fst snd]. rewrite <- !app_assoc.
      rewrite (sub_skip _ _ lead) by (apply spaces_no_arrow, Hl).
      rewrite Hmark.
      rewrite (sub_skip _ _ trail) by (apply spaces_no_arrow, Ht).
      rewrite (sub_skip_at _ _ name) by (apply name_no_arrow, Hname).
      rewrite Hsub. cbn [app]. rewrite <- ?app_assoc. reflexivity.
Qed.

(** Splitting at the delimiters gives the names back. *)
Lemma split_written (more : list (str * str)) :
  List.Forall
    (fun p => (exists lead d trail,
                 fst p = lead ++ d :: trail
                 /\ List.Forall (fun c => isspace c = true) lead
                 /\ delimiter_char d = true
                 /\ List.Forall (fun c => isspace c = true) trail)
              /\ song_name (snd p) = true) more ->
  forall first pv,
    song_name first = true ->
    split_from separator_re pv (written first more) = first :: map snd more.
Proof.
  unfold written.
  induction 1 as [|[sep name] more [Hsep Hname] _ IH]; intros first pv Hf.
  - cbn [map concat].
    rewrite (split_skip_at _ first) by (apply name_no_separator, Hf).
    rewrite split_end by apply separator_none_end.
    cbn [prepend]. rewrite app_nil_r. reflexivity.
  - cbn [fst snd] in Hsep, Hname.
    destruct Hsep as (lead & d & trail & -> & Hl & Hd & Ht).
    cbn [map concat fst snd].
    rewrite (split_skip_at _ first) by (apply name_no_separator, Hf).
    rewrite <- (app_assoc (lead ++ d :: trail)).
    assert (Hstops : stops isspace
              (name ++ concat (map (fun p => fst p ++ snd p) more))).
    { destruct (name_starts name Hname) as (c & t & -> & Hc). exact Hc. }
    destruct (separator_match (passed pv first) lead trail _ d Hl Hd Ht Hstops)
      as (mt & Hm & Htxt).
    rewrite (split_step_match _ _ _ _ _ Hm Htxt) by (destruct lead; discriminate).
    rewrite IH by exact Hname.
    cbn [prepend]. rewrite app_nil_r. reflexivity.
Qed.

Lemma flat_map_singletons {A} (f : A -> list A) (l : list A) :
  (forall x, In x l -> f x = [x]) -> flat_map f l = l.
Proof.
  induction l as [|a l IH]; intros H; [reflexivity|].
  cbn [flat_map]. rewrite (H a) by (left; reflexivity).
  rewrite IH by (intros x Hx; apply H; right; exact Hx). reflexivity.
Qed.

Lemma strip_starts (c : char) (t : str) :
  isspace c = false -> strip (c :: t) <> [].
Proof.
  intros H. unfold strip, strip_by. cbn [lstrip_by]. rewrite H.
  rewrite rstrip_by_cons.
  destruct (rstrip_by isspace t); [rewrite H|]; discriminate.
Qed.

Lemma strip_song_name (n : str) : song_name n = true -> strip n = n.
Proof.
  intros H. destruct (song_name_spec _ H) as (Htidy & _ & _).
  destruct (tidy_ends _ Htidy) as (_ & H1 & H2 & _).
  apply strip_by_fixed; assumption.
Qed.

(** X18: song names written one after the other with separators between
    them come back as they were written, in the same order.  A name is tidy, has no digit, no
    separator character and no whitespace but single spaces, and does
    not end in a hyphen; a separator is one of [,], [;], [|], [>], [->],
    the arrow and the two dashes, with any whitespace around it; and no
    protected title occurs in the text. *)
Theorem separated_names_round_trip (first : str) (more : list (str * str)) :
  song_name first = true ->
  List.Forall (fun p => is_separator (fst p) /\ song_name (snd p) = true) more ->
  (forall song, In song SONGS_WITH_COMMAS ->
     re_search (lits_i song) (written first more) = None) ->
  parse_songs_from_setlist (written first more) = first :: map snd more.
Proof.
  intros Hf Hmore Hno. unfold parse_songs_from_setlist.
  assert (Hne : strip (written first more) <> []).
  { destruct (name_starts first Hf) as (c & t & -> & Hc).
    apply strip_starts, Hc. }
  destruct (strip (written first more)) as [|x0 xs]; [congruence|].
  rewrite (protect_nothing _ Hno). cbn [fst snd].
  destruct (arrows_in_written more Hmore) as (more' & Hmap & Hall & Hsub).
  assert (Hcontent : re_sub arrow_re [Text (py ",")] (written first more)
                     = written first more').
  { unfold re_sub, written.
    rewrite (sub_skip_at _ _ first) by (apply name_no_arrow, Hf).
    rewrite Hsub. reflexivity. }
  rewrite Hcontent. unfold split_parts.
  change (re_split separator_re (written first more'))
    with (split_from separator_re None (written first more')).
  rewrite (split_written more' Hall first None Hf). rewrite Hmap.
  assert (Hnames : forall n, In n (first :: map snd more) -> song_name n = true).
  { intros n [<-|Hn]; [exact Hf|].
    apply in_map_iff in Hn. destruct Hn as (p & <- & Hp).
    rewrite List.Forall_forall in Hmore. apply (Hmore p Hp). }
  rewrite (flat_map_singletons _ (first :: map snd more)).
  - apply flat_map_singletons. intros n Hn. specialize (Hnames n Hn).
    unfold song_of_part. cbn [dict_get]. rewrite (clean_song_name n Hnames).
    destruct n; [discriminate Hnames | reflexivity].
  - intros n Hn. specialize (Hnames n Hn). rewrite (strip_song_name n Hnames).
    destruct n; [discriminate Hnames | reflexivity].
Qed.

Lemma separated_names_round_trip_witness :
  parse_songs_from_setlist (py "Song A -> Song B, Song C")
  = [py "Song A"; py "Song B"; py "Song C"].
Proof.
  assert (H1 : song_name (py "Song A") = true) by (vm_compute; reflexivity).
  assert (H2 : List.Forall
                 (fun p => is_separator (fst p) /\ song_name (snd p) = true)
                 [(py " -> ", py "Song B"); (py ", ", py "Song C")]).
  { repeat constructor.
    - exists (py " "), (py "->"), (py " ").
      split; [reflexivity|]. split; [repeat constructor|].
      split; [|repeat constructor]. unfold separator_marks. cbn [In]. tauto.
    - exists [], (py ","), (py " ").
      split; [reflexivity|]. split; [constructor|].
      split; [|repeat constructor]. unfold separator_marks. cbn [In]. tauto. }
  assert (H3 : forall song, In song SONGS_WITH_COMMAS ->
             re_search (lits_i song)
               (written (py "Song A")
                  [(py " -> ", py "Song B"); (py ", ", py "Song C")]) = None).
  { intros song [<-|[<-|[<-|[]]]]; vm_compute; reflexivity. }
  exact (separated_names_round_trip _ _ H1 H2 H3).
Defined.

(** * The cleanup of a fragment, pass by pass *)

(** ** Runs of characters *)

Lemma run_lstrip (p : char -> bool) (s : str) :
  s = run p s ++ lstrip_by p s.
Proof.
  induction s as [|c s IH]; simpl; [reflexivity|].
  destruct (p c); simpl; [f_equal; exact IH | reflexivity].
Qed.

Lemma run_app_all (p : char -> bool) (x t : str) :
  List.Forall (fun c => p c = true) x ->
  run p (x ++ t) = x ++ run p t /\ lstrip_by p (x ++ t) = lstrip_by p t.
Proof.
  induction 1 as [|c x Hc Hx [IH1 IH2]]; simpl; [split; reflexivity|].
  rewrite Hc, IH1, IH2. split; reflexivity.
Qed.

Lemma run_stops (p : char -> bool) (t : str) :
  stops p t -> run p t = [] /\ lstrip_by p t = t.
Proof.
  destruct t as [|c t]; simpl; [split; reflexivity|].
  intros ->. split; reflexivity.
Qed.

Lemma run_app_stop (p : char -> bool) (w t : str) :
  List.Forall (fun c => p c = true) w -> stops p t ->
  run p (w ++ t) = w /\ lstrip_by p (w ++ t) = t.
Proof.
  intros Hw Ht. destruct (run_app_all p w t Hw) as [E1 E2].
  destruct (run_stops p t Ht) as [E3 E4].
  rewrite E1, E2, E3, E4, app_nil_r. split; reflexivity.
Qed.

Lemma run_split (p : char -> bool) (s x s' : str) :
  s = x ++ s' -> List.Forall (fun c => p c = true) x ->
  (x = run p s /\ s' = lstrip_by p s)
  \/ exists c t, s' = c :: t /\ p c = true.
Proof.
  intros -> Hx. destruct s' as [|c t].
  - left. destruct (run_app_stop p x [] Hx I) as [E1 E2].
    rewrite E1, E2. split; reflexivity.
  - destruct (p c) eqn:E.
    + right. exists c, t. split; [reflexivity | exact E].
    + left. destruct (run_app_stop p x (c :: t) Hx E) as [E1 E2].
      rewrite E1, E2. split; reflexivity.
Qed.

Lemma run_within (p q : char -> bool) (s : str) :
  (forall c, p c = true -> q c = true) ->
  run p s ++ run q (lstrip_by p s) = run q s
  /\ lstrip_by q (lstrip_by p s) = lstrip_by q s.
Proof.
  intros Hpq. induction s as [|c s [IH1 IH2]]; [split; reflexivity|].
  cbn [run lstrip_by]. destruct (p c) eqn:E.
  - rewrite (Hpq c E). cbn [app]. rewrite IH1, IH2. split; reflexivity.
  - cbn [app run lstrip_by]. split; reflexivity.
Qed.

Lemma passed_app (pv : option char) (a b : str) :
  passed (passed pv a) b = passed pv (a ++ b).
Proof. revert pv. induction a as [|c a IH]; intros pv; simpl; auto. Qed.

(** ** Greedy repetitions that cannot stop early *)

(** Where the rest of the pattern fails, or does the same, wherever the
    repetition stops short of the whole run, the repetition takes the
    whole run. *)
Lemma m_rep_greedy_run (p : char -> bool) (k : cont) (g : groups) :
  forall (s : str) (lo : nat) (pv : option char),
    (forall x s', s = x ++ s' -> List.Forall (fun c => p c = true) x ->
       k (Cursor (passed pv x) s') g = None
       \/ k (Cursor (passed pv x) s') g
          = k (Cursor (passed pv (run p s)) (lstrip_by p s)) g) ->
    m_rep true p lo None k g pv s
    = if lo <=? length (run p s)
      then k (Cursor (passed pv (run p s)) (lstrip_by p s)) g else None.
Proof.
  induction s as [|c s IH]; intros lo pv H.
  - destruct lo; reflexivity.
  - revert H. cbn [run lstrip_by]. destruct (p c) eqn:E; intros H.
    + assert (Hs : forall x s', s = x ++ s' ->
                List.Forall (fun c => p c = true) x ->
                k (Cursor (passed (Some c) x) s') g = None
                \/ k (Cursor (passed (Some c) x) s') g
                   = k (Cursor (passed (Some c) (run p s)) (lstrip_by p s)) g).
      { intros x s' -> Hx. apply (H (c :: x) s' eq_refl).
        constructor; assumption. }
      destruct lo as [|lo].
      * rewrite m_rep_greedy_step by (exact E || reflexivity).
        cbn [one_less]. rewrite (IH 0 (Some c) Hs).
        cbn [Nat.leb length passed].
        destruct (k (Cursor (passed (Some c) (run p s)) (lstrip_by p s)) g)
          eqn:Ek; [reflexivity|].
        destruct (H [] (c :: s) eq_refl (List.Forall_nil _)) as [H0|H0];
          cbn [passed] in H0; [exact H0 | rewrite H0; exact Ek].
      * rewrite m_rep_take by exact E. rewrite (IH lo (Some c) Hs).
        reflexivity.
    + destruct lo.
      * rewrite m_rep_none_here by exact E. reflexivity.
      * rewrite m_rep_must_take by exact E. reflexivity.
Qed.

Lemma m_rep_forced (p : char -> bool) (k : cont) (g : groups) (s : str)
    (lo : nat) (pv : option char) :
  (forall pv' c t, p c = true -> k (Cursor pv' (c :: t)) g = None) ->
  m_rep true p lo None k g pv s
  = if lo <=? length (run p s)
    then k (Cursor (passed pv (run p s)) (lstrip_by p s)) g else None.
Proof.
  intros Hk. apply m_rep_greedy_run. intros x s' E Hx.
  destruct (run_split p s x s' E Hx) as [[-> ->]|(c & t & -> & Hc)];
    [right; reflexivity | left; apply Hk, Hc].
Qed.

(** [\d*[\d:]*] before something that starts with neither: the two
    repetitions take the whole run of digits and colons between them. *)
Lemma digits_then_more (k : cont) (g : groups) (pv : option char) (s : str) :
  (forall pv' c t, digit_or_colon c = true ->
                   k (Cursor pv' (c :: t)) g = None) ->
  m_rep true isdecimal 0 None
    (fun c' g' => m_rep true digit_or_colon 0 None k g' (prev c') (rest c'))
    g pv s
  = k (Cursor (passed pv (run digit_or_colon s)) (lstrip_by digit_or_colon s)) g.
Proof.
  intros Hk.
  assert (Hsub : forall c, isdecimal c = true -> digit_or_colon c = true).
  { intros c Hc. unfold digit_or_colon. rewrite Hc. reflexivity. }
  assert (Hafter : forall x s', s = x ++ s' ->
            List.Forall (fun c => isdecimal c = true) x ->
            m_rep true digit_or_colon 0 None k g (passed pv x) s'
            = k (Cursor (passed pv (run digit_or_colon s))
                        (lstrip_by digit_or_colon s)) g).
  { intros x s' -> Hx. rewrite m_rep_forced by exact Hk. cbn [Nat.leb].
    assert (Hx' : List.Forall (fun c => digit_or_colon c = true) x).
    { eapply List.Forall_impl; [|exact Hx]. exact Hsub. }
    destruct (run_app_all digit_or_colon x s' Hx') as [E1 E2].
    rewrite passed_app, E1, E2. reflexivity. }
  rewrite m_rep_greedy_run.
  - cbn [Nat.leb prev rest]. apply Hafter.
    + apply run_lstrip.
    + clear. induction s as [|c s IH]; simpl; [constructor|].
      destruct (isdecimal c) eqn:E; constructor; assumption.
  - intros x s' E Hx. right. cbn [prev rest].
    rewrite (Hafter x s' E Hx). symmetry. apply Hafter.
    + apply run_lstrip.
    + clear. induction s as [|c s IH]; simpl; [constructor|].
      destruct (isdecimal c) eqn:E; constructor; assumption.
Qed.

Ltac other_char H :=
  match goal with
  | |- N.eqb ?l ?c = false =>
      let E := fresh "E" in
      destruct (N.eqb l c) eqn:E;
      [apply N.eqb_eq in E; subst; vm_compute in H; discriminate H
      | reflexivity]
  end.

Lemma run_length (p : char -> bool) (s : str) :
  length s = length (run p s) + length (lstrip_by p s).
Proof. rewrite (run_lstrip p s) at 1. apply length_app. Qed.

(** The match object of a match that leaves [t] of [x ++ t]. *)
Lemma m_at_prefix (r : regex) (pv pv' : option char) (x t : str) (g : groups) :
  m r final [] (Cursor pv (x ++ t)) = Some (Cursor pv' t, g) ->
  m_at r (Cursor pv (x ++ t)) = Some (Match x g (Cursor pv' t)).
Proof.
  intros H. unfold m_at. rewrite H. rewrite consumed_app. reflexivity.
Qed.

Lemma consumed_of (pv pv' : option char) (s x t : str) :
  s = x ++ t -> consumed (Cursor pv s) (Cursor pv' t) = x.
Proof. intros ->. apply consumed_app. Qed.

(** ** The three patterns and what they find *)

Lemma paren_time_at_spec (pv : option char) (s : str) :
  match m_at paren_time_re (Cursor pv s) with
  | Some mt => paren_time_at s = Some (length (m_text mt)) /\ m_text mt <> []
  | None => paren_time_at s = None
  end.
Proof.
  assert (Hm : m paren_time_re final [] (Cursor pv s)
               = match lstrip_by isspace s with
                 | c :: s1 =>
                     if N.eqb (ch "(") c then
                       match s1 with
                       | d0 :: s2 =>
                           if isdecimal d0 then
                             match lstrip_by digit_or_colon s1 with
                             | c' :: s3 =>
                                 if N.eqb (ch ")") c'
                                 then Some (Cursor (Some c') s3, [])
                                 else None
                             | [] => None
                             end
                           else None
                       | [] => None
                       end
                     else None
                 | [] => None
                 end).
  { unfold paren_time_re, star, plus, lit. cbn [m cat rest prev].
    rewrite m_rep_forced
      by (intros pv' c t Hc; cbn [rest];
          assert (E0 : N.eqb (ch "(") c = false) by other_char Hc;
          rewrite E0; reflexivity).
    cbn [Nat.leb].
    destruct (lstrip_by isspace s) as [|c s1]; [reflexivity|]. cbn [rest].
    destruct (N.eqb (ch "(") c); [|reflexivity].
    destruct s1 as [|d0 s2]; [reflexivity|].
    destruct (isdecimal d0) eqn:Ed.
    - rewrite m_rep_take by exact Ed.
      rewrite digits_then_more
        by (intros pv' x t Hx; cbn [rest];
            assert (E0 : N.eqb (ch ")") x = false) by other_char Hx;
            rewrite E0; reflexivity).
      assert (Hdc : digit_or_colon d0 = true)
        by (unfold digit_or_colon; rewrite Ed; reflexivity).
      cbn [run lstrip_by]. rewrite Hdc. cbn [rest].
      destruct (lstrip_by digit_or_colon s2) as [|c' s3]; [reflexivity|].
      destruct (N.eqb (ch ")") c'); reflexivity.
    - rewrite m_rep_must_take by exact Ed. reflexivity. }
  unfold m_at. rewrite Hm. clear Hm. unfold paren_time_at.
  pose proof (run_lstrip isspace s) as Es.
  destruct (lstrip_by isspace s) as [|c s1]; [reflexivity|].
  rewrite (N.eqb_sym c). destruct (N.eqb (ch "(") c) eqn:Ec; [|reflexivity].
  pose proof (run_lstrip digit_or_colon s1) as Es1.
  destruct s1 as [|d0 s2]; [reflexivity|].
  destruct (isdecimal d0) eqn:Ed.
  - assert (Hdc : digit_or_colon d0 = true)
      by (unfold digit_or_colon; rewrite Ed; reflexivity).
    revert Es1. cbn [run lstrip_by]. rewrite Hdc. intros Es1.
    destruct (lstrip_by digit_or_colon s2) as [|c' s3]; [reflexivity|].
    rewrite (N.eqb_sym c'), Ed. cbn [andb].
    destruct (N.eqb (ch ")") c') eqn:Ec'; [|reflexivity].
    assert (Etext : s = (run isspace s ++ c :: (d0 :: run digit_or_colon s2)
                         ++ [c']) ++ s3).
    { rewrite Es at 1. rewrite Es1 at 1. rewrite <- !app_assoc.
      cbn [app]. rewrite <- !app_assoc. reflexivity. }
    cbn [m_text]. rewrite (consumed_of _ _ _ _ _ Etext).
    split; [|destruct (run isspace s); discriminate].
    f_equal. rewrite !length_app. cbn [length]. rewrite length_app.
    cbn [length]. lia.
  - cbn [run lstrip_by]. destruct (digit_or_colon d0); [|reflexivity].
    destruct (lstrip_by digit_or_colon s2); [reflexivity|].
    rewrite Ed. reflexivity.
Qed.

(** No whitespace character is a digit or a colon. *)
Lemma space_not_digit (c : char) :
  isspace c = true -> digit_or_colon c = false /\ isdecimal c = false.
Proof.
  intros H.
  assert (Hc : In c [9; 10; 11; 12; 13; 28; 29; 30; 31; 32; 133; 160; 5760;
                     8192; 8193; 8194; 8195; 8196; 8197; 8198; 8199; 8200;
                     8201; 8202; 8232; 8233; 8239; 8287; 12288]%N).
  { unfold isspace, in_range in H.
    repeat (apply orb_true_iff in H; destruct H as [H|H]);
      try (apply andb_true_iff in H; destruct H as [H1 H2];
           apply N.leb_le in H1; apply N.leb_le in H2);
      try (apply N.eqb_eq in H);
      cbn [In]; lia. }
  cbn [In] in Hc.
  repeat (destruct Hc as [Hc|Hc]; [subst c; split; vm_compute; reflexivity|]).
  destruct Hc.
Qed.

Lemma digit_not_space (c : char) :
  digit_or_colon c = true -> isspace c = false.
Proof.
  intros H. destruct (isspace c) eqn:E; [|reflexivity].
  apply space_not_digit in E. destruct E as [E _]. congruence.
Qed.

Lemma digit_not_newline (c : char) :
  isdecimal c = true -> N.eqb c NL = false.
Proof.
  intros H. destruct (N.eqb c NL) eqn:E; [|reflexivity].
  apply N.eqb_eq in E. subst c. vm_compute in H. discriminate H.
Qed.

Lemma run_Forall (p : char -> bool) (s : str) :
  List.Forall (fun c => p c = true) (run p s).
Proof.
  induction s as [|c s IH]; simpl; [constructor|].
  destruct (p c) eqn:E; constructor; assumption.
Qed.

Lemma bracket_time_at_spec (pv : option char) (s : str) :
  match m_at bracket_time_re (Cursor pv s) with
  | Some mt => bracket_time_at s = Some (length (m_text mt)) /\ m_text mt <> []
  | None => bracket_time_at s = None
  end.
Proof.
  assert (Hm : m bracket_time_re final [] (Cursor pv s)
               = match lstrip_by isspace s with
                 | c :: s1 =>
                     if N.eqb (ch "[") c then
                       match lstrip_by isspace s1 with
                       | d0 :: s3 =>
                           if isdecimal d0 then
                             match lstrip_by isspace
                                     (lstrip_by digit_or_colon s3) with
                             | c' :: s5 =>
                                 if N.eqb (ch "]") c'
                                 then Some (Cursor (Some c') s5, [])
                                 else None
                             | [] => None
                             end
                           else None
                       | [] => None
                       end
                     else None
                 | [] => None
                 end).
  { unfold bracket_time_re, star, plus, lit. cbn [m cat rest prev].
    rewrite m_rep_forced
      by (intros pv' c t Hc; cbn [rest];
          assert (E0 : N.eqb (ch "[") c = false) by other_char Hc;
          rewrite E0; reflexivity).
    cbn [Nat.leb].
    destruct (lstrip_by isspace s) as [|c s1]; [reflexivity|]. cbn [rest].
    destruct (N.eqb (ch "[") c); [|reflexivity]. cbn [prev rest].
    rewrite m_rep_forced
      by (intros pv' x t Hx; cbn [prev rest]; apply m_rep_must_take;
          apply space_not_digit in Hx; apply Hx).
    cbn [Nat.leb prev rest].
    destruct (lstrip_by isspace s1) as [|d0 s3]; [reflexivity|].
    destruct (isdecimal d0) eqn:Ed.
    - rewrite m_rep_take by exact Ed.
      rewrite digits_then_more.
      + cbn [prev rest].
        rewrite m_rep_forced
          by (intros pv' x t Hx; cbn [rest];
              assert (E0 : N.eqb (ch "]") x = false) by other_char Hx;
              rewrite E0; reflexivity).
        cbn [Nat.leb].
        destruct (lstrip_by isspace (lstrip_by digit_or_colon s3))
          as [|c' s5]; [reflexivity|].
        cbn [rest]. destruct (N.eqb (ch "]") c'); reflexivity.
      + intros pv' x t Hx. cbn [prev rest].
        rewrite m_rep_none_here by (apply digit_not_space, Hx).
        cbn [rest].
        assert (E0 : N.eqb (ch "]") x = false) by other_char Hx.
        rewrite E0. reflexivity.
    - rewrite m_rep_must_take by exact Ed. reflexivity. }
  unfold m_at. rewrite Hm. clear Hm. unfold bracket_time_at.
  pose proof (run_lstrip isspace s) as Es.
  destruct (lstrip_by isspace s) as [|c s1]; [reflexivity|].
  rewrite (N.eqb_sym c). destruct (N.eqb (ch "[") c) eqn:Ec; [|reflexivity].
  cbv zeta.
  pose proof (run_lstrip isspace s1) as Es1.
  destruct (lstrip_by isspace s1) as [|d0 s3]; [reflexivity|].
  pose proof (run_lstrip digit_or_colon s3) as Es3.
  pose proof (run_lstrip isspace (lstrip_by digit_or_colon s3)) as Es4.
  destruct (isdecimal d0) eqn:Ed.
  - assert (Hdc : digit_or_colon d0 = true)
      by (unfold digit_or_colon; rewrite Ed; reflexivity).
    cbn [run lstrip_by]. rewrite Hdc.
    destruct (lstrip_by isspace (lstrip_by digit_or_colon s3)) as [|c' s5];
      [reflexivity|].
    rewrite (N.eqb_sym c'), Ed. cbn [andb].
    destruct (N.eqb (ch "]") c') eqn:Ec'; [|reflexivity].
    assert (Etext : s = (run isspace s ++ c :: run isspace s1
                         ++ (d0 :: run digit_or_colon s3)
                         ++ run isspace (lstrip_by digit_or_colon s3)
                         ++ [c']) ++ s5).
    { rewrite Es at 1. rewrite Es1 at 1. rewrite Es3 at 1. rewrite Es4 at 1.
      repeat first [rewrite <- app_assoc | progress cbn [app]]. reflexivity. }
    cbn [m_text]. rewrite (consumed_of _ _ _ _ _ Etext).
    split; [|destruct (run isspace s); discriminate].
    f_equal. repeat first [rewrite length_app | progress cbn [length]]. lia.
  - cbn [run lstrip_by]. destruct (digit_or_colon d0); [|reflexivity].
    destruct (lstrip_by isspace (lstrip_by digit_or_colon s3));
      [reflexivity|].
    rewrite Ed. reflexivity.
Qed.

Lemma count_at_spec (pv : option char) (s : str) :
  match m_at count_re (Cursor pv s) with
  | Some mt => count_at s = Some (length (m_text mt)) /\ m_text mt <> []
  | None => count_at s = None
  end.
Proof.
  unfold m_at, count_re, plus. cbn [m cat rest prev].
  rewrite m_rep_forced
    by (intros pv' x t Hx; cbn [prev rest]; apply m_rep_must_take;
        apply space_not_digit in Hx; apply Hx).
  cbn [prev rest].
  rewrite m_rep_forced
    by (intros pv' x t Hx; unfold at_eol; cbn [rest];
        rewrite (digit_not_newline x Hx); reflexivity).
  unfold count_at.
  pose proof (run_lstrip isspace s) as Es.
  pose proof (run_lstrip isdecimal (lstrip_by isspace s)) as Es1.
  destruct (run isspace s) as [|w0 w]; [reflexivity|].
  destruct (run isdecimal (lstrip_by isspace s)) as [|d0 d]; [reflexivity|].
  cbn [length Nat.leb].
  assert (Htext : s = ((w0 :: w) ++ d0 :: d)
                      ++ lstrip_by isdecimal (lstrip_by isspace s)).
  { rewrite Es at 1. rewrite Es1 at 1. rewrite <- app_assoc. reflexivity. }
  destruct (lstrip_by isdecimal (lstrip_by isspace s)) as [|x [|y t]].
  - cbn [at_eol rest]. unfold final. cbn [m_text].
    rewrite (consumed_of _ _ _ _ _ Htext).
    split; [|discriminate]. f_equal. rewrite length_app. reflexivity.
  - unfold at_eol. cbn [rest]. rewrite (N.eqb_sym x).
    destruct (N.eqb NL x); [|reflexivity]. cbn [andb orb]. unfold final.
    cbn [m_text]. rewrite (consumed_of _ _ _ _ _ Htext).
    split; [|discriminate]. f_equal. rewrite length_app. reflexivity.
  - unfold at_eol. cbn [rest]. rewrite andb_false_r. reflexivity.
Qed.

(** ** A substitution by nothing is a pass that leaves the matches out *)

Lemma scan_drop (r : regex) (at_head : str -> option nat) :
  (forall pv s,
     match m_at r (Cursor pv s) with
     | Some mt => at_head s = Some (length (m_text mt)) /\ m_text mt <> []
     | None => at_head s = None
     end) ->
  forall s pv skip,
    render [] (scan_from r pv s skip) = drop_from at_head skip s.
Proof.
  intros H. induction s as [|c s IH]; intros pv skip.
  - destruct skip; cbn [scan_from drop_from]; [|reflexivity].
    destruct (m_at r (Cursor pv [])); reflexivity.
  - destruct skip as [|n]; cbn [scan_from drop_from]; [|apply IH].
    specialize (H pv (c :: s)).
    destruct (m_at r (Cursor pv (c :: s))) as [mt|].
    + destruct H as [Hh Hne]. rewrite Hh.
      destruct (length (m_text mt)) as [|n] eqn:El.
      { destruct (m_text mt); [congruence | discriminate El]. }
      rewrite render_found. cbn [expand map concat app]. apply IH.
    + rewrite H, render_push. f_equal. apply IH.
Qed.

Lemma sub_is_drop (r : regex) (at_head : str -> option nat) (s : str) :
  (forall pv s,
     match m_at r (Cursor pv s) with
     | Some mt => at_head s = Some (length (m_text mt)) /\ m_text mt <> []
     | None => at_head s = None
     end) ->
  re_sub r [] s = drop_all at_head s.
Proof. intros H. apply (scan_drop r at_head H). Qed.

(** The cleanup is the three passes and the tidying up. *)
Lemma clean_song_cleaned (part : str) : clean_song part = cleaned part.
Proof.
  unfold clean_song, cleaned.
  rewrite (sub_is_drop paren_time_re paren_time_at)
    by apply paren_time_at_spec.
  rewrite (sub_is_drop bracket_time_re bracket_time_at)
    by apply bracket_time_at_spec.
  rewrite (sub_is_drop count_re count_at) by apply count_at_spec.
  unfold re_sub. eapply sub_spaces_collapse. apply Nat.le_refl.
Qed.

(** ** The passes on a text of a known form *)

Lemma drop_skip (at_head : str -> option nat) (x s : str) :
  drop_from at_head (length x) (x ++ s) = drop_from at_head 0 s.
Proof. induction x as [|c x IH]; simpl; auto. Qed.

Lemma drop_match (at_head : str -> option nat) (x s : str) :
  at_head (x ++ s) = Some (length x) -> x <> [] ->
  drop_all at_head (x ++ s) = drop_all at_head s.
Proof.
  intros H Hne. destruct x as [|c x]; [congruence|].
  unfold drop_all. cbn [app length] in *. cbn [drop_from]. rewrite H.
  apply drop_skip.
Qed.

Lemma drop_keep (at_head : str -> option nat) (c : char) (s : str) :
  at_head (c :: s) = None ->
  drop_all at_head (c :: s) = c :: drop_all at_head s.
Proof. intros H. unfold drop_all. cbn [drop_from]. rewrite H. reflexivity. Qed.

Lemma drop_skip_at (at_head : str -> option nat) (a s : str) :
  (forall a1 c a2, a = a1 ++ c :: a2 -> at_head (c :: a2 ++ s) = None) ->
  drop_all at_head (a ++ s) = a ++ drop_all at_head s.
Proof.
  induction a as [|x a IH]; intros H; [reflexivity|].
  cbn [app]. rewrite drop_keep by (apply (H [] x a); reflexivity).
  f_equal. apply IH. intros a1 c a2 ->. apply (H (x :: a1)). reflexivity.
Qed.

Lemma drop_nothing (at_head : str -> option nat) (Q : char -> Prop) :
  (forall s, List.Forall Q s -> at_head s = None) ->
  forall s, List.Forall Q s -> drop_all at_head s = s.
Proof.
  intros H. induction s as [|c s IH]; intros Hs; [reflexivity|].
  rewrite drop_keep by (apply H, Hs). f_equal. apply IH.
  inversion Hs; assumption.
Qed.

(** What follows the whitespace at the head of a text is part of it. *)
Lemma lstrip_by_in (p : char -> bool) (s t : str) (c : char) :
  lstrip_by p s = c :: t -> In c s.
Proof.
  intros E. rewrite (run_lstrip p s), E. apply in_or_app. right. left.
  reflexivity.
Qed.

Lemma lstrip_by_keeps (P : char -> Prop) (p : char -> bool) (s : str) :
  List.Forall P s -> List.Forall P (lstrip_by p s).
Proof.
  intros H. rewrite (run_lstrip p s) in H. apply List.Forall_app in H.
  apply H.
Qed.

Lemma paren_at_needs_open (s : str) :
  List.Forall (fun c => c <> ch "(") s -> paren_time_at s = None.
Proof.
  intros H. unfold paren_time_at.
  destruct (lstrip_by isspace s) as [|c s1] eqn:E; [reflexivity|].
  destruct (N.eqb c (ch "(")) eqn:Ec; [|reflexivity].
  apply N.eqb_eq in Ec. apply lstrip_by_in in E.
  rewrite List.Forall_forall in H. destruct (H c E Ec).
Qed.

Lemma bracket_at_needs_open (s : str) :
  List.Forall (fun c => c <> ch "[") s -> bracket_time_at s = None.
Proof.
  intros H. unfold bracket_time_at.
  destruct (lstrip_by isspace s) as [|c s1] eqn:E; [reflexivity|].
  destruct (N.eqb c (ch "[")) eqn:Ec; [|reflexivity].
  apply N.eqb_eq in Ec. apply lstrip_by_in in E.
  rewrite List.Forall_forall in H. destruct (H c E Ec).
Qed.

Lemma count_at_needs_digit (s : str) :
  List.Forall (fun c => isdecimal c = false) s -> count_at s = None.
Proof.
  intros H. unfold count_at.
  assert (E : run isdecimal (lstrip_by isspace s) = []).
  { apply (lstrip_by_keeps _ isspace) in H.
    destruct (lstrip_by isspace s) as [|c t]; [reflexivity|].
    cbn [run]. inversion H as [|? ? Hc _]; subst. rewrite Hc. reflexivity. }
  rewrite E. destruct (run isspace s); reflexivity.
Qed.

(** *** Titles *)

Lemma title_char_spec (c : char) :
  title_char c = true ->
  (plain c = true \/ c = ch " ")
  /\ isdecimal c = false /\ c <> ch "(" /\ c <> ch "[" /\ c <> ch "-"
  /\ (isspace c = true -> c = ch " ").
Proof.
  unfold title_char. intros H. apply orb_true_iff in H. destruct H as [H|H].
  - split; [left; exact H|]. apply plain_spec in H.
    destruct H as (Hs & Hd & Hp & Hb & Hh).
    split; [exact Hd|]. repeat split.
    + intros ->. vm_compute in Hp. discriminate Hp.
    + intros ->. vm_compute in Hb. discriminate Hb.
    + intros ->. vm_compute in Hh. discriminate Hh.
    + congruence.
  - apply N.eqb_eq in H. subst c. split; [right; reflexivity|].
    split; [reflexivity|]. repeat split; try discriminate. 
Qed.

Lemma title_spec (a : str) :
  title_text a = true ->
  tidy a = true /\ List.Forall (fun c => title_char c = true) a.
Proof.
  unfold title_text. intros H. apply andb_true_iff in H.
  destruct H as [H1 H2]. split; [exact H1|].
  apply List.Forall_forall. intros c Hc.
  rewrite forallb_forall in H2. apply H2, Hc.
Qed.

(** A character of a title is plain, or it is a space before a plain
    character of the title. *)
Lemma title_positions (a a1 a2 : str) (c : char) :
  title_text a = true -> a = a1 ++ c :: a2 ->
  plain c = true
  \/ (c = ch " " /\ exists x a3, a2 = x :: a3 /\ plain x = true).
Proof.
  intros H ->. destruct (title_spec _ H) as [Htidy Hchars].
  destruct (tidy_spec _ Htidy) as (_ & _ & Hlast & Hpair).
  apply List.Forall_app in Hchars. destruct Hchars as [_ Hchars].
  apply List.Forall_cons_iff in Hchars. destruct Hchars as [Hc Ha2].
  destruct (title_char_spec c Hc) as ([Hp | ->] & _); [left; exact Hp|].
  right. split; [reflexivity|].
  destruct a2 as [|x a3].
  - specialize (Hlast a1 (ch " ") eq_refl). vm_compute in Hlast.
    discriminate Hlast.
  - exists x, a3. split; [reflexivity|].
    apply List.Forall_cons_iff in Ha2. destruct Ha2 as [Hx _].
    destruct (title_char_spec x Hx) as ([Hp | ->] & _); [exact Hp|].
    specialize (Hpair a1 (ch " ") (ch " ") a3 eq_refl eq_refl).
    vm_compute in Hpair. discriminate Hpair.
Qed.

(** No annotation starts inside a title, whatever follows the title. *)
Lemma drop_title (at_head : str -> option nat) (a s : str) :
  (forall c t, plain c = true -> at_head (c :: t) = None) ->
  (forall c t, plain c = true -> at_head (ch " " :: c :: t) = None) ->
  title_text a = true ->
  drop_all at_head (a ++ s) = a ++ drop_all at_head s.
Proof.
  intros H1 H2 Ha. apply drop_skip_at. intros a1 c a2 E.
  destruct (title_positions a a1 a2 c Ha E) as [Hc|(-> & x & a3 & -> & Hx)].
  - apply H1, Hc.
  - cbn [app]. apply H2, Hx.
Qed.

Lemma paren_at_plain (c : char) (t : str) :
  plain c = true -> paren_time_at (c :: t) = None.
Proof.
  intros H. apply plain_spec in H. destruct H as (Hs & _ & Hp & _).
  unfold paren_time_at. cbn [lstrip_by]. rewrite Hs, N.eqb_sym, Hp.
  reflexivity.
Qed.

Lemma paren_at_space (c : char) (t : str) :
  plain c = true -> paren_time_at (ch " " :: c :: t) = None.
Proof.
  intros H. apply plain_spec in H. destruct H as (Hs & _ & Hp & _).
  unfold paren_time_at. cbn [lstrip_by].
  change (isspace (ch " ")) with true. cbv iota.
  rewrite Hs, N.eqb_sym, Hp. reflexivity.
Qed.

Lemma bracket_at_plain (c : char) (t : str) :
  plain c = true -> bracket_time_at (c :: t) = None.
Proof.
  intros H. apply plain_spec in H. destruct H as (Hs & _ & _ & Hb & _).
  unfold bracket_time_at. cbn [lstrip_by]. rewrite Hs, N.eqb_sym, Hb.
  reflexivity.
Qed.

Lemma bracket_at_space (c : char) (t : str) :
  plain c = true -> bracket_time_at (ch " " :: c :: t) = None.
Proof.
  intros H. apply plain_spec in H. destruct H as (Hs & _ & _ & Hb & _).
  unfold bracket_time_at. cbn [lstrip_by].
  change (isspace (ch " ")) with true. cbv iota.
  rewrite Hs, N.eqb_sym, Hb. reflexivity.
Qed.

Lemma count_at_plain (c : char) (t : str) :
  plain c = true -> count_at (c :: t) = None.
Proof.
  intros H. apply plain_spec in H. destruct H as (Hs & _).
  unfold count_at. cbn [run]. rewrite Hs. reflexivity.
Qed.

Lemma count_at_space (c : char) (t : str) :
  plain c = true -> count_at (ch " " :: c :: t) = None.
Proof.
  intros H. apply plain_spec in H. destruct H as (Hs & Hd & _).
  unfold count_at. cbn [run lstrip_by].
  change (isspace (ch " ")) with true. cbv iota.
  rewrite Hs. cbn [run]. rewrite Hd. reflexivity.
Qed.

(** *** The annotations themselves *)

Lemma paren_at_match (w ds t : str) (d0 : char) :
  List.Forall (fun c => isspace c = true) w ->
  isdecimal d0 = true ->
  List.Forall (fun c => digit_or_colon c = true) ds ->
  paren_time_at ((w ++ ch "(" :: d0 :: ds ++ [ch ")"]) ++ t)
  = Some (length (w ++ ch "(" :: d0 :: ds ++ [ch ")"])).
Proof.
  intros Hw Hd0 Hds.
  assert (Hdc : digit_or_colon d0 = true)
    by (unfold digit_or_colon; rewrite Hd0; reflexivity).
  assert (Etext : (w ++ ch "(" :: d0 :: ds ++ [ch ")"]) ++ t
                  = w ++ ch "(" :: (d0 :: ds) ++ ch ")" :: t).
  { repeat first [rewrite <- app_assoc | progress cbn [app]]. reflexivity. }
  rewrite Etext. unfold paren_time_at.
  destruct (run_app_stop isspace w (ch "(" :: (d0 :: ds) ++ ch ")" :: t) Hw)
    as [E1 E2]; [reflexivity|].
  rewrite E1, E2. change (N.eqb (ch "(") (ch "(")) with true. cbv iota.
  destruct (run_app_stop digit_or_colon (d0 :: ds) (ch ")" :: t))
    as [E3 E4]; [constructor; assumption | reflexivity|].
  rewrite E3, E4. rewrite Hd0.
  change (N.eqb (ch ")") (ch ")")) with true. cbn [andb]. cbv iota.
  f_equal. repeat first [rewrite length_app | progress cbn [length]]. lia.
Qed.

Lemma bracket_at_match (w w1 ds w2 t : str) (d0 : char) :
  List.Forall (fun c => isspace c = true) w ->
  List.Forall (fun c => isspace c = true) w1 ->
  isdecimal d0 = true ->
  List.Forall (fun c => digit_or_colon c = true) ds ->
  List.Forall (fun c => isspace c = true) w2 ->
  bracket_time_at ((w ++ ch "[" :: w1 ++ d0 :: ds ++ w2 ++ [ch "]"]) ++ t)
  = Some (length (w ++ ch "[" :: w1 ++ d0 :: ds ++ w2 ++ [ch "]"])).
Proof.
  intros Hw Hw1 Hd0 Hds Hw2.
  assert (Hdc : digit_or_colon d0 = true)
    by (unfold digit_or_colon; rewrite Hd0; reflexivity).
  assert (Etext : (w ++ ch "[" :: w1 ++ d0 :: ds ++ w2 ++ [ch "]"]) ++ t
                  = w ++ ch "[" :: w1 ++ (d0 :: ds) ++ w2 ++ ch "]" :: t).
  { repeat first [rewrite <- app_assoc | progress cbn [app]]. reflexivity. }
  rewrite Etext. unfold bracket_time_at.
  destruct (run_app_stop isspace w
              (ch "[" :: w1 ++ (d0 :: ds) ++ w2 ++ ch "]" :: t) Hw)
    as [E1 E2]; [reflexivity|].
  rewrite E1, E2. change (N.eqb (ch "[") (ch "[")) with true. cbv iota zeta.
  destruct (run_app_stop isspace w1 ((d0 :: ds) ++ w2 ++ ch "]" :: t) Hw1)
    as [E3 E4]; [apply digit_not_space, Hdc|].
  rewrite E3, E4.
  destruct (run_app_stop digit_or_colon (d0 :: ds) (w2 ++ ch "]" :: t))
    as [E5 E6].
  { constructor; assumption. }
  { destruct Hw2 as [|x w2 Hx _]; [reflexivity|].
    apply space_not_digit in Hx. apply Hx. }
  rewrite E5, E6.
  destruct (run_app_stop isspace w2 (ch "]" :: t) Hw2) as [E7 E8];
    [reflexivity|].
  rewrite E7, E8. rewrite Hd0.
  change (N.eqb (ch "]") (ch "]")) with true. cbn [andb]. cbv iota.
  f_equal. repeat first [rewrite length_app | progress cbn [length]]. lia.
Qed.

Lemma count_at_match (w d : str) :
  w <> [] -> List.Forall (fun c => isspace c = true) w ->
  d <> [] -> List.Forall (fun c => isdecimal c = true) d ->
  count_at ((w ++ d) ++ []) = Some (length (w ++ d)).
Proof.
  intros Hwne Hw Hdne Hd. rewrite app_nil_r. unfold count_at.
  assert (Hstop : stops isspace d).
  { destruct Hd as [|x d Hx _]; [exact I|].
    apply digit_not_space. unfold digit_or_colon. rewrite Hx. reflexivity. }
  destruct (run_app_stop isspace w d Hw Hstop) as [E1 E2].
  destruct (run_app_stop isdecimal d [] Hd I) as [E3 E4].
  rewrite app_nil_r in E3, E4.
  rewrite E1, E2, E3, E4.
  destruct w as [|w0 w]; [congruence|]. destruct d as [|d0 d]; [congruence|].
  f_equal. rewrite length_app. reflexivity.
Qed.

(** *** Tidying up *)

Lemma collapse_behind (s t : str) (c : char) :
  isspace c = false ->
  forall b, collapse b (s ++ c :: t) = collapse b (s ++ [c]) ++ collapse false t.
Proof.
  intros Hc. induction s as [|x s IH]; intros b; simpl.
  - rewrite Hc. reflexivity.
  - destruct (isspace x); [destruct b|]; rewrite IH; reflexivity.
Qed.

Lemma title_starts (a : str) :
  title_text a = true -> exists c t, a = c :: t /\ isspace c = false.
Proof.
  intros H. destruct (title_spec _ H) as [Htidy _].
  destruct (tidy_spec _ Htidy) as (Hne & Hfirst & _).
  destruct a as [|c t]; [congruence|].
  exists c, t. split; [reflexivity | apply (Hfirst c t eq_refl)].
Qed.

Lemma title_ends (a : str) :
  title_text a = true -> exists a' x, a = a' ++ [x] /\ plain x = true.
Proof.
  intros H. destruct (title_spec _ H) as [Htidy _].
  destruct (tidy_spec _ Htidy) as (Hne & _).
  destruct (exists_last Hne) as (a' & x & E).
  exists a', x. split; [exact E|].
  destruct (title_positions a a' [] x H E)
    as [Hx|(_ & y & a3 & Hnil & _)]; [exact Hx | discriminate Hnil].
Qed.

Lemma title_collapse (a : str) :
  title_text a = true -> collapse false a = a.
Proof.
  intros H. destruct (title_spec _ H) as [Htidy Hchars].
  destruct (tidy_ends _ Htidy) as (_ & _ & _ & Hss).
  apply collapse_single_spaced; [exact Hss | | discriminate].
  eapply List.Forall_impl; [|exact Hchars].
  intros c Hc. apply title_char_spec in Hc. apply Hc.
Qed.

Lemma title_then (a t : str) :
  title_text a = true -> collapse false (a ++ t) = a ++ collapse false t.
Proof.
  intros H. destruct (title_ends a H) as (a' & x & E & Hx).
  apply plain_spec in Hx. destruct Hx as (Hx & _).
  pose proof (title_collapse a H) as Hc. rewrite E in *.
  rewrite <- app_assoc. cbn [app]. rewrite collapse_behind by exact Hx.
  rewrite Hc. rewrite <- app_assoc. reflexivity.
Qed.

(** A text that starts and ends with a character of a title has nothing
    to strip. *)
Lemma nothing_to_strip (s pre : str) (x : char) :
  stops isspace s -> s = pre ++ [x] -> plain x = true ->
  strip (rstrip_chars (py "-") s) = s.
Proof.
  intros Hs E Hx. apply plain_spec in Hx. destruct Hx as (Hsp & _ & _ & _ & Hh).
  assert (Er : rstrip_chars (py "-") s = s).
  { rewrite E. unfold rstrip_chars, rstrip_by. rewrite rev_app_distr.
    cbn [rev app lstrip_by].
    assert (Hin : char_in x (py "-") = false)
      by (unfold char_in; simpl; rewrite Hh; reflexivity).
    rewrite Hin. cbn [rev]. rewrite rev_involutive. reflexivity. }
  rewrite Er. apply strip_by_fixed; [exact Hs|].
  rewrite E, rev_app_distr. exact Hsp.
Qed.

Lemma title_normal (a : str) :
  title_text a = true ->
  collapse false (strip (rstrip_chars (py "-") a)) = a.
Proof.
  intros H. destruct (title_ends a H) as (a' & x & E & Hx).
  destruct (title_starts a H) as (c & t & Ec & Hc).
  rewrite (nothing_to_strip a a' x); [apply title_collapse, H | | exact E | exact Hx].
  rewrite Ec. exact Hc.
Qed.

Lemma titles_normal (a w b : str) :
  title_text a = true -> title_text b = true ->
  w <> [] -> List.Forall (fun c => isspace c = true) w ->
  collapse false (strip (rstrip_chars (py "-") (a ++ w ++ b)))
  = a ++ ch " " :: b.
Proof.
  intros Ha Hb Hne Hw.
  destruct (title_ends b Hb) as (b' & x & E & Hx).
  destruct (title_starts a Ha) as (c & t & Ec & Hc).
  destruct (title_starts b Hb) as (c2 & t2 & Ec2 & Hc2).
  rewrite (nothing_to_strip (a ++ w ++ b) (a ++ w ++ b') x).
  - rewrite title_then by exact Ha. f_equal.
    destruct w as [|w0 w]; [congruence|].
    apply List.Forall_cons_iff in Hw. destruct Hw as [Hw0 Hw].
    cbn [app collapse]. rewrite Hw0. f_equal.
    rewrite collapse_in_run by exact Hw.
    rewrite collapse_after_run by (rewrite Ec2; exact Hc2).
    apply title_collapse, Hb.
  - rewrite Ec. exact Hc.
  - rewrite E. rewrite <- !app_assoc. reflexivity.
  - exact Hx.
Qed.

(** *** What the characters of a text rule out *)

Lemma space_other (c : char) :
  isspace c = true -> isdecimal c = false /\ c <> ch "(" /\ c <> ch "[".
Proof.
  intros H. split; [apply space_not_digit, H|].
  split; intros ->; vm_compute in H; discriminate H.
Qed.

Lemma digit_other (c : char) :
  digit_or_colon c = true -> c <> ch "(" /\ c <> ch "[".
Proof. intros H. split; intros ->; vm_compute in H; discriminate H. Qed.

Lemma title_other (a : str) :
  title_text a = true ->
  List.Forall (fun c => isdecimal c = false /\ c <> ch "(" /\ c <> ch "[") a.
Proof.
  intros H. destruct (title_spec _ H) as [_ Hchars].
  eapply List.Forall_impl; [|exact Hchars].
  intros c Hc. apply title_char_spec in Hc.
  destruct Hc as (_ & Hd & Hp & Hb & _). auto.
Qed.

Lemma spaces_other (w : str) :
  List.Forall (fun c => isspace c = true) w ->
  List.Forall (fun c => isdecimal c = false /\ c <> ch "(" /\ c <> ch "[") w.
Proof. apply List.Forall_impl. exact space_other. Qed.

Lemma digits_other (ds : str) :
  List.Forall (fun c => digit_or_colon c = true) ds ->
  List.Forall (fun c => c <> ch "(" /\ c <> ch "[") ds.
Proof. apply List.Forall_impl. exact digit_other. Qed.

(** A text without digit, [(] and [\[] goes through the three passes as
    it is. *)
Lemma passes_keep (s : str) :
  List.Forall (fun c => isdecimal c = false /\ c <> ch "(" /\ c <> ch "[") s ->
  drop_all paren_time_at s = s
  /\ drop_all bracket_time_at s = s
  /\ drop_all count_at s = s.
Proof.
  intros H. split; [|split].
  - apply (drop_nothing _ _ paren_at_needs_open).
    eapply List.Forall_impl; [|exact H]. intros c Hc; apply Hc.
  - apply (drop_nothing _ _ bracket_at_needs_open).
    eapply List.Forall_impl; [|exact H]. intros c Hc; apply Hc.
  - apply (drop_nothing _ _ count_at_needs_digit).
    eapply List.Forall_impl; [|exact H]. intros c Hc; apply Hc.
Qed.

(** *** The four cases of the cleanup *)

Lemma cleaned_trailing_paren (a w ds : str) (d0 : char) :
  title_text a = true ->
  List.Forall (fun c => isspace c = true) w ->
  isdecimal d0 = true ->
  List.Forall (fun c => digit_or_colon c = true) ds ->
  cleaned (a ++ w ++ ch "(" :: d0 :: ds ++ [ch ")"]) = a.
Proof.
  intros Ha Hw Hd0 Hds. unfold cleaned.
  rewrite (drop_title paren_time_at a _ paren_at_plain paren_at_space Ha).
  rewrite <- (app_nil_r (w ++ ch "(" :: d0 :: ds ++ [ch ")"])).
  rewrite (drop_match paren_time_at (w ++ ch "(" :: d0 :: ds ++ [ch ")"]) [])
    by first [apply paren_at_match; assumption | destruct w; discriminate].
  change (drop_all paren_time_at []) with (@nil char). rewrite app_nil_r.
  destruct (passes_keep a (title_other a Ha)) as (_ & E2 & E3).
  rewrite E2, E3. apply title_normal, Ha.
Qed.

Lemma cleaned_interior_paren (a w ds w' b : str) (d0 : char) :
  title_text a = true -> title_text b = true ->
  List.Forall (fun c => isspace c = true) w ->
  isdecimal d0 = true ->
  List.Forall (fun c => digit_or_colon c = true) ds ->
  w' <> [] -> List.Forall (fun c => isspace c = true) w' ->
  cleaned (a ++ w ++ ch "(" :: d0 :: ds ++ ch ")" :: w' ++ b)
  = a ++ ch " " :: b.
Proof.
  intros Ha Hb Hw Hd0 Hds Hne Hw'. unfold cleaned.
  rewrite (drop_title paren_time_at a _ paren_at_plain paren_at_space Ha).
  assert (Etext : w ++ ch "(" :: d0 :: ds ++ ch ")" :: w' ++ b
                  = (w ++ ch "(" :: d0 :: ds ++ [ch ")"]) ++ w' ++ b).
  { repeat first [rewrite <- app_assoc | progress cbn [app]]. reflexivity. }
  rewrite Etext.
  rewrite (drop_match paren_time_at (w ++ ch "(" :: d0 :: ds ++ [ch ")"]))
    by first [apply paren_at_match; assumption | destruct w; discriminate].
  assert (Hrest : List.Forall
            (fun c => isdecimal c = false /\ c <> ch "(" /\ c <> ch "[")
            (w' ++ b)).
  { apply List.Forall_app. split; [apply spaces_other, Hw' | apply title_other, Hb]. }
  destruct (passes_keep _ Hrest) as (E1 & _). rewrite E1.
  assert (Hall : List.Forall
            (fun c => isdecimal c = false /\ c <> ch "(" /\ c <> ch "[")
            (a ++ w' ++ b)).
  { apply List.Forall_app. split; [apply title_other, Ha | exact Hrest]. }
  destruct (passes_keep _ Hall) as (_ & E2 & E3). rewrite E2, E3.
  apply titles_normal; assumption.
Qed.

Lemma cleaned_trailing_bracket (a w w1 ds w2 : str) (d0 : char) :
  title_text a = true ->
  List.Forall (fun c => isspace c = true) w ->
  List.Forall (fun c => isspace c = true) w1 ->
  isdecimal d0 = true ->
  List.Forall (fun c => digit_or_colon c = true) ds ->
  List.Forall (fun c => isspace c = true) w2 ->
  cleaned (a ++ w ++ ch "[" :: w1 ++ d0 :: ds ++ w2 ++ [ch "]"]) = a.
Proof.
  intros Ha Hw Hw1 Hd0 Hds Hw2. unfold cleaned.
  assert (Hdc : digit_or_colon d0 = true)
    by (unfold digit_or_colon; rewrite Hd0; reflexivity).
  assert (Hopen : List.Forall (fun c => c <> ch "(")
                    (a ++ w ++ ch "[" :: w1 ++ d0 :: ds ++ w2 ++ [ch "]"])).
  { repeat first
      [ apply List.Forall_app; split | apply List.Forall_cons | apply List.Forall_nil ];
      try discriminate;
      try (eapply List.Forall_impl; [|apply title_other, Ha]; intros c Hc; apply Hc);
      try (eapply List.Forall_impl; [|apply spaces_other; eassumption];
           intros c Hc; apply Hc);
      try (eapply List.Forall_impl; [|apply digits_other; eassumption];
           intros c Hc; apply Hc).
    apply digit_other, Hdc. }
  rewrite (drop_nothing _ _ paren_at_needs_open _ Hopen).
  rewrite (drop_title bracket_time_at a _ bracket_at_plain bracket_at_space Ha).
  rewrite <- (app_nil_r (w ++ ch "[" :: w1 ++ d0 :: ds ++ w2 ++ [ch "]"])).
  rewrite (drop_match bracket_time_at
             (w ++ ch "[" :: w1 ++ d0 :: ds ++ w2 ++ [ch "]"]) [])
    by first [apply bracket_at_match; assumption | destruct w; discriminate].
  change (drop_all bracket_time_at []) with (@nil char). rewrite app_nil_r.
  destruct (passes_keep a (title_other a Ha)) as (_ & _ & E3).
  rewrite E3. apply title_normal, Ha.
Qed.

Lemma cleaned_interior_bracket (a w w1 ds w2 w' b : str) (d0 : char) :
  title_text a = true -> title_text b = true ->
  List.Forall (fun c => isspace c = true) w ->
  List.Forall (fun c => isspace c = true) w1 ->
  isdecimal d0 = true ->
  List.Forall (fun c => digit_or_colon c = true) ds ->
  List.Forall (fun c => isspace c = true) w2 ->
  w' <> [] -> List.Forall (fun c => isspace c = true) w' ->
  cleaned (a ++ w ++ ch "[" :: w1 ++ d0 :: ds ++ w2 ++ ch "]" :: w' ++ b)
  = a ++ ch " " :: b.
Proof.
  intros Ha Hb Hw Hw1 Hd0 Hds Hw2 Hne Hw'. unfold cleaned.
  assert (Hdc : digit_or_colon d0 = true)
    by (unfold digit_or_colon; rewrite Hd0; reflexivity).
  assert (Hrest : List.Forall
            (fun c => isdecimal c = false /\ c <> ch "(" /\ c <> ch "[")
            (w' ++ b)).
  { apply List.Forall_app. split; [apply spaces_other, Hw' | apply title_other, Hb]. }
  assert (Hopen : List.Forall (fun c => c <> ch "(")
                    (a ++ w ++ ch "[" :: w1 ++ d0 :: ds ++ w2
                     ++ ch "]" :: w' ++ b)).
  { repeat first
      [ apply List.Forall_app; split | apply List.Forall_cons ];
      try discriminate;
      try (eapply List.Forall_impl; [|apply title_other; eassumption];
           intros c Hc; apply Hc);
      try (eapply List.Forall_impl; [|apply spaces_other; eassumption];
           intros c Hc; apply Hc);
      try (eapply List.Forall_impl; [|apply digits_other; eassumption];
           intros c Hc; apply Hc).
    apply digit_other, Hdc. }
  rewrite (drop_nothing _ _ paren_at_needs_open _ Hopen).
  rewrite (drop_title bracket_time_at a _ bracket_at_plain bracket_at_space Ha).
  assert (Etext : w ++ ch "[" :: w1 ++ d0 :: ds ++ w2 ++ ch "]" :: w' ++ b
                  = (w ++ ch "[" :: w1 ++ d0 :: ds ++ w2 ++ [ch "]"])
                    ++ w' ++ b).
  { repeat first [rewrite <- app_assoc | progress cbn [app]]. reflexivity. }
  rewrite Etext.
  rewrite (drop_match bracket_time_at
             (w ++ ch "[" :: w1 ++ d0 :: ds ++ w2 ++ [ch "]"]))
    by first [apply bracket_at_match; assumption | destruct w; discriminate].
  destruct (passes_keep _ Hrest) as (_ & E2 & _). rewrite E2.
  assert (Hall : List.Forall
            (fun c => isdecimal c = false /\ c <> ch "(" /\ c <> ch "[")
            (a ++ w' ++ b)).
  { apply List.Forall_app. split; [apply title_other, Ha | exact Hrest]. }
  destruct (passes_keep _ Hall) as (_ & _ & E3). rewrite E3.
  apply titles_normal; assumption.
Qed.

Lemma cleaned_trailing_integer (a w d : str) :
  title_text a = true ->
  w <> [] -> List.Forall (fun c => isspace c = true) w ->
  d <> [] -> List.Forall (fun c => isdecimal c = true) d ->
  cleaned (a ++ w ++ d) = a.
Proof.
  intros Ha Hwne Hw Hdne Hd. unfold cleaned.
  assert (Hdo : List.Forall (fun c => c <> ch "(" /\ c <> ch "[") d).
  { eapply List.Forall_impl; [|exact Hd]. intros c Hc. apply digit_other.
    unfold digit_or_colon. rewrite Hc. reflexivity. }
  assert (Hall : List.Forall (fun c => c <> ch "(" /\ c <> ch "[")
                   (a ++ w ++ d)).
  { repeat (apply List.Forall_app; split); [| |exact Hdo].
    - eapply List.Forall_impl; [|apply title_other, Ha]. intros c Hc; apply Hc.
    - eapply List.Forall_impl; [|apply spaces_other, Hw]. intros c Hc; apply Hc. }
  rewrite (drop_nothing _ _ paren_at_needs_open)
    by (eapply List.Forall_impl; [|exact Hall]; intros c Hc; apply Hc).
  rewrite (drop_nothing _ _ bracket_at_needs_open)
    by (eapply List.Forall_impl; [|exact Hall]; intros c Hc; apply Hc).
  rewrite (drop_title count_at a _ count_at_plain count_at_space Ha).
  rewrite <- (app_nil_r (w ++ d)).
  rewrite (drop_match count_at (w ++ d) [])
    by first [apply count_at_match; assumption | destruct w; [congruence | discriminate]].
  change (drop_all count_at []) with (@nil char). rewrite app_nil_r.
  apply title_normal, Ha.
Qed.

(** C3, as the code has it.  For every fragment the cleanup is one pass
    that leaves out the times in parentheses, wherever they stand, one
    that leaves out the times in brackets, wherever they stand, and one
    that leaves out a bare integer at the end, each with the whitespace
    before it; then the hyphens at the end and the whitespace at both ends
    go and every run of whitespace becomes one space.  What is left is
    the song name of a fragment that is no placeholder, when it is not
    empty.  So after a title a time in parentheses, a time in brackets
    and a bare integer at the end are removed; and a time in parentheses
    in the middle of a fragment, with a title before it and a title
    behind it, is removed too, not left in place: the two titles come
    back with one space between them.  The same holds of a time in
    brackets in the middle. *)
Theorem cleanup_drops_annotations_anywhere :
  (forall part, clean_song part = cleaned part)
  /\ (forall (replacements : dict str) part,
        dict_get replacements part = None ->
        song_of_part replacements part
        = match cleaned part with [] => [] | name => [name] end)
  /\ (forall a w d0 ds,
        title_text a = true ->
        List.Forall (fun c => isspace c = true) w ->
        isdecimal d0 = true ->
        List.Forall (fun c => digit_or_colon c = true) ds ->
        clean_song (a ++ w ++ py "(" ++ d0 :: ds ++ py ")") = a)
  /\ (forall a w w1 d0 ds w2,
        title_text a = true ->
        List.Forall (fun c => isspace c = true) w ->
        List.Forall (fun c => isspace c = true) w1 ->
        isdecimal d0 = true ->
        List.Forall (fun c => digit_or_colon c = true) ds ->
        List.Forall (fun c => isspace c = true) w2 ->
        clean_song (a ++ w ++ py "[" ++ w1 ++ d0 :: ds ++ w2 ++ py "]") = a)
  /\ (forall a w d,
        title_text a = true ->
        w <> [] -> List.Forall (fun c => isspace c = true) w ->
        d <> [] -> List.Forall (fun c => isdecimal c = true) d ->
        clean_song (a ++ w ++ d) = a)
  /\ (forall a w d0 ds w' b,
        title_text a = true -> title_text b = true ->
        List.Forall (fun c => isspace c = true) w ->
        isdecimal d0 = true ->
        List.Forall (fun c => digit_or_colon c = true) ds ->
        w' <> [] -> List.Forall (fun c => isspace c = true) w' ->
        clean_song (a ++ w ++ py "(" ++ d0 :: ds ++ py ")" ++ w' ++ b)
        = a ++ py " " ++ b)
  /\ (forall a w w1 d0 ds w2 w' b,
        title_text a = true -> title_text b = true ->
        List.Forall (fun c => isspace c = true) w ->
        List.Forall (fun c => isspace c = true) w1 ->
        isdecimal d0 = true ->
        List.Forall (fun c => digit_or_colon c = true) ds ->
        List.Forall (fun c => isspace c = true) w2 ->
        w' <> [] -> List.Forall (fun c => isspace c = true) w' ->
        clean_song (a ++ w ++ py "[" ++ w1 ++ d0 :: ds ++ w2 ++ py "]"
                    ++ w' ++ b)
        = a ++ py " " ++ b).
Proof.
  split; [exact clean_song_cleaned|].
  split; [|split; [|split; [|split; [|split]]]].
  - intros replacements part H. unfold song_of_part.
    rewrite H, clean_song_cleaned. reflexivity.
  - intros a w d0 ds Ha Hw Hd0 Hds. rewrite clean_song_cleaned.
    exact (cleaned_trailing_paren a w ds d0 Ha Hw Hd0 Hds).
  - intros a w w1 d0 ds w2 Ha Hw Hw1 Hd0 Hds Hw2. rewrite clean_song_cleaned.
    exact (cleaned_trailing_bracket a w w1 ds w2 d0 Ha Hw Hw1 Hd0 Hds Hw2).
  - intros a w d Ha Hwne Hw Hdne Hd. rewrite clean_song_cleaned.
    exact (cleaned_trailing_integer a w d Ha Hwne Hw Hdne Hd).
  - intros a w d0 ds w' b Ha Hb Hw Hd0 Hds Hne Hw'. rewrite clean_song_cleaned.
    exact (cleaned_interior_paren a w ds w' b d0 Ha Hb Hw Hd0 Hds Hne Hw').
  - intros a w w1 d0 ds w2 w' b Ha Hb Hw Hw1 Hd0 Hds Hw2 Hne Hw'.
    rewrite clean_song_cleaned.
    exact (cleaned_interior_bracket a w w1 ds w2 w' b d0
             Ha Hb Hw Hw1 Hd0 Hds Hw2 Hne Hw').
Qed.

Lemma cleanup_drops_annotations_anywhere_witness :
  clean_song (py "Song A (12:34) Reprise") = py "Song A Reprise"
  /\ clean_song (py "Song A (12:34)") = py "Song A"
  /\ clean_song (py "Song A [ 12:34 ]") = py "Song A"
  /\ clean_song (py "Song A 2") = py "Song A"
  /\ clean_song (py "Song A [12:34] Reprise") = py "Song A Reprise"
  /\ song_of_part [] (py "Song A (12:34) Reprise") = [py "Song A Reprise"].
Proof.
  destruct cleanup_drops_annotations_anywhere
    as (Hall & Hpart & Hparen & Hbracket & Hcount & Hinner & Hinner2).
  assert (Ha : title_text (py "Song A") = true) by (vm_compute; reflexivity).
  assert (Hb : title_text (py "Reprise") = true) by (vm_compute; reflexivity).
  assert (Hw : List.Forall (fun c => isspace c = true) (py " "))
    by (repeat constructor).
  assert (Hds : List.Forall (fun c => digit_or_colon c = true) (py "2:34"))
    by (repeat constructor).
  split; [|split; [|split; [|split; [|split]]]].
  - exact (Hinner (py "Song A") (py " ") (ch "1") (py "2:34") (py " ")
             (py "Reprise") Ha Hb Hw eq_refl Hds ltac:(discriminate) Hw).
  - exact (Hparen (py "Song A") (py " ") (ch "1") (py "2:34") Ha Hw eq_refl Hds).
  - exact (Hbracket (py "Song A") (py " ") (py " ") (ch "1") (py "2:34")
             (py " ") Ha Hw Hw eq_refl Hds Hw).
  - exact (Hcount (py "Song A") (py " ") (py "2") Ha ltac:(discriminate) Hw
             ltac:(discriminate) ltac:(repeat constructor)).
  - exact (Hinner2 (py "Song A") (py " ") [] (ch "1") (py "2:34") []
             (py " ") (py "Reprise") Ha Hb Hw (List.Forall_nil _) eq_refl Hds
             (List.Forall_nil _) ltac:(discriminate) Hw).
  - rewrite (Hpart [] (py "Song A (12:34) Reprise") eq_refl).
    vm_compute. reflexivity.
Defined.
